(** * SnakeGame: the discrete-tick engine of SnakeGame.cpp, embedded and verified

    The development follows [src/SnakeGame/SnakeGame.cpp].  Rendering, textures
    and sounds carry no game state and are left out of the state; everything
    else (the two snakes, the food, the power-up, the scores, the global flags,
    the timers and the key handling of [main]) is translated function by
    function.  The draw methods are translated apart, as the list of shapes
    they hand to the drawing library.

    Modelling choices:
    - [Vector2] holds two C [float]s.  Every coordinate the program ever
      stores is a small integer (cells, unit steps, the sentinel -1), which a
      [float] represents exactly, so a coordinate is a [Z] and raymath's
      [Vector2Equals] is equality of both components.
    - [int] scores are 32-bit; the increment is written with its
      two's-complement wrap-around ([int_wrap]).
    - [GetTime] returns seconds as a [double]; a reading is a rational.
    - raylib's [GetRandomValue] and [GetTime] are the outside world: the
      [World] carries an arbitrary stream of raw random numbers and an
      arbitrary stream of clock readings, each call consuming one item.
    - [body[0]] and [pop_front] on an empty deque are undefined behaviour in
      C++; the model takes the zero vector and the empty tail there, and every
      statement that reads the head assumes a non-empty body.
    - the [while] loop of [Food::GenRandPos] has no bound in the source; the
      model runs it with fuel and answers [Spinning] when the fuel is gone. *)

From Stdlib Require Import String ZArith QArith List Bool Lia.
Import ListNotations.
Open Scope Z_scope.

(** ** Outside world and the monad of effects *)

Record World : Type := mkWorld {
  rand_src : nat -> Z;   (* raw output of the random generator, call by call *)
  rand_idx : nat;        (* how many random numbers were consumed *)
  clock_src : nat -> Q;  (* GetTime() readings, call by call *)
  clock_idx : nat        (* how many readings were consumed *)
}.

Inductive Outcome (A : Type) : Type :=
| Done (a : A)
| Spinning.
Arguments Done {A} a.
Arguments Spinning {A}.

Definition M (A : Type) : Type := World -> Outcome (A * World).

Definition ret {A : Type} (a : A) : M A := fun w => Done (a, w).

Definition bind {A B : Type} (m : M A) (k : A -> M B) : M B :=
  fun w => match m w with
           | Done (a, w') => k a w'
           | Spinning => Spinning
           end.

Definition spin {A : Type} : M A := fun _ => Spinning.

Notation "x <- m ;; k" := (bind m (fun x => k))
  (at level 61, m at next level, right associativity).

(** [GetRandomValue(min, max)]: an integer between [min] and [max], both
    included (raylib reduces the generator's raw output modulo the width of
    the interval). *)
Definition GetRandomValue (min max : Z) : M Z :=
  fun w => Done (min + rand_src w (rand_idx w) mod (max - min + 1),
                 mkWorld (rand_src w) (S (rand_idx w)) (clock_src w) (clock_idx w)).

Definition GetTime : M Q :=
  fun w => Done (clock_src w (clock_idx w),
                 mkWorld (rand_src w) (rand_idx w) (clock_src w) (S (clock_idx w))).

(** ** Geometry *)

Record Vector2 : Type := mkV { vx : Z; vy : Z }.

Definition Vector2Add (a b : Vector2) : Vector2 := mkV (vx a + vx b) (vy a + vy b).
Definition Vector2Subtract (a b : Vector2) : Vector2 := mkV (vx a - vx b) (vy a - vy b).
Definition Vector2Equals (p q : Vector2) : bool := (vx p =? vx q) && (vy p =? vy q).

Definition deque : Type := list Vector2.

(** [d[0]]. *)
Definition front (d : deque) : Vector2 := hd (mkV 0 0) d.

(** [d.pop_back()] is [removelast d]; [d.pop_front()] is [tl d]. *)

Fixpoint elementInDeque (element : Vector2) (d : deque) : bool :=
  match d with
  | [] => false
  | x :: rest => if Vector2Equals x element then true else elementInDeque element rest
  end.

(** ** Game settings and globals *)

Definition cellCount : Z := 25.

Definition INT_MIN : Z := - 2 ^ 31.
Definition INT_MAX : Z := 2 ^ 31 - 1.
Definition int_wrap (z : Z) : Z := (z + 2 ^ 31) mod 2 ^ 32 - 2 ^ 31.

(** [eventTriggered(interval, lastUpdateTime)]: the answer and the new value
    of the by-reference [lastUpdateTime]. *)
Definition eventTriggered (interval lastUpdateTime : Q) : M (bool * Q) :=
  currentTime <- GetTime ;;
  if Qle_bool interval (currentTime - lastUpdateTime)
  then ret (true, currentTime)
  else ret (false, lastUpdateTime).

(** ** class Food *)

Module Food.

Definition randomCell : M Vector2 :=
  x <- GetRandomValue 0 (cellCount - 1) ;;
  y <- GetRandomValue 0 (cellCount - 1) ;;
  ret (mkV x y).

(** The [while] loop of [GenRandPos], entered with the current [position]. *)
Fixpoint GenRandPos_while (fuel : nat) (snake1_body snake2_body : deque)
         (position : Vector2) : M Vector2 :=
  if elementInDeque position snake1_body || elementInDeque position snake2_body
  then match fuel with
       | O => spin
       | S fuel' =>
           position' <- randomCell ;;
           GenRandPos_while fuel' snake1_body snake2_body position'
       end
  else ret position.

Definition GenRandPos (fuel : nat) (snake1_body snake2_body : deque) : M Vector2 :=
  position <- randomCell ;;
  GenRandPos_while fuel snake1_body snake2_body position.

End Food.

(** ** class Snake *)

Module Snake.

Record t : Type := mk {
  body : deque;
  direction : Vector2;
  addSegment : bool
}.

(** [Snake(startPos, startDirection, color)]; [addSegment] has the default
    member initialiser [false]. *)
Definition new (startPos startDirection : Vector2) : t :=
  let b1 := [startPos] in
  let b2 := b1 ++ [Vector2Subtract startPos startDirection] in
  let b3 := b2 ++ [Vector2Subtract (last b2 startPos) startDirection] in
  mk b3 startDirection false.

Definition update (s : t) : t :=
  let pushed := Vector2Add (front (body s)) (direction s) :: body s in
  if negb (addSegment s)
  then mk (removelast pushed) (direction s) (addSegment s)
  else mk pushed (direction s) false.

(** [Snake::reset]: the body and the direction are rebuilt; no other member
    is assigned. *)
Definition reset (startPos startDirection : Vector2) (s : t) : t :=
  let b1 := [startPos] in
  let b2 := b1 ++ [Vector2Subtract startPos startDirection] in
  let b3 := b2 ++ [Vector2Subtract (last b2 startPos) startDirection] in
  mk b3 startDirection (addSegment s).

Definition set_direction (d : Vector2) (s : t) : t := mk (body s) d (addSegment s).
Definition set_addSegment (a : bool) (s : t) : t := mk (body s) (direction s) a.

End Snake.

(** ** class Game and the globals it writes *)

Record Game : Type := mkGame {
  snake1 : Snake.t;
  snake2 : Snake.t;
  food : Vector2;            (* food.pos *)
  powerup : Vector2;         (* powerup.pos *)
  running : bool;
  score1 : Z;
  score2 : Z;
  showPowerup : bool;
  powerupOnTime : Q;
  powerupOffTime : Q;
  powerupTimeGap : Q
}.

Record State : Type := mkState {
  game : Game;
  gameUpdateTime : Q;
  gameOver : bool;
  allowMove : bool;
  winnerMessage : string
}.

Definition set_snake1 (s : Snake.t) (g : Game) : Game :=
  mkGame s (snake2 g) (food g) (powerup g) (running g) (score1 g) (score2 g)
         (showPowerup g) (powerupOnTime g) (powerupOffTime g) (powerupTimeGap g).
Definition set_snake2 (s : Snake.t) (g : Game) : Game :=
  mkGame (snake1 g) s (food g) (powerup g) (running g) (score1 g) (score2 g)
         (showPowerup g) (powerupOnTime g) (powerupOffTime g) (powerupTimeGap g).
Definition set_food (p : Vector2) (g : Game) : Game :=
  mkGame (snake1 g) (snake2 g) p (powerup g) (running g) (score1 g) (score2 g)
         (showPowerup g) (powerupOnTime g) (powerupOffTime g) (powerupTimeGap g).
Definition set_powerup (p : Vector2) (g : Game) : Game :=
  mkGame (snake1 g) (snake2 g) (food g) p (running g) (score1 g) (score2 g)
         (showPowerup g) (powerupOnTime g) (powerupOffTime g) (powerupTimeGap g).
Definition set_running (b : bool) (g : Game) : Game :=
  mkGame (snake1 g) (snake2 g) (food g) (powerup g) b (score1 g) (score2 g)
         (showPowerup g) (powerupOnTime g) (powerupOffTime g) (powerupTimeGap g).
Definition set_score1 (z : Z) (g : Game) : Game :=
  mkGame (snake1 g) (snake2 g) (food g) (powerup g) (running g) z (score2 g)
         (showPowerup g) (powerupOnTime g) (powerupOffTime g) (powerupTimeGap g).
Definition set_score2 (z : Z) (g : Game) : Game :=
  mkGame (snake1 g) (snake2 g) (food g) (powerup g) (running g) (score1 g) z
         (showPowerup g) (powerupOnTime g) (powerupOffTime g) (powerupTimeGap g).
Definition set_showPowerup (b : bool) (g : Game) : Game :=
  mkGame (snake1 g) (snake2 g) (food g) (powerup g) (running g) (score1 g) (score2 g)
         b (powerupOnTime g) (powerupOffTime g) (powerupTimeGap g).
Definition set_powerupOnTime (q : Q) (g : Game) : Game :=
  mkGame (snake1 g) (snake2 g) (food g) (powerup g) (running g) (score1 g) (score2 g)
         (showPowerup g) q (powerupOffTime g) (powerupTimeGap g).
Definition set_powerupOffTime (q : Q) (g : Game) : Game :=
  mkGame (snake1 g) (snake2 g) (food g) (powerup g) (running g) (score1 g) (score2 g)
         (showPowerup g) (powerupOnTime g) q (powerupTimeGap g).

Definition set_game (g : Game) (st : State) : State :=
  mkState g (gameUpdateTime st) (gameOver st) (allowMove st) (winnerMessage st).

(** The two call sites of [checkFoodCollision] and [checkPowerupCollision]
    pass [(snake1, score1)] and [(snake2, score2)] by reference; a [Player]
    names the pair. *)
Inductive Player : Type := P1 | P2.

Definition snake_of (p : Player) (g : Game) : Snake.t :=
  match p with P1 => snake1 g | P2 => snake2 g end.
Definition score_of (p : Player) (g : Game) : Z :=
  match p with P1 => score1 g | P2 => score2 g end.
Definition set_snake (p : Player) (s : Snake.t) (g : Game) : Game :=
  match p with P1 => set_snake1 s g | P2 => set_snake2 s g end.
Definition set_score (p : Player) (z : Z) (g : Game) : Game :=
  match p with P1 => set_score1 z g | P2 => set_score2 z g end.

Definition sentinel : Vector2 := mkV (-1) (-1).

Definition startPos1 : Vector2 := mkV 6 9.
Definition startDir1 : Vector2 := mkV 1 0.
Definition startPos2 : Vector2 := mkV 18 9.
Definition startDir2 : Vector2 := mkV (-1) 0.

Module GameOps.

(** [Game::Game()]: members are initialised in declaration order, so the
    random generator serves the food, then the power-up, then
    [powerupTimeGap]. *)
Definition new (fuel : nat) : M Game :=
  let s1 := Snake.new startPos1 startDir1 in
  let s2 := Snake.new startPos2 startDir2 in
  foodPos <- Food.GenRandPos fuel (Snake.body s1) (Snake.body s2) ;;
  powerupPos <- Food.GenRandPos fuel (Snake.body s1) (Snake.body s2) ;;
  gap <- GetRandomValue 15 16 ;;
  ret (mkGame s1 s2 foodPos powerupPos true 0 0 false 0%Q 0%Q (inject_Z gap)).

Definition checkFoodCollision (fuel : nat) (p : Player) (g : Game) : M Game :=
  if Vector2Equals (front (Snake.body (snake_of p g))) (food g)
  then
    newPos <- Food.GenRandPos fuel (Snake.body (snake1 g)) (Snake.body (snake2 g)) ;;
    let g1 := set_food newPos g in
    let g2 := set_snake p (Snake.set_addSegment true (snake_of p g1)) g1 in
    ret (set_score p (int_wrap (score_of p g2 + 1)) g2)
  else ret g.

Definition checkPowerupCollision (p : Player) (g : Game) : Game :=
  if Vector2Equals (front (Snake.body (snake_of p g))) (powerup g)
  then
    let g1 := set_powerup sentinel g in
    let g2 := set_showPowerup false g1 in
    let g3 := set_snake p (Snake.set_addSegment true (snake_of p g2)) g2 in
    set_score p (int_wrap (score_of p g3 + 5)) g3
  else g.

Definition isOutOfBounds (s : Snake.t) : bool :=
  let h := front (Snake.body s) in
  (vx h <? 0) || (vx h >=? cellCount) || (vy h <? 0) || (vy h >=? cellCount).

Definition selfCollision (s : Snake.t) : bool :=
  let headlessBody := tl (Snake.body s) in
  elementInDeque (front (Snake.body s)) headlessBody.

Definition declareWinner (winner : Z) (st : State) : State :=
  mkState (set_running false (game st))
          (gameUpdateTime st)
          true
          (allowMove st)
          (if winner =? 1 then "Player 1 Wins!"%string else "Player 2 Wins!"%string).

Definition checkCollisions (st : State) : State :=
  let st := if isOutOfBounds (snake1 (game st)) then declareWinner 2 st else st in
  let st := if isOutOfBounds (snake2 (game st)) then declareWinner 1 st else st in
  let st := if selfCollision (snake1 (game st)) then declareWinner 2 st else st in
  let st := if selfCollision (snake2 (game st)) then declareWinner 1 st else st in
  let st := if elementInDeque (front (Snake.body (snake1 (game st))))
                              (Snake.body (snake2 (game st)))
            then declareWinner 2 st else st in
  let st := if elementInDeque (front (Snake.body (snake2 (game st))))
                              (Snake.body (snake1 (game st)))
            then declareWinner 1 st else st in
  st.

Definition togglePowerupOff (g : Game) : M Game :=
  if showPowerup g
  then
    r <- eventTriggered 10%Q (powerupOnTime g) ;;
    let g := set_powerupOnTime (snd r) g in
    if fst r
    then ret (set_powerup sentinel (set_showPowerup false g))
    else ret g
  else ret g.

Definition togglePowerupOn (fuel : nat) (g : Game) : M Game :=
  if negb (showPowerup g)
  then
    r <- eventTriggered (powerupTimeGap g) (powerupOffTime g) ;;
    let g := set_powerupOffTime (snd r) g in
    if fst r
    then
      let g := set_showPowerup true g in
      now <- GetTime ;;
      let g := set_powerupOnTime now g in
      newPos <- Food.GenRandPos fuel (Snake.body (snake1 g)) (Snake.body (snake2 g)) ;;
      ret (set_powerup newPos g)
    else ret g
  else ret g.

Definition update (fuel : nat) (st : State) : M State :=
  if running (game st)
  then
    let g := set_snake1 (Snake.update (snake1 (game st))) (game st) in
    let g := set_snake2 (Snake.update (snake2 g)) g in
    g <- checkFoodCollision fuel P1 g ;;
    g <- checkFoodCollision fuel P2 g ;;
    let g := checkPowerupCollision P1 g in
    let g := checkPowerupCollision P2 g in
    let st := checkCollisions (set_game g st) in
    g <- togglePowerupOff (game st) ;;
    g <- togglePowerupOn fuel g ;;
    ret (set_game g st)
  else ret st.

Definition reset (fuel : nat) (st : State) : M State :=
  let g := set_snake1 (Snake.reset startPos1 startDir1 (snake1 (game st))) (game st) in
  let g := set_snake2 (Snake.reset startPos2 startDir2 (snake2 g)) g in
  newPos <- Food.GenRandPos fuel (Snake.body (snake1 g)) (Snake.body (snake2 g)) ;;
  let g := set_food newPos g in
  let g := set_powerup sentinel g in
  let g := set_showPowerup false g in
  let g := set_score1 0 g in
  let g := set_score2 0 g in
  let g := set_running true g in
  ret (mkState g (gameUpdateTime st) false (allowMove st) ""%string).

End GameOps.

(** ** main: one iteration of the game loop *)

Inductive Key : Type :=
| KEY_UP | KEY_DOWN | KEY_RIGHT | KEY_LEFT
| KEY_W | KEY_S | KEY_D | KEY_A
| KEY_SPACE.

Definition dirUp : Vector2 := mkV 0 (-1).
Definition dirDown : Vector2 := mkV 0 1.
Definition dirRight : Vector2 := mkV 1 0.
Definition dirLeft : Vector2 := mkV (-1) 0.

(** One guarded assignment of the key handling: [if (IsKeyPressed(k) && ok)
    { snake.direction = d; allowMove = false; }]. *)
Definition steer (pressed : bool) (p : Player) (ok : Snake.t -> bool) (d : Vector2)
           (st : State) : State :=
  if pressed && ok (snake_of p (game st))
  then mkState (set_snake p (Snake.set_direction d (snake_of p (game st))) (game st))
               (gameUpdateTime st) (gameOver st) false (winnerMessage st)
  else st.

(** Lines 310-346 of [main]: the whole key-handling block. *)
Definition handleInput (IsKeyPressed : Key -> bool) (st : State) : State :=
  if negb (gameOver st) && allowMove st
  then
    let st := steer (IsKeyPressed KEY_UP) P1
                    (fun s => negb (vy (Snake.direction s) =? 1)) dirUp st in
    let st := steer (IsKeyPressed KEY_DOWN) P1
                    (fun s => negb (vy (Snake.direction s) =? -1)) dirDown st in
    let st := steer (IsKeyPressed KEY_RIGHT) P1
                    (fun s => negb (vx (Snake.direction s) =? -1)) dirRight st in
    let st := steer (IsKeyPressed KEY_LEFT) P1
                    (fun s => negb (vx (Snake.direction s) =? 1)) dirLeft st in
    let st := steer (IsKeyPressed KEY_W) P2
                    (fun s => negb (vy (Snake.direction s) =? 1)) dirUp st in
    let st := steer (IsKeyPressed KEY_S) P2
                    (fun s => negb (vy (Snake.direction s) =? -1)) dirDown st in
    let st := steer (IsKeyPressed KEY_D) P2
                    (fun s => negb (vx (Snake.direction s) =? -1)) dirRight st in
    let st := steer (IsKeyPressed KEY_A) P2
                    (fun s => negb (vx (Snake.direction s) =? 1)) dirLeft st in
    st
  else st.

(** The body of [while (!WindowShouldClose())], drawing left out. *)
Definition frame (fuel : nat) (IsKeyPressed : Key -> bool) (st : State) : M State :=
  st <- (if negb (gameOver st)
         then
           r <- eventTriggered (2 # 10)%Q (gameUpdateTime st) ;;
           let st := mkState (game st) (snd r) (gameOver st) (allowMove st)
                             (winnerMessage st) in
           if fst r
           then
             let st := mkState (game st) (gameUpdateTime st) (gameOver st) true
                               (winnerMessage st) in
             GameOps.update fuel st
           else ret st
         else ret st) ;;
  st <- (if gameOver st && IsKeyPressed KEY_SPACE
         then GameOps.reset fuel st
         else ret st) ;;
  ret (handleInput IsKeyPressed st).

(** [main] up to the first iteration: the globals' initialisers and [Game game]. *)
Definition start (fuel : nat) : M State :=
  g <- GameOps.new fuel ;;
  ret (mkState g 0%Q false false ""%string).

(** A run of the loop, one set of pressed keys per frame. *)
Fixpoint frames (fuel : nat) (inputs : list (Key -> bool)) (st : State) : M State :=
  match inputs with
  | [] => ret st
  | keys :: rest => st' <- frame fuel keys st ;; frames fuel rest st'
  end.

(** ** Vocabulary of the statements *)

Definition in_grid (c : Vector2) : Prop :=
  0 <= vx c < cellCount /\ 0 <= vy c < cellCount.

(** A cell is occupied when it lies on one of the two bodies: the loop
    condition of [GenRandPos]. *)
Definition occupied (a b : deque) (c : Vector2) : bool :=
  elementInDeque c a || elementInDeque c b.

(** The cell [randomCell] builds from the raw random numbers [i] and [i+1]. *)
Definition cell (src : nat -> Z) (i : nat) : Vector2 :=
  mkV (0 + src i mod (cellCount - 1 - 0 + 1)) (0 + src (S i) mod (cellCount - 1 - 0 + 1)).

(** The world after [n] more random numbers were drawn. *)
Definition drawn (n : nat) (w : World) : World :=
  mkWorld (rand_src w) (n + rand_idx w) (clock_src w) (clock_idx w).

(** The [k]-th cell [GenRandPos] samples when started in [w]. *)
Definition sample (w : World) (k : nat) : Vector2 :=
  cell (rand_src w) (2 * k + rand_idx w).

(** The two bodies jointly occupy every cell of the grid. *)
Definition covering (a b : deque) : Prop :=
  forall c, in_grid c -> occupied a b c = true.

(** Every cell of the grid, column by column. *)
Definition all_cells : deque :=
  flat_map (fun x => map (fun y => mkV (Z.of_nat x) (Z.of_nat y)) (seq 0 25)) (seq 0 25).

(** A world whose random generator and clock are given by tables. *)
Definition world_of (rs : list Z) (ts : nat -> Q) : World :=
  mkWorld (fun n => nth n rs 0) 0%nat ts 0%nat.

(** A clock that has advanced by a fifth of a second at every reading, and a
    clock given by a table of readings. *)
Definition steady : nat -> Q := fun n => (Z.of_nat (S n) # 5)%Q.

(** A clock that has advanced by a quarter of a second at every reading:
    every reading, and every difference of two readings, is a multiple of a
    quarter and so exact in a [double]. *)
Definition quarters : nat -> Q := fun n => (Z.of_nat (S n) # 4)%Q.
Definition readings (l : list Q) : nat -> Q := fun n => nth n l 0%Q.

(** Keys held down in one frame. *)
Definition Key_eqb (k k' : Key) : bool :=
  match k, k' with
  | KEY_UP, KEY_UP | KEY_DOWN, KEY_DOWN | KEY_RIGHT, KEY_RIGHT | KEY_LEFT, KEY_LEFT
  | KEY_W, KEY_W | KEY_S, KEY_S | KEY_D, KEY_D | KEY_A, KEY_A
  | KEY_SPACE, KEY_SPACE => true
  | _, _ => false
  end.
Definition pressing (l : list Key) : Key -> bool := fun k => existsb (Key_eqb k) l.
Definition no_keys : Key -> bool := pressing [].

(** The program from its first statement: construction, then the frames. *)
Definition play (fuel : nat) (rs : list Z) (ts : nat -> Q) (inputs : list (Key -> bool))
  : Outcome (State * World) :=
  (st <- start fuel ;; frames fuel inputs st) (world_of rs ts).

(** *** Collisions *)

(** The six tests of [checkCollisions] in source order, each with the winner
    it declares. *)
Definition collision_rules (g : Game) : list (bool * Z) :=
  [ (GameOps.isOutOfBounds (snake1 g), 2);
    (GameOps.isOutOfBounds (snake2 g), 1);
    (GameOps.selfCollision (snake1 g), 2);
    (GameOps.selfCollision (snake2 g), 1);
    (elementInDeque (front (Snake.body (snake1 g))) (Snake.body (snake2 g)), 2);
    (elementInDeque (front (Snake.body (snake2 g))) (Snake.body (snake1 g)), 1) ].

Definition first_match (rules : list (bool * Z)) : option Z :=
  match find fst rules with
  | Some r => Some (snd r)
  | None => None
  end.

Definition last_match (rules : list (bool * Z)) : option Z := first_match (rev rules).

Definition winner_text (winner : Z) : string :=
  if winner =? 1 then "Player 1 Wins!"%string else "Player 2 Wins!"%string.

(** The rule as the specification words it: the first matching test names
    the winner that is recorded. *)
Definition first_rule_decides (st st' : State) : Prop :=
  forall winner,
    first_match (collision_rules (game st)) = Some winner ->
    winnerMessage st' = winner_text winner.

(** *** Steering *)

Inductive Heading : Type := HeadUp | HeadDown | HeadRight | HeadLeft.

Definition vec_of (h : Heading) : Vector2 :=
  match h with
  | HeadUp => dirUp | HeadDown => dirDown | HeadRight => dirRight | HeadLeft => dirLeft
  end.

(** The key that asks for heading [h] on player [p]'s snake. *)
Definition key_of (p : Player) (h : Heading) : Key :=
  match p, h with
  | P1, HeadUp => KEY_UP | P1, HeadDown => KEY_DOWN
  | P1, HeadRight => KEY_RIGHT | P1, HeadLeft => KEY_LEFT
  | P2, HeadUp => KEY_W | P2, HeadDown => KEY_S
  | P2, HeadRight => KEY_D | P2, HeadLeft => KEY_A
  end.

Definition opposite (d : Vector2) : Vector2 := mkV (- vx d) (- vy d).

(** The state a request leaves when it is accepted. *)
Definition steered (p : Player) (d : Vector2) (st : State) : State :=
  mkState (set_snake p (Snake.set_direction d (snake_of p (game st))) (game st))
          (gameUpdateTime st) (gameOver st) false (winnerMessage st).

(** The rule as the specification words it: a request is dropped exactly
    when it asks for the opposite of the current direction. *)
Definition only_reversal_is_refused (p : Player) (h : Heading) (st st' : State) : Prop :=
  let d := Snake.direction (snake_of p (game st)) in
  (vec_of h = opposite d -> Snake.direction (snake_of p (game st')) = d) /\
  (vec_of h <> opposite d -> Snake.direction (snake_of p (game st')) = vec_of h).

(** The test that guards the assignment of heading [h] in lines 312-345. *)
Definition guard_of (h : Heading) (s : Snake.t) : bool :=
  match h with
  | HeadUp => negb (vy (Snake.direction s) =? 1)
  | HeadDown => negb (vy (Snake.direction s) =? -1)
  | HeadRight => negb (vx (Snake.direction s) =? -1)
  | HeadLeft => negb (vx (Snake.direction s) =? 1)
  end.

(** One request as the specification words it, made of a state: it is
    dropped when it asks for the opposite of the direction the snake has at
    that moment, and replaces the direction otherwise. *)
Definition request (p : Player) (h : Heading) (st : State) : State :=
  if Vector2Equals (vec_of h) (opposite (Snake.direction (snake_of p (game st))))
  then st
  else steered p (vec_of h) st.

(** The keys in the order in which lines 312-345 test them. *)
Definition key_order : list (Player * Heading) :=
  [(P1, HeadUp); (P1, HeadDown); (P1, HeadRight); (P1, HeadLeft);
   (P2, HeadUp); (P2, HeadDown); (P2, HeadRight); (P2, HeadLeft)].

(** The requests of one frame: one for every key that is pressed, in that
    order, each made of the state the one before has left. *)
Definition requests (IsKeyPressed : Key -> bool) (st : State) : State :=
  fold_left (fun s ph => if IsKeyPressed (key_of (fst ph) (snd ph))
                         then request (fst ph) (snd ph) s
                         else s)
            key_order st.

(** *** The tick, phase by phase *)

(** Lines 190-191 of [Game::update]: both snakes advance. *)
Definition advance (g : Game) : Game :=
  let g := set_snake1 (Snake.update (snake1 g)) g in
  set_snake2 (Snake.update (snake2 g)) g.

(** Lines 192-195: the food checks, then the power-up checks. *)
Definition collect (fuel : nat) (g : Game) : M Game :=
  g <- GameOps.checkFoodCollision fuel P1 g ;;
  g <- GameOps.checkFoodCollision fuel P2 g ;;
  ret (GameOps.checkPowerupCollision P2 (GameOps.checkPowerupCollision P1 g)).

(** Lines 196-198: the collisions, then the two power-up timers. *)
Definition settle (fuel : nat) (st : State) : M State :=
  let st := GameOps.checkCollisions st in
  g <- GameOps.togglePowerupOff (game st) ;;
  g <- GameOps.togglePowerupOn fuel g ;;
  ret (set_game g st).

(** The head a snake will have after its next advance. *)
Definition head_after (s : Snake.t) : Vector2 :=
  Vector2Add (front (Snake.body s)) (Snake.direction s).

(** What [checkFoodCollision] leaves when the head is on the food and the
    food moves to [newPos]. *)
Definition fed (p : Player) (newPos : Vector2) (g : Game) : Game :=
  let g1 := set_food newPos g in
  let g2 := set_snake p (Snake.set_addSegment true (snake_of p g1)) g1 in
  set_score p (int_wrap (score_of p g2 + 1)) g2.

(** One call of [checkFoodCollision], from [g] to [g']. *)
Definition food_step (p : Player) (g g' : Game) : Prop :=
  (Vector2Equals (front (Snake.body (snake_of p g))) (food g) = true /\
   exists newPos,
     in_grid newPos /\
     elementInDeque newPos (Snake.body (snake1 g)) = false /\
     elementInDeque newPos (Snake.body (snake2 g)) = false /\
     g' = fed p newPos g) \/
  (Vector2Equals (front (Snake.body (snake_of p g))) (food g) = false /\ g' = g).

(** The part of the game the timers and the collision tests never write. *)
Definition same_players (g g' : Game) : Prop :=
  snake1 g' = snake1 g /\ snake2 g' = snake2 g /\ food g' = food g /\
  score1 g' = score1 g /\ score2 g' = score2 g /\
  powerupTimeGap g' = powerupTimeGap g.

(** Whatever the position in the random stream, a cell free of [a] and [b]
    is sampled later on. *)
Definition lively (a b : deque) (src : nat -> Z) : Prop :=
  forall i, exists k, occupied a b (cell src (2 * k + i)) = false.

(** With enough rounds for its loops, [m] returns [r]. *)
Definition returns_with {A : Type} (m : nat -> M A) (w : World) (r : A * World) : Prop :=
  exists n, forall fuel, (n <= fuel)%nat -> m fuel w = Done r.

(** The world after one more clock reading. *)
Definition read (w : World) : World :=
  mkWorld (rand_src w) (rand_idx w) (clock_src w) (S (clock_idx w)).

Definition food_ahead (p : Player) (g : Game) : Prop :=
  food g = head_after (snake_of p g).

Definition powerup_ahead (p : Player) (g : Game) : Prop :=
  powerup g = head_after (snake_of p g).

(** The outcome of eating the food as the specification words it: within the
    same tick one more point, one more segment, and the food on neither body. *)
Definition grows_within_the_tick (p : Player) (st st' : State) : Prop :=
  score_of p (game st') = score_of p (game st) + 1 /\
  length (Snake.body (snake_of p (game st'))) =
    S (length (Snake.body (snake_of p (game st)))) /\
  occupied (Snake.body (snake1 (game st'))) (Snake.body (snake2 (game st')))
           (food (game st')) = false.

(** The outcome of reaching the power-up as the specification words it. *)
Definition takes_powerup (p : Player) (st st' : State) : Prop :=
  Snake.addSegment (snake_of p (game st')) = true /\
  score_of p (game st') = score_of p (game st) + 5.

(** The state right after construction, with the food at [fd] and the
    power-up at [pw]. *)
Definition opening (fd pw : Vector2) (shown : bool) : State :=
  mkState (mkGame (Snake.new startPos1 startDir1) (Snake.new startPos2 startDir2)
                  fd pw true 0 0 shown 0%Q 0%Q 15%Q)
          0%Q false false ""%string.

(** Both heads one step away from the cell (12,9), which holds a visible
    power-up shown at second 16. *)
Definition face_to_face : State :=
  mkState (mkGame (Snake.mk [mkV 11 9; mkV 10 9; mkV 9 9] dirRight false)
                  (Snake.mk [mkV 13 9; mkV 14 9; mkV 15 9] dirLeft false)
                  (mkV 0 0) (mkV 12 9) true 0 0 true 16%Q 16%Q 15%Q)
          17%Q false true ""%string.

(** The food one step ahead of snake 1 at the start of the game, the
    power-up in a far corner; and the power-up one step ahead instead. *)
Definition food_in_front : State := opening (mkV 7 9) (mkV 24 24) false.
Definition powerup_in_front : State := opening (mkV 0 0) (mkV 7 9) true.

(** A world whose random generator answers the cell (3,3) first and whose
    clock has advanced by a fifth of a second at every reading. *)
Definition calm_world : World := world_of [3; 3] steady.

(** Two players who keep their snakes turning in small squares: the keys of
    four consecutive frames, [n] times over. *)
Definition circling (n : nat) : list (Key -> bool) :=
  concat (repeat [pressing [KEY_DOWN; KEY_S]; pressing [KEY_LEFT; KEY_D];
                  pressing [KEY_UP; KEY_W]; pressing [KEY_RIGHT; KEY_A]] n).

(** The first [n] frames of such a game on the clock of quarter seconds: the
    food in one corner, the power-up of the constructor in the opposite one,
    the interval drawn as 15, and the corners (24,0) and (0,24) for the
    power-ups shown later. *)
Definition circling_game (n : nat) : Outcome (State * World) :=
  play 5 [0; 0; 24; 24; 0; 24; 0; 0; 24] quarters (firstn n (circling 30)).

(** The rule as the specification words it: a power-up hidden at [hidden_at]
    is not shown again before the interval has elapsed since then. *)
Definition waits_for_interval (gap hidden_at shown_at : Q) : Prop :=
  (gap <= shown_at - hidden_at)%Q.

(** A hidden power-up is at the sentinel. *)
Definition hidden_at_sentinel (g : Game) : Prop :=
  showPowerup g = false -> powerup g = sentinel.

(** The bodies both snakes start with. *)
Definition start_body1 : deque := Snake.body (Snake.new startPos1 startDir1).
Definition start_body2 : deque := Snake.body (Snake.new startPos2 startDir2).

(** A random stream that answers the same cell [c] at position [i]. *)
Definition aiming_at (c : Vector2) (i : nat) : nat -> Z :=
  fun j => if Nat.eqb j i then vx c else vy c.

(** *** Invariants of the running program *)

(** The timers of one tick, from [g] to [g']: the power-up is left alone,
    hidden at the sentinel, or shown on a free cell of the grid. *)
Definition timers_step (g g' : Game) : Prop :=
  same_players g g' /\ running g' = running g /\
  ((showPowerup g' = showPowerup g /\ powerup g' = powerup g) \/
   (showPowerup g' = false /\ powerup g' = sentinel) \/
   (showPowerup g' = true /\ in_grid (powerup g') /\
    elementInDeque (powerup g') (Snake.body (snake1 g)) = false /\
    elementInDeque (powerup g') (Snake.body (snake2 g)) = false)).

(** Every state the program can be in after construction and any number of
    frames, whatever the random generator, the clock and the players do. *)
Definition reachable (st : State) : Prop :=
  exists fuel w inputs w',
    (st0 <- start fuel ;; frames fuel inputs st0) w = Done (st, w').

Definition is_heading (d : Vector2) : Prop := exists h, d = vec_of h.

(** Each segment lies one unit step from the segment behind it. *)
Fixpoint chain (b : deque) : Prop :=
  match b with
  | x :: ((y :: _) as rest) => (exists h, x = Vector2Add y (vec_of h)) /\ chain rest
  | _ => True
  end.

Definition snake_ok (s : Snake.t) : Prop :=
  (3 <= length (Snake.body s))%nat /\ is_heading (Snake.direction s) /\
  chain (Snake.body s).

Definition snakes_ok (st : State) : Prop :=
  snake_ok (snake1 (game st)) /\ snake_ok (snake2 (game st)).

Definition flags_ok (st : State) : Prop :=
  gameOver st = negb (running (game st)) /\
  (gameOver st = false -> winnerMessage st = ""%string) /\
  (gameOver st = true ->
   winnerMessage st = winner_text 1 \/ winnerMessage st = winner_text 2).

(** A cell of the grid that is on neither snake. *)
Definition free_of (g : Game) (c : Vector2) : Prop :=
  in_grid c /\
  elementInDeque c (Snake.body (snake1 g)) = false /\
  elementInDeque c (Snake.body (snake2 g)) = false.

Definition collectibles_ok (st : State) : Prop :=
  free_of (game st) (food (game st)) /\
  (powerup (game st) = sentinel \/ free_of (game st) (powerup (game st))) /\
  (showPowerup (game st) = true -> free_of (game st) (powerup (game st))).

(** While the game runs, every segment of both snakes is inside the grid and
    no cell holds two segments. *)
Definition bodies_ok (st : State) : Prop :=
  running (game st) = true ->
  (forall c, In c (Snake.body (snake1 (game st)) ++ Snake.body (snake2 (game st))) ->
             in_grid c) /\
  NoDup (Snake.body (snake1 (game st)) ++ Snake.body (snake2 (game st))).

(** What the key handling may change between [st] and [st']: the two
    directions, each kept or replaced by one of the four unit headings, and
    [allowMove]. *)
Definition steering (st st' : State) : Prop :=
  gameUpdateTime st' = gameUpdateTime st /\ gameOver st' = gameOver st /\
  winnerMessage st' = winnerMessage st /\
  food (game st') = food (game st) /\ powerup (game st') = powerup (game st) /\
  running (game st') = running (game st) /\
  score1 (game st') = score1 (game st) /\ score2 (game st') = score2 (game st) /\
  showPowerup (game st') = showPowerup (game st) /\
  powerupTimeGap (game st') = powerupTimeGap (game st) /\
  (forall p,
      Snake.body (snake_of p (game st')) = Snake.body (snake_of p (game st)) /\
      Snake.addSegment (snake_of p (game st')) = Snake.addSegment (snake_of p (game st)) /\
      (Snake.direction (snake_of p (game st')) = Snake.direction (snake_of p (game st)) \/
       is_heading (Snake.direction (snake_of p (game st'))))).

(** One when growth is pending on the snake, zero otherwise. *)
Definition pending (s : Snake.t) : Z := if Snake.addSegment s then 1 else 0.

(** A score is backed by segments gained or about to be gained, six points
    at most for each. *)
Definition scores_ok (st : State) : Prop :=
  forall p,
    0 <= score_of p (game st)
      <= 6 * (Z.of_nat (length (Snake.body (snake_of p (game st)))) - 3
              + pending (snake_of p (game st))).

Definition lengths_ok (st : State) : Prop :=
  (length (Snake.body (snake1 (game st))) + length (Snake.body (snake2 (game st)))
   <= 627)%nat.

(** *** Several keys in one frame *)

(** What the four guarded assignments of one player make of a direction,
    in the order of the source: up, down, right, left. *)
Definition turned (IsKeyPressed : Key -> bool) (p : Player) (d : Vector2) : Vector2 :=
  let d := if IsKeyPressed (key_of p HeadUp) && negb (vy d =? 1) then dirUp else d in
  let d := if IsKeyPressed (key_of p HeadDown) && negb (vy d =? -1) then dirDown else d in
  let d := if IsKeyPressed (key_of p HeadRight) && negb (vx d =? -1) then dirRight else d in
  let d := if IsKeyPressed (key_of p HeadLeft) && negb (vx d =? 1) then dirLeft else d in
  d.

(** A state with [allowMove] set, as the loop sets it before a tick. *)
Definition freed (st : State) : State :=
  mkState (game st) (gameUpdateTime st) (gameOver st) true (winnerMessage st).

(** *** Frames between two ticks *)

(** The world after [n] more clock readings. *)
Definition clocked (n : nat) (w : World) : World :=
  mkWorld (rand_src w) (rand_idx w) (clock_src w) (n + clock_idx w).

(** The [j]-th reading from [w] on comes less than a fifth of a second after
    the last tick of [st]. *)
Definition before_tick (st : State) (w : World) (j : nat) : Prop :=
  (clock_src w (j + clock_idx w) - gameUpdateTime st < 2 # 10)%Q.

(** *** Drawing *)

Definition cellSize : Z := 30.
Definition offset : Z := 75.

Inductive Color : Type := DARKGREEN | DARKBLUE | WHITE | RED.

(** The two textures, loaded from Graphics/food.png and Graphics/powerup.png. *)
Inductive Picture : Type := FoodPicture | PowerupPicture.

(** The calls made to the drawing library. *)
Inductive Shape : Type :=
| RectangleRounded (x y width height : Z) (color : Color)
| Texture (texture : Picture) (posX posY : Z) (tint : Color)
| Text (text : string) (posX posY fontSize : Z) (color : Color).

(** [Food::draw]. *)
Definition Food_draw (texture : Picture) (pos : Vector2) : list Shape :=
  [Texture texture (offset + vx pos * cellSize) (offset + vy pos * cellSize) WHITE].

(** [Snake::Draw]; the colour is the member the constructor sets, which no
    other code assigns. *)
Definition Snake_Draw (color : Color) (s : Snake.t) : list Shape :=
  map (fun segment =>
         RectangleRounded (offset + vx segment * cellSize) (offset + vy segment * cellSize)
                          cellSize cellSize color)
      (Snake.body s).

(** [Game::draw]. *)
Definition Game_draw (g : Game) : list Shape :=
  Snake_Draw DARKGREEN (snake1 g) ++ Snake_Draw DARKBLUE (snake2 g) ++
  Food_draw FoodPicture (food g) ++
  (if showPowerup g then Food_draw PowerupPicture (powerup g) else []).

(** Lines 303-308 of [main]: the winner's message or the game. *)
Definition main_draw (st : State) : list Shape :=
  if gameOver st
  then [Text (winnerMessage st) (offset + 100) (offset + (cellSize * cellCount) / 2) 40 RED;
        Text "Press SPACE to Restart" (offset + 100)
             (offset + (cellSize * cellCount) / 2 + 50) 20 RED]
  else Game_draw (game st).

(** The loop body up to the point where it draws: the tick and the reset. *)
Definition before_keys (fuel : nat) (IsKeyPressed : Key -> bool) (st : State) : M State :=
  st <- (if negb (gameOver st)
         then
           r <- eventTriggered (2 # 10)%Q (gameUpdateTime st) ;;
           let st := mkState (game st) (snd r) (gameOver st) (allowMove st)
                             (winnerMessage st) in
           if fst r
           then
             let st := mkState (game st) (gameUpdateTime st) (gameOver st) true
                               (winnerMessage st) in
             GameOps.update fuel st
           else ret st
         else ret st) ;;
  if gameOver st && IsKeyPressed KEY_SPACE
  then GameOps.reset fuel st
  else ret st.

(** Where a shape is put and what it may cover. *)
Definition anchor (sh : Shape) : Z * Z :=
  match sh with
  | RectangleRounded x y _ _ _ => (x, y)
  | Texture _ x y _ => (x, y)
  | Text _ x y _ _ => (x, y)
  end.

Definition playfield_side : Z := cellSize * cellCount.

(** A rectangle lies inside the playfield; a texture or a text starts on it,
    a texture on the corner of a cell. *)
Definition on_playfield (sh : Shape) : Prop :=
  match sh with
  | RectangleRounded x y width height _ =>
      offset <= x /\ x + width <= offset + playfield_side /\
      offset <= y /\ y + height <= offset + playfield_side
  | Texture _ x y _ =>
      exists c, in_grid c /\ x = offset + vx c * cellSize /\ y = offset + vy c * cellSize
  | Text _ x y _ _ =>
      offset <= x < offset + playfield_side /\ offset <= y < offset + playfield_side
  end.

(** All the invariants of the reachable states together. *)
Definition all_ok (st : State) : Prop :=
  snakes_ok st /\ bodies_ok st /\ lengths_ok st /\ scores_ok st /\
  collectibles_ok st /\ flags_ok st.

(** ** Basic facts *)

Lemma Vector2Equals_true (p q : Vector2) : Vector2Equals p q = true <-> p = q.
Proof.
  destruct p as [px py], q as [qx qy]; unfold Vector2Equals; simpl.
  rewrite andb_true_iff, !Z.eqb_eq.
  split; [intros [-> ->]; reflexivity | intros H; inversion H; auto].
Qed.

Lemma Vector2Equals_refl (p : Vector2) : Vector2Equals p p = true.
Proof. apply Vector2Equals_true; reflexivity. Qed.

Lemma Vector2Equals_false (p q : Vector2) : Vector2Equals p q = false <-> p <> q.
Proof.
  rewrite <- not_true_iff_false, Vector2Equals_true; tauto.
Qed.

Lemma elementInDeque_In (e : Vector2) (d : deque) :
  elementInDeque e d = true <-> In e d.
Proof.
  induction d as [|x rest IH]; simpl.
  - split; [discriminate | tauto].
  - destruct (Vector2Equals x e) eqn:E.
    + apply Vector2Equals_true in E; tauto.
    + apply Vector2Equals_false in E; rewrite IH; tauto.
Qed.

Lemma elementInDeque_front (d : deque) : d <> [] -> elementInDeque (front d) d = true.
Proof.
  destruct d as [|x rest]; [congruence|]; intros _; simpl.
  now rewrite Vector2Equals_refl.
Qed.

Lemma Vector2Equals_sym (p q : Vector2) : Vector2Equals p q = Vector2Equals q p.
Proof.
  unfold Vector2Equals. now rewrite (Z.eqb_sym (vx p)), (Z.eqb_sym (vy p)).
Qed.

Lemma front_not_free (v : Vector2) (b : deque) :
  b <> [] -> elementInDeque v b = false -> Vector2Equals (front b) v = false.
Proof.
  destruct b as [|h r]; [congruence|]; intros _; cbn.
  destruct (Vector2Equals h v); [discriminate | reflexivity].
Qed.

Lemma sentinel_not_in_grid (v : Vector2) : in_grid v -> Vector2Equals v sentinel = false.
Proof.
  intros [[Hx _] _]. apply Vector2Equals_false. intros ->. cbn in Hx. lia.
Qed.

Lemma occupied_false (a b : deque) (c : Vector2) :
  occupied a b c = false <-> elementInDeque c a = false /\ elementInDeque c b = false.
Proof. unfold occupied; apply orb_false_iff. Qed.

(** The loop condition of [GenRandPos] fails exactly on the cells that occur
    in neither body. *)
Lemma occupied_In (a b : deque) (c : Vector2) :
  occupied a b c = false <-> ~ In c a /\ ~ In c b.
Proof.
  rewrite occupied_false, <- !elementInDeque_In.
  destruct (elementInDeque c a), (elementInDeque c b); split;
    intros [H1 H2]; try discriminate; try (split; [reflexivity|reflexivity]);
    try (exfalso; first [apply H1; reflexivity | apply H2; reflexivity]);
    split; discriminate.
Qed.

Lemma bind_Done {A B : Type} (m : M A) (k : A -> M B) (w : World) (r : B * World) :
  bind m k w = Done r <-> exists a w1, m w = Done (a, w1) /\ k a w1 = Done r.
Proof.
  unfold bind; destruct (m w) as [[a w1]|].
  - split; [eauto | intros (a' & w' & E & H); inversion E; subst; exact H].
  - split; [discriminate | intros (a' & w' & E & _); discriminate].
Qed.

Lemma cell_in_grid (src : nat -> Z) (i : nat) : in_grid (cell src i).
Proof.
  unfold in_grid, cell, cellCount; simpl.
  pose proof (Z.mod_pos_bound (src i) 25 ltac:(lia)).
  pose proof (Z.mod_pos_bound (src (S i)) 25 ltac:(lia)).
  lia.
Qed.

Lemma randomCell_eq (w : World) :
  Food.randomCell w = Done (sample w 0, drawn 2 w).
Proof. reflexivity. Qed.

Lemma sample_drawn (w : World) (k : nat) : sample (drawn 2 w) k = sample w (S k).
Proof.
  unfold sample, drawn; simpl. f_equal. lia.
Qed.

Lemma drawn_drawn (n m : nat) (w : World) : drawn n (drawn m w) = drawn (n + m) w.
Proof. unfold drawn; simpl; f_equal; lia. Qed.

Lemma drawn_0 (w : World) : drawn 0 w = w.
Proof. destruct w; reflexivity. Qed.

(** ** The sampling loop *)

Section SamplingLoop.

Variables a b : deque.

Lemma GenRandPos_while_free (fuel : nat) (p : Vector2) (w : World) :
  occupied a b p = false -> Food.GenRandPos_while fuel a b p w = Done (p, w).
Proof.
  intros H; destruct fuel; simpl; fold (occupied a b p); rewrite H; reflexivity.
Qed.

Lemma GenRandPos_while_step (fuel : nat) (p : Vector2) (w : World) :
  occupied a b p = true ->
  Food.GenRandPos_while (S fuel) a b p w =
  Food.GenRandPos_while fuel a b (sample w 0) (drawn 2 w).
Proof.
  intros H; simpl; fold (occupied a b p); rewrite H; reflexivity.
Qed.

Lemma GenRandPos_while_out (p : Vector2) (w : World) :
  occupied a b p = true -> Food.GenRandPos_while 0 a b p w = Spinning.
Proof.
  intros H; simpl; fold (occupied a b p); rewrite H; reflexivity.
Qed.

(** What the loop returns is the position it entered with or one of the
    samples, it is free, and only random numbers were consumed. *)
Lemma GenRandPos_while_sound (fuel : nat) :
  forall p w p' w',
    Food.GenRandPos_while fuel a b p w = Done (p', w') ->
    occupied a b p' = false /\
    (p' = p \/ in_grid p') /\
    exists n, (n <= 2 * fuel)%nat /\ w' = drawn n w.
Proof.
  induction fuel as [|fuel IH]; intros p w p' w' H.
  - destruct (occupied a b p) eqn:O.
    + rewrite GenRandPos_while_out in H by assumption; discriminate.
    + rewrite GenRandPos_while_free in H by assumption; inversion H; subst.
      repeat split; auto. exists 0%nat; split; [lia | now rewrite drawn_0].
  - destruct (occupied a b p) eqn:O.
    + rewrite GenRandPos_while_step in H by assumption.
      apply IH in H as (F & G & n & Hn & ->).
      repeat split; auto.
      * right; destruct G as [-> | G]; [apply cell_in_grid | exact G].
      * exists (n + 2)%nat; split; [lia | now rewrite drawn_drawn].
    + rewrite GenRandPos_while_free in H by assumption; inversion H; subst.
      repeat split; auto. exists 0%nat; split; [lia | now rewrite drawn_0].
Qed.

(** More fuel never changes an answer the loop already gave. *)
Lemma GenRandPos_while_mono (fuel : nat) :
  forall extra p w r,
    Food.GenRandPos_while fuel a b p w = Done r ->
    Food.GenRandPos_while (fuel + extra) a b p w = Done r.
Proof.
  induction fuel as [|fuel IH]; intros extra p w r H.
  - destruct (occupied a b p) eqn:O.
    + rewrite GenRandPos_while_out in H by assumption; discriminate.
    + rewrite GenRandPos_while_free in * by assumption; exact H.
  - destruct (occupied a b p) eqn:O.
    + rewrite GenRandPos_while_step in H by assumption.
      change (S fuel + extra)%nat with (S (fuel + extra)).
      rewrite GenRandPos_while_step by assumption. now apply IH.
    + rewrite GenRandPos_while_free in * by assumption; exact H.
Qed.

(** If the [k]-th sample after entry is free, [S k] rounds are enough. *)
Lemma GenRandPos_while_returns (k : nat) :
  forall p w,
    occupied a b (sample w k) = false ->
    exists r, Food.GenRandPos_while (S k) a b p w = Done r.
Proof.
  induction k as [|k IH]; intros p w F.
  - destruct (occupied a b p) eqn:O.
    + rewrite GenRandPos_while_step by assumption.
      rewrite GenRandPos_while_free by assumption. eauto.
    + rewrite GenRandPos_while_free by assumption. eauto.
  - destruct (occupied a b p) eqn:O.
    + rewrite GenRandPos_while_step by assumption.
      apply IH. now rewrite sample_drawn.
    + rewrite GenRandPos_while_free by assumption. eauto.
Qed.

(** When the loop returns, one of the samples it drew was free. *)
Lemma GenRandPos_while_needs_free (fuel : nat) :
  forall p w r,
    occupied a b p = true ->
    Food.GenRandPos_while fuel a b p w = Done r ->
    exists k, (k < fuel)%nat /\ occupied a b (sample w k) = false.
Proof.
  induction fuel as [|fuel IH]; intros p w r O H.
  - rewrite GenRandPos_while_out in H by assumption; discriminate.
  - rewrite GenRandPos_while_step in H by assumption.
    destruct (occupied a b (sample w 0)) eqn:O0.
    + apply IH in H as (k & Hk & F); [|assumption].
      exists (S k); split; [lia | now rewrite <- sample_drawn].
    + exists 0%nat; split; [lia | assumption].
Qed.

Lemma GenRandPos_while_covered (fuel : nat) :
  covering a b ->
  forall p w, in_grid p -> Food.GenRandPos_while fuel a b p w = Spinning.
Proof.
  intros C; induction fuel as [|fuel IH]; intros p w G.
  - apply GenRandPos_while_out; auto.
  - rewrite GenRandPos_while_step by auto. apply IH, cell_in_grid.
Qed.

Lemma GenRandPos_eq (fuel : nat) (w : World) :
  Food.GenRandPos fuel a b w =
  Food.GenRandPos_while fuel a b (sample w 0) (drawn 2 w).
Proof. reflexivity. Qed.

Lemma GenRandPos_sound (fuel : nat) (w : World) (p : Vector2) (w' : World) :
  Food.GenRandPos fuel a b w = Done (p, w') ->
  in_grid p /\ elementInDeque p a = false /\ elementInDeque p b = false /\
  exists n, w' = drawn n w.
Proof.
  rewrite GenRandPos_eq; intros H.
  apply GenRandPos_while_sound in H as (F & G & n & _ & ->).
  apply occupied_false in F as [Fa Fb].
  split; [|split; [|split]]; auto.
  - destruct G as [-> | G]; [apply cell_in_grid | exact G].
  - exists (n + 2)%nat. now rewrite drawn_drawn.
Qed.

Lemma GenRandPos_mono (fuel fuel' : nat) (w : World) (r : Vector2 * World) :
  (fuel <= fuel')%nat ->
  Food.GenRandPos fuel a b w = Done r -> Food.GenRandPos fuel' a b w = Done r.
Proof.
  intros L; rewrite !GenRandPos_eq; intros H.
  replace fuel' with (fuel + (fuel' - fuel))%nat by lia.
  now apply GenRandPos_while_mono.
Qed.

Lemma GenRandPos_returns (k : nat) (w : World) :
  occupied a b (sample w k) = false ->
  exists r, forall fuel, (k <= fuel)%nat -> Food.GenRandPos fuel a b w = Done r.
Proof.
  intros F.
  assert (exists r, Food.GenRandPos k a b w = Done r) as [r Hr].
  { rewrite GenRandPos_eq. destruct k as [|k].
    - rewrite GenRandPos_while_free by assumption. eauto.
    - apply GenRandPos_while_returns. now rewrite sample_drawn. }
  exists r; intros fuel L. now apply GenRandPos_mono with (fuel := k).
Qed.

Lemma GenRandPos_needs_free (fuel : nat) (w : World) (r : Vector2 * World) :
  Food.GenRandPos fuel a b w = Done r ->
  exists k, (k <= fuel)%nat /\ occupied a b (sample w k) = false.
Proof.
  rewrite GenRandPos_eq; intros H.
  destruct (occupied a b (sample w 0)) eqn:O.
  - apply GenRandPos_while_needs_free in H as (k & Hk & F); [|assumption].
    exists (S k); split; [lia | now rewrite <- sample_drawn].
  - exists 0%nat; split; [lia | assumption].
Qed.

Lemma GenRandPos_covered (fuel : nat) (w : World) :
  covering a b -> Food.GenRandPos fuel a b w = Spinning.
Proof.
  intros C. rewrite GenRandPos_eq.
  apply GenRandPos_while_covered; [assumption | apply cell_in_grid].
Qed.

End SamplingLoop.

Lemma world_of_lively (rs : list Z) (a b : deque) :
  occupied a b (mkV 0 0) = false -> lively a b (fun n => nth n rs 0).
Proof.
  intros F i. exists (length rs). unfold cell.
  rewrite !nth_overflow by lia. exact F.
Qed.

Lemma all_cells_covering (b : deque) : covering all_cells b.
Proof.
  intros [x y] [[Hx0 Hx1] [Hy0 Hy1]]; unfold cellCount in *; simpl in *.
  unfold occupied. apply orb_true_iff; left.
  apply elementInDeque_In. unfold all_cells.
  apply in_flat_map. exists (Z.to_nat x); split.
  - apply in_seq; lia.
  - apply in_map_iff. exists (Z.to_nat y); split.
    + f_equal; lia.
    + apply in_seq; lia.
Qed.

Lemma cell_aiming_at (c : Vector2) (i : nat) :
  in_grid c -> cell (aiming_at c i) i = c.
Proof.
  destruct c as [x y]; intros [Hx Hy]; unfold cellCount in *; simpl in *.
  unfold cell, aiming_at; cbn [vx vy].
  rewrite Nat.eqb_refl.
  destruct (Nat.eqb_spec (S i) i) as [E | _]; [lia|].
  change (cellCount - 1 - 0 + 1) with 25.
  rewrite !Z.mod_small by lia. reflexivity.
Qed.

Lemma removelast_length_cons {A : Type} (x : A) (l : list A) :
  length (removelast (x :: l)) = length l.
Proof.
  revert x; induction l as [|y l IH]; intros x; [reflexivity|].
  change (removelast (x :: y :: l)) with (x :: removelast (y :: l)).
  cbn [length]. now rewrite IH.
Qed.

(** ** Snake::update (claim C2) *)

Lemma Snake_update_facts (s : Snake.t) :
  Snake.body s <> [] ->
  front (Snake.body (Snake.update s)) = head_after s /\
  Snake.body (Snake.update s) <> [] /\
  length (Snake.body (Snake.update s)) =
    (length (Snake.body s) + (if Snake.addSegment s then 1 else 0))%nat /\
  Snake.addSegment (Snake.update s) = false.
Proof.
  destruct s as [[|h r] d a]; [cbn; congruence|]; intros _.
  unfold Snake.update, head_after; cbn [Snake.body Snake.direction Snake.addSegment front hd].
  destruct a; cbn [negb Snake.body Snake.addSegment].
  - repeat split; [discriminate | cbn [length]; lia].
  - change (removelast (Vector2Add h d :: h :: r))
      with (Vector2Add h d :: removelast (h :: r)).
    repeat split; [discriminate|].
    cbn [length]. rewrite removelast_length_cons. lia.
Qed.



(** ** Food::GenRandPos (claims C7 and C10) *)

(** C7.  When some cell of the grid occurs in neither body, whatever position
    [GenRandPos] returns lies inside the grid in both coordinates and occurs
    in neither body; the loop does return, with such a position and for every
    larger number of rounds, as soon as one of the sampled cells occurs in
    neither body; and some output of the random generator makes it return. *)
Theorem GenRandPos_position (a b : deque) (w : World) :
  (exists c, in_grid c /\ ~ In c a /\ ~ In c b) ->
  (forall fuel p w',
      Food.GenRandPos fuel a b w = Done (p, w') ->
      in_grid p /\ ~ In p a /\ ~ In p b) /\
  (forall k,
      ~ In (sample w k) a -> ~ In (sample w k) b ->
      exists p w',
        (forall fuel, (k <= fuel)%nat -> Food.GenRandPos fuel a b w = Done (p, w')) /\
        in_grid p /\ ~ In p a /\ ~ In p b) /\
  (exists src p w',
      Food.GenRandPos 0 a b (mkWorld src (rand_idx w) (clock_src w) (clock_idx w))
      = Done (p, w')).
Proof.
  intros (c & G & Fa & Fb).
  assert (F : occupied a b c = false) by (apply occupied_In; split; assumption).
  assert (Sound : forall fuel p w',
             Food.GenRandPos fuel a b w = Done (p, w') ->
             in_grid p /\ ~ In p a /\ ~ In p b).
  { intros fuel p w' H. apply GenRandPos_sound in H as (Gp & Pa & Pb & _).
    split; [exact Gp|]. apply occupied_In, occupied_false. split; assumption. }
  split; [exact Sound | split].
  - intros k Ka Kb.
    assert (Fk : occupied a b (sample w k) = false)
      by (apply occupied_In; split; assumption).
    destruct (GenRandPos_returns a b k w Fk) as [[p w'] H].
    exists p, w'. split; [exact H|]. exact (Sound k p w' (H k (le_n k))).
  - exists (aiming_at c (rand_idx w)), c.
    eexists. rewrite GenRandPos_eq.
    assert (E : sample (mkWorld (aiming_at c (rand_idx w)) (rand_idx w)
                                (clock_src w) (clock_idx w)) 0 = c).
    { unfold sample; simpl. now apply cell_aiming_at. }
    rewrite E. now apply GenRandPos_while_free.
Qed.

Lemma GenRandPos_position_witness :
  (exists c, in_grid c /\ ~ In c start_body1 /\ ~ In c start_body2) /\
  (Food.GenRandPos 2 start_body1 start_body2 (world_of [5; 9; 19; 9; 12; 9] steady)
   = Done (mkV 12 9, drawn 6 (world_of [5; 9; 19; 9; 12; 9] steady)) /\
   in_grid (mkV 12 9) /\
   ~ In (mkV 12 9) start_body1 /\
   ~ In (mkV 12 9) start_body2).
Proof.
  assert (NC : exists c, in_grid c /\ ~ In c start_body1 /\ ~ In c start_body2).
  { exists (mkV 0 0). split; [unfold in_grid, cellCount; simpl; lia|].
    split; intros H; cbn in H; repeat destruct H as [H | H]; try discriminate H;
      exact H. }
  split; [exact NC|].
  destruct (GenRandPos_position start_body1 start_body2
                                (world_of [5; 9; 19; 9; 12; 9] steady) NC)
    as (S1 & _ & _).
  split; [reflexivity|].
  exact (S1 2%nat (mkV 12 9) (drawn 6 (world_of [5; 9; 19; 9; 12; 9] steady)) eq_refl).
Defined.

(** C10, as the code has it.  The loop of [GenRandPos] returns exactly when
    the random generator delivers a free cell.  When the two bodies jointly
    occupy every cell of the grid the loop never returns, whatever the
    generator does, and no condition is reported: the source has no bound on
    retries and no failure path. *)
Theorem GenRandPos_termination (a b : deque) (w : World) :
  ((exists k, occupied a b (sample w k) = false) <->
   (exists fuel r, Food.GenRandPos fuel a b w = Done r)) /\
  (covering a b -> forall fuel, Food.GenRandPos fuel a b w = Spinning).
Proof.
  split.
  - split.
    + intros [k F]. destruct (GenRandPos_returns a b k w F) as [r H].
      exists k, r. apply H, le_n.
    + intros (fuel & r & H).
      apply GenRandPos_needs_free in H as (k & _ & F). eauto.
  - intros C fuel. now apply GenRandPos_covered.
Qed.

Lemma GenRandPos_termination_witness :
  covering all_cells [] /\
  Food.GenRandPos 1000 all_cells [] (world_of [6; 9; 12; 9] steady) = Spinning.
Proof.
  split; [apply all_cells_covering|].
  apply (proj2 (GenRandPos_termination all_cells [] (world_of [6; 9; 12; 9] steady))).
  apply all_cells_covering.
Defined.

(** C10, as the claim states it, fails: with the grid fully occupied the
    loop spins for every number of rounds, so nothing is ever surfaced. *)
Lemma GenRandPos_full_grid_never_reports :
  covering all_cells [] /\
  ~ (exists fuel, Food.GenRandPos fuel all_cells [] (world_of [6; 9; 12; 9] steady) <> Spinning).
Proof.
  split; [apply all_cells_covering|].
  intros [fuel H]. apply H. apply GenRandPos_covered, all_cells_covering.
Qed.

(** ** Game::checkCollisions and Game::declareWinner (claim C1) *)

Lemma declareWinner_overwrites (w w' : Z) (st : State) :
  GameOps.declareWinner w' (GameOps.declareWinner w st) = GameOps.declareWinner w' st.
Proof. reflexivity. Qed.

Lemma declareWinner_message (w : Z) (st : State) :
  winnerMessage (GameOps.declareWinner w st) = winner_text w.
Proof. reflexivity. Qed.

(** The case analysis over the six tests, one after the other, as
    [checkCollisions] makes them. *)
Ltac collision_cases s1 s2 :=
  cbn -[GameOps.isOutOfBounds GameOps.selfCollision elementInDeque front];
  destruct (GameOps.isOutOfBounds s1);
    cbn -[GameOps.isOutOfBounds GameOps.selfCollision elementInDeque front];
  destruct (GameOps.isOutOfBounds s2);
    cbn -[GameOps.isOutOfBounds GameOps.selfCollision elementInDeque front];
  destruct (GameOps.selfCollision s1);
    cbn -[GameOps.isOutOfBounds GameOps.selfCollision elementInDeque front];
  destruct (GameOps.selfCollision s2);
    cbn -[GameOps.isOutOfBounds GameOps.selfCollision elementInDeque front];
  destruct (elementInDeque (front (Snake.body s1)) (Snake.body s2));
    cbn -[GameOps.isOutOfBounds GameOps.selfCollision elementInDeque front];
  destruct (elementInDeque (front (Snake.body s2)) (Snake.body s1));
    cbn.

(** The tests write nothing of the game but [running]. *)
Lemma checkCollisions_game (st : State) :
  game (GameOps.checkCollisions st) = game st \/
  game (GameOps.checkCollisions st) = set_running false (game st).
Proof.
  destruct st as [[s1 s2 fd pw rn sc1 sc2 sh on off gap] t go am msg].
  unfold GameOps.checkCollisions.
  collision_cases s1 s2; first [left; reflexivity | right; reflexivity].
Qed.

(** C1, as the code has it.  The six tests are all made, in the fixed order,
    on the same post-movement snakes, and every test that matches calls
    [declareWinner]; each call overwrites the message of the one before, so
    the winner recorded is the one of the LAST matching rule.  The game is
    over as soon as any rule matches, and nothing changes when none does. *)
Theorem checkCollisions_last_match (st : State) :
  GameOps.checkCollisions st =
  match last_match (collision_rules (game st)) with
  | Some winner => GameOps.declareWinner winner st
  | None => st
  end /\
  gameOver (GameOps.checkCollisions st) =
  gameOver st || existsb fst (collision_rules (game st)).
Proof.
  destruct st as [[s1 s2 fd pw rn sc1 sc2 sh on off gap] t go am msg].
  unfold GameOps.checkCollisions, last_match, first_match, collision_rules.
  collision_cases s1 s2; split; try reflexivity; destruct go; reflexivity.
Qed.

(** C1, as the claim states it, fails.  Both players turn upwards in the
    first frame and leave the grid through the top edge on the same tick:
    the first matching rule (snake 1 out of bounds) names player 2, the
    message recorded names player 1. *)
Lemma both_leave_first_rule_loses :
  match play 5 [0; 0; 24; 24; 0] steady (pressing [KEY_UP; KEY_W] :: repeat no_keys 10) with
  | Done (st, _) =>
      gameOver st = true /\
      front (Snake.body (snake1 (game st))) = mkV 7 (-1) /\
      front (Snake.body (snake2 (game st))) = mkV 17 (-1) /\
      first_match (collision_rules (game st)) = Some 2 /\
      winnerMessage st = "Player 1 Wins!"%string /\
      ~ first_rule_decides st (GameOps.checkCollisions st)
  | Spinning => False
  end.
Proof.
  vm_compute. repeat split.
  intros H. specialize (H 2 eq_refl). discriminate H.
Qed.

(** ** Key handling in main (claim C6) *)

(** The key block is its eight guarded assignments, one after the other. *)
Lemma handleInput_steers (keys : Key -> bool) (st : State) :
  handleInput keys st
  = if negb (gameOver st) && allowMove st
    then fold_left (fun s ph => steer (keys (key_of (fst ph) (snd ph))) (fst ph)
                                      (guard_of (snd ph)) (vec_of (snd ph)) s)
                   key_order st
    else st.
Proof. reflexivity. Qed.

(** On a snake that has one of the four headings, the test of a guarded
    assignment fails exactly on the opposite of its direction. *)
Lemma steer_request (b : bool) (p : Player) (h : Heading) (st : State) :
  is_heading (Snake.direction (snake_of p (game st))) ->
  steer b p (guard_of h) (vec_of h) st = if b then request p h st else st.
Proof.
  intros [h0 H]. unfold steer, request, guard_of. rewrite H.
  destruct b, h, h0; reflexivity.
Qed.

Lemma request_heading (p q : Player) (h : Heading) (st : State) :
  is_heading (Snake.direction (snake_of q (game st))) ->
  is_heading (Snake.direction (snake_of q (game (request p h st)))).
Proof.
  intros D. unfold request.
  destruct (Vector2Equals (vec_of h) (opposite (Snake.direction (snake_of p (game st)))));
    [exact D|].
  destruct p, q; first [exact D | exists h; reflexivity].
Qed.

Lemma steers_requests (keys : Key -> bool) (l : list (Player * Heading)) :
  forall st,
    is_heading (Snake.direction (snake1 (game st))) ->
    is_heading (Snake.direction (snake2 (game st))) ->
    fold_left (fun s ph => steer (keys (key_of (fst ph) (snd ph))) (fst ph)
                                 (guard_of (snd ph)) (vec_of (snd ph)) s) l st
    = fold_left (fun s ph => if keys (key_of (fst ph) (snd ph))
                             then request (fst ph) (snd ph) s
                             else s) l st.
Proof.
  induction l as [|[p h] l IH]; intros st D1 D2; cbn [fold_left fst snd].
  - reflexivity.
  - rewrite steer_request by (destruct p; assumption).
    destruct (keys (key_of p h)).
    + apply IH; [apply (request_heading p P1) | apply (request_heading p P2)]; assumption.
    + apply IH; assumption.
Qed.

(** C6, as the code has it.  The key block of [main] runs only while the game
    is not over and [allowMove] is set when the frame reaches it; the flag is
    tested once, before the first key.  The block then handles every key that
    is pressed, in the order up, down, right, left for snake 1 and then for
    snake 2, as one request each: a request is dropped exactly when it asks
    for the opposite of the direction the snake has at that moment, which is
    the direction left by the keys handled before it; any other request
    replaces the direction and clears [allowMove], so that the key block of a
    later frame drops everything.  While the game is over or [allowMove] is
    cleared when the frame reaches the block, every request of that frame is
    dropped, whatever its direction. *)
Theorem handleInput_request (keys : Key -> bool) (st : State) :
  is_heading (Snake.direction (snake1 (game st))) ->
  is_heading (Snake.direction (snake2 (game st))) ->
  (gameOver st = false -> allowMove st = true ->
   handleInput keys st = requests keys st /\
   forall p h, handleInput (pressing [key_of p h]) st = request p h st) /\
  (gameOver st = true \/ allowMove st = false -> handleInput keys st = st) /\
  (forall p h,
      let d := Snake.direction (snake_of p (game st)) in
      (vec_of h = opposite d -> request p h st = st) /\
      (vec_of h <> opposite d ->
       request p h st = steered p (vec_of h) st /\
       allowMove (request p h st) = false /\
       forall keys', handleInput keys' (request p h st) = request p h st)).
Proof.
  intros D1 D2. split; [|split].
  - intros G A.
    assert (E : forall ks, handleInput ks st = requests ks st).
    { intros ks. rewrite handleInput_steers, G, A. cbn [negb andb].
      apply steers_requests; assumption. }
    split; [apply E|].
    intros p h. rewrite E. destruct p, h; reflexivity.
  - intros [G | A]; unfold handleInput; [rewrite G | rewrite A].
    + reflexivity.
    + now rewrite andb_false_r.
  - intros p h d. subst d. unfold request.
    destruct (Vector2Equals (vec_of h) (opposite (Snake.direction (snake_of p (game st)))))
      eqn:E.
    + split; [reflexivity|]. intros N. apply Vector2Equals_true in E. contradiction.
    + apply Vector2Equals_false in E. split; [contradiction|]. intros _.
      split; [reflexivity|]. split; [reflexivity|].
      intros keys'. unfold handleInput, steered. cbn [allowMove gameOver].
      now rewrite andb_false_r.
Qed.

Lemma handleInput_request_witness :
  (is_heading (Snake.direction (snake1 (game (freed food_in_front)))) /\
   is_heading (Snake.direction (snake2 (game (freed food_in_front))))) /\
  handleInput (pressing [KEY_UP; KEY_W]) (freed food_in_front)
  = steered P2 dirUp (steered P1 dirUp (freed food_in_front)).
Proof.
  assert (D1 : is_heading (Snake.direction (snake1 (game (freed food_in_front)))))
    by (exists HeadRight; reflexivity).
  assert (D2 : is_heading (Snake.direction (snake2 (game (freed food_in_front)))))
    by (exists HeadLeft; reflexivity).
  split; [split; assumption|].
  destruct (handleInput_request (pressing [KEY_UP; KEY_W]) (freed food_in_front)
                                D1 D2) as [Open _].
  destruct (Open eq_refl eq_refl) as [E _]. rewrite E. reflexivity.
Defined.

(** C6, as the claim states it, fails.  Player 1 turns upwards right after a
    tick; in the next frame, before the next tick, player 2 asks for up while
    heading left.  Up is not the opposite of left, yet the request is
    dropped: [allowMove] was cleared by player 1's turn. *)
Lemma second_request_is_dropped :
  match play 5 [0; 0; 24; 24; 0] (readings [1 # 5; 1 # 5; 1 # 4]%Q) [pressing [KEY_UP]] with
  | Done (st, w) =>
      gameOver st = false /\ allowMove st = false /\
      Snake.direction (snake1 (game st)) = dirUp /\
      Snake.direction (snake2 (game st)) = dirLeft /\
      match frame 5 (pressing [key_of P2 HeadUp]) st w with
      | Done (st', _) =>
          st' = handleInput (pressing [key_of P2 HeadUp]) st /\
          Snake.direction (snake2 (game st')) = dirLeft /\
          vec_of HeadUp <> opposite dirLeft /\
          ~ only_reversal_is_refused P2 HeadUp st st'
      | Spinning => False
      end
  | Spinning => False
  end.
Proof.
  vm_compute. repeat split; try discriminate.
  intros [_ H]. assert (E : mkV (-1) 0 = mkV 0 (-1)) by (apply H; discriminate).
  discriminate E.
Qed.

(** ** The tick, step by step *)

Lemma int_wrap_id (z : Z) : INT_MIN <= z <= INT_MAX -> int_wrap z = z.
Proof.
  unfold int_wrap, INT_MIN, INT_MAX; intros H.
  rewrite Z.mod_small by lia. lia.
Qed.

Lemma returns_ret {A : Type} (a : A) (w : World) :
  returns_with (fun _ => ret a) w (a, w).
Proof. exists 0%nat; intros; reflexivity. Qed.

Lemma returns_bind {A B : Type} (m : nat -> M A) (k : nat -> A -> M B)
      (w : World) (a : A) (w1 : World) (r : B * World) :
  returns_with m w (a, w1) ->
  returns_with (fun fuel => k fuel a) w1 r ->
  returns_with (fun fuel => bind (m fuel) (k fuel)) w r.
Proof.
  intros [n1 H1] [n2 H2]. exists (Nat.max n1 n2); intros fuel L.
  unfold bind. rewrite H1 by lia. apply H2; lia.
Qed.

Lemma returns_GenRandPos (a b : deque) (w : World) :
  lively a b (rand_src w) ->
  exists p n,
    returns_with (fun fuel => Food.GenRandPos fuel a b) w (p, drawn n w) /\
    in_grid p /\ elementInDeque p a = false /\ elementInDeque p b = false.
Proof.
  intros L. destruct (L (rand_idx w)) as [k F]. fold (sample w k) in F.
  destruct (GenRandPos_returns a b k w F) as [[p w'] H].
  pose proof (H k (le_n _)) as Hk.
  apply GenRandPos_sound in Hk as (G & Fa & Fb & n & ->).
  exists p, n. split; [exists k; exact H | auto].
Qed.

Lemma fed_bodies (p : Player) (v : Vector2) (g : Game) :
  Snake.body (snake1 (fed p v g)) = Snake.body (snake1 g) /\
  Snake.body (snake2 (fed p v g)) = Snake.body (snake2 g).
Proof. destruct p; split; reflexivity. Qed.

Lemma food_step_bodies (p : Player) (g g' : Game) :
  food_step p g g' ->
  Snake.body (snake1 g') = Snake.body (snake1 g) /\
  Snake.body (snake2 g') = Snake.body (snake2 g).
Proof.
  intros [(_ & v & _ & _ & _ & ->) | (_ & ->)]; [apply fed_bodies | auto].
Qed.

Lemma checkFoodCollision_returns (p : Player) (g : Game) (w : World) :
  lively (Snake.body (snake1 g)) (Snake.body (snake2 g)) (rand_src w) ->
  exists g' n,
    returns_with (fun fuel => GameOps.checkFoodCollision fuel p g) w (g', drawn n w) /\
    food_step p g g'.
Proof.
  intros L. unfold food_step, GameOps.checkFoodCollision.
  destruct (Vector2Equals (front (Snake.body (snake_of p g))) (food g)) eqn:E.
  - destruct (returns_GenRandPos _ _ w L) as (newPos & n & [n0 R] & G & Fa & Fb).
    exists (fed p newPos g), n. split.
    + exists n0; intros fuel Lf. unfold bind. rewrite (R fuel Lf). reflexivity.
    + left. split; [reflexivity|]. exists newPos. auto.
  - exists g, 0%nat. rewrite drawn_0. split; [apply returns_ret | right; auto].
Qed.

Lemma collect_returns (g0 : Game) (w : World) :
  lively (Snake.body (snake1 g0)) (Snake.body (snake2 g0)) (rand_src w) ->
  exists g1 g2 n,
    food_step P1 g0 g1 /\ food_step P2 g1 g2 /\
    returns_with (fun fuel => collect fuel g0) w
      (GameOps.checkPowerupCollision P2 (GameOps.checkPowerupCollision P1 g2), drawn n w).
Proof.
  intros L.
  destruct (checkFoodCollision_returns P1 g0 w L) as (g1 & n1 & [m1 R1] & S1).
  assert (L1 : lively (Snake.body (snake1 g1)) (Snake.body (snake2 g1))
                      (rand_src (drawn n1 w))).
  { destruct (food_step_bodies _ _ _ S1) as [-> ->]. exact L. }
  destruct (checkFoodCollision_returns P2 g1 (drawn n1 w) L1) as (g2 & n2 & [m2 R2] & S2).
  exists g1, g2, (n2 + n1)%nat. split; [exact S1 | split; [exact S2|]].
  exists (Nat.max m1 m2); intros fuel Lf.
  unfold collect, bind. rewrite R1 by lia. rewrite R2 by lia.
  rewrite drawn_drawn. reflexivity.
Qed.

Lemma togglePowerupOff_hidden (g : Game) (w : World) :
  showPowerup g = false -> GameOps.togglePowerupOff g w = Done (g, w).
Proof. unfold GameOps.togglePowerupOff; intros ->; reflexivity. Qed.

Lemma togglePowerupOff_visible (g : Game) (w : World) :
  showPowerup g = true ->
  GameOps.togglePowerupOff g w =
  Done (if Qle_bool 10 (clock_src w (clock_idx w) - powerupOnTime g)
        then set_powerup sentinel
               (set_showPowerup false (set_powerupOnTime (clock_src w (clock_idx w)) g))
        else set_powerupOnTime (powerupOnTime g) g,
        read w).
Proof.
  unfold GameOps.togglePowerupOff; intros ->.
  unfold bind, eventTriggered, GetTime, bind.
  destruct (Qle_bool 10 (clock_src w (clock_idx w) - powerupOnTime g)); reflexivity.
Qed.

Lemma togglePowerupOff_frame (g : Game) (w : World) :
  exists g' w',
    GameOps.togglePowerupOff g w = Done (g', w') /\
    same_players g g' /\
    rand_src w' = rand_src w /\
    powerupOffTime g' = powerupOffTime g /\
    (showPowerup g = false -> g' = g /\ w' = w).
Proof.
  destruct (showPowerup g) eqn:S.
  - rewrite togglePowerupOff_visible by assumption.
    eexists _, _; split; [reflexivity|].
    destruct (Qle_bool 10 (clock_src w (clock_idx w) - powerupOnTime g));
      repeat split; discriminate.
  - rewrite togglePowerupOff_hidden by assumption.
    exists g, w. repeat split; reflexivity.
Qed.

Lemma togglePowerupOn_returns (g : Game) (w : World) :
  lively (Snake.body (snake1 g)) (Snake.body (snake2 g)) (rand_src w) ->
  exists g' w',
    returns_with (fun fuel => GameOps.togglePowerupOn fuel g) w (g', w') /\
    same_players g g' /\
    (Qle_bool (powerupTimeGap g) (clock_src w (clock_idx w) - powerupOffTime g) = false ->
     showPowerup g' = showPowerup g /\ powerup g' = powerup g) /\
    (showPowerup g = false ->
     Qle_bool (powerupTimeGap g) (clock_src w (clock_idx w) - powerupOffTime g) = true ->
     showPowerup g' = true /\ in_grid (powerup g') /\
     elementInDeque (powerup g') (Snake.body (snake1 g)) = false /\
     elementInDeque (powerup g') (Snake.body (snake2 g)) = false).
Proof.
  intros L. unfold GameOps.togglePowerupOn.
  destruct (showPowerup g) eqn:S; cbn [negb].
  - exists g, w. split; [apply returns_ret|].
    split; [repeat split|]. split; [auto | discriminate].
  - unfold eventTriggered, GetTime.
    destruct (Qle_bool (powerupTimeGap g) (clock_src w (clock_idx w) - powerupOffTime g)) eqn:T.
    + destruct (returns_GenRandPos (Snake.body (snake1 g)) (Snake.body (snake2 g))
                                   (read (read w)) L)
        as (p & n & [n0 R] & G & Fa & Fb).
      eexists _, _. split; [|split; [|split]].
      * exists n0; intros fuel Lf. unfold bind; cbn [clock_src clock_idx rand_src rand_idx].
        rewrite T. unfold ret at 1. cbn [fst snd].
        change (Food.GenRandPos fuel _ _ ?w0) with
          (Food.GenRandPos fuel (Snake.body (snake1 g)) (Snake.body (snake2 g)) w0).
        unfold read in R. rewrite (R fuel Lf). reflexivity.
      * repeat split.
      * discriminate.
      * intros _ _. cbn [showPowerup powerup set_powerup set_powerupOnTime set_showPowerup].
        auto.
    + eexists _, _. split; [|split; [|split]].
      * exists 0%nat; intros fuel _. unfold bind; cbn [clock_src clock_idx].
        rewrite T. reflexivity.
      * repeat split.
      * intros _; cbn. auto.
      * discriminate.
Qed.

Lemma same_players_refl (g : Game) : same_players g g.
Proof. repeat split. Qed.

Lemma same_players_trans (g1 g2 g3 : Game) :
  same_players g1 g2 -> same_players g2 g3 -> same_players g1 g3.
Proof.
  unfold same_players; intros (A1 & A2 & A3 & A4 & A5 & A6) (B1 & B2 & B3 & B4 & B5 & B6).
  repeat split; congruence.
Qed.

Lemma checkPowerupCollision_bodies (p : Player) (g : Game) :
  Snake.body (snake1 (GameOps.checkPowerupCollision p g)) = Snake.body (snake1 g) /\
  Snake.body (snake2 (GameOps.checkPowerupCollision p g)) = Snake.body (snake2 g).
Proof.
  unfold GameOps.checkPowerupCollision.
  destruct (Vector2Equals (front (Snake.body (snake_of p g))) (powerup g));
    destruct p; split; reflexivity.
Qed.

Lemma settle_returns (st : State) (w : World) :
  lively (Snake.body (snake1 (game st))) (Snake.body (snake2 (game st))) (rand_src w) ->
  exists st' w',
    returns_with (fun fuel => settle fuel st) w (st', w') /\
    same_players (game st) (game st') /\
    (showPowerup (game st) = false ->
     Qle_bool (powerupTimeGap (game st))
              (clock_src w (clock_idx w) - powerupOffTime (game st)) = false ->
     showPowerup (game st') = false /\ powerup (game st') = powerup (game st)) /\
    (showPowerup (game st) = false ->
     Qle_bool (powerupTimeGap (game st))
              (clock_src w (clock_idx w) - powerupOffTime (game st)) = true ->
     showPowerup (game st') = true /\ in_grid (powerup (game st')) /\
     elementInDeque (powerup (game st')) (Snake.body (snake1 (game st))) = false /\
     elementInDeque (powerup (game st')) (Snake.body (snake2 (game st))) = false).
Proof.
  intros L. unfold settle.
  set (st5 := GameOps.checkCollisions st).
  assert (Q5 : same_players (game st) (game st5) /\
               showPowerup (game st5) = showPowerup (game st) /\
               powerup (game st5) = powerup (game st) /\
               powerupOffTime (game st5) = powerupOffTime (game st)).
  { destruct (checkCollisions_game st) as [E | E]; subst st5; rewrite E;
      repeat split. }
  destruct Q5 as (P5 & S5 & W5 & O5).
  destruct (togglePowerupOff_frame (game st5) w) as (g6 & w6 & R6 & P6 & Src6 & O6 & K6).
  assert (L6 : lively (Snake.body (snake1 g6)) (Snake.body (snake2 g6)) (rand_src w6)).
  { destruct P5 as (A1 & A2 & _), P6 as (B1 & B2 & _).
    rewrite B1, B2, A1, A2, Src6. exact L. }
  destruct (togglePowerupOn_returns g6 w6 L6) as (g7 & w7 & [n R7] & P7 & K7 & J7).
  exists (set_game g7 st5), w7. split; [|split; [|split]].
  - exists n; intros fuel Lf. unfold bind. rewrite R6. rewrite (R7 fuel Lf). reflexivity.
  - cbn [game set_game].
    eapply same_players_trans; [exact P5|].
    eapply same_players_trans; [exact P6 | exact P7].
  - intros Hid Early. cbn [game set_game].
    rewrite <- S5 in Hid. destruct (K6 Hid) as [-> ->].
    destruct P5 as (_ & _ & _ & _ & _ & G5).
    rewrite G5, O5 in K7. destruct (K7 Early) as [S7 W7].
    rewrite S7, W7. split; [congruence | exact W5].
  - intros Hid Late. cbn [game set_game].
    rewrite <- S5 in Hid. destruct (K6 Hid) as [-> ->].
    destruct P5 as (A1 & A2 & _ & _ & _ & G5).
    rewrite G5, O5, A1, A2 in J7. exact (J7 Hid Late).
Qed.

Lemma update_phases (fuel : nat) (st : State) (w : World) :
  GameOps.update fuel st w =
  (if running (game st)
   then g <- collect fuel (advance (game st)) ;; settle fuel (set_game g st)
   else ret st) w.
Proof.
  unfold GameOps.update, collect, settle.
  destruct (running (game st)); [|reflexivity].
  cbv zeta.
  change (set_snake2
            (Snake.update (snake2 (set_snake1 (Snake.update (snake1 (game st))) (game st))))
            (set_snake1 (Snake.update (snake1 (game st))) (game st)))
    with (advance (game st)).
  generalize (advance (game st)); intros g0.
  unfold bind.
  destruct (GameOps.checkFoodCollision fuel P1 g0 w) as [[g1 w1]|]; [|reflexivity].
  destruct (GameOps.checkFoodCollision fuel P2 g1 w1) as [[g2 w2]|]; [|reflexivity].
  cbv beta iota delta [ret]. reflexivity.
Qed.

(** A tick of a running game returns once both loops have enough rounds; the
    result is described by the two food checks, the two power-up checks and
    the timers. *)
Lemma update_returns (st : State) (w : World) :
  running (game st) = true ->
  lively (Snake.body (snake1 (advance (game st))))
         (Snake.body (snake2 (advance (game st)))) (rand_src w) ->
  exists g1 g2 gc st' w',
    food_step P1 (advance (game st)) g1 /\
    food_step P2 g1 g2 /\
    gc = GameOps.checkPowerupCollision P2 (GameOps.checkPowerupCollision P1 g2) /\
    returns_with (fun fuel => GameOps.update fuel st) w (st', w') /\
    same_players gc (game st') /\
    (showPowerup gc = false ->
     Qle_bool (powerupTimeGap gc) (clock_src w (clock_idx w) - powerupOffTime gc) = false ->
     showPowerup (game st') = false /\ powerup (game st') = powerup gc) /\
    (showPowerup gc = false ->
     Qle_bool (powerupTimeGap gc) (clock_src w (clock_idx w) - powerupOffTime gc) = true ->
     showPowerup (game st') = true /\ in_grid (powerup (game st')) /\
     elementInDeque (powerup (game st')) (Snake.body (snake1 gc)) = false /\
     elementInDeque (powerup (game st')) (Snake.body (snake2 gc)) = false).
Proof.
  intros Run L.
  destruct (collect_returns (advance (game st)) w L) as (g1 & g2 & n & S1 & S2 & [m1 R1]).
  set (gc := GameOps.checkPowerupCollision P2 (GameOps.checkPowerupCollision P1 g2)) in *.
  assert (Lc : lively (Snake.body (snake1 (game (set_game gc st))))
                      (Snake.body (snake2 (game (set_game gc st))))
                      (rand_src (drawn n w))).
  { cbn [game set_game]. subst gc.
    destruct (checkPowerupCollision_bodies P2 (GameOps.checkPowerupCollision P1 g2)) as [-> ->].
    destruct (checkPowerupCollision_bodies P1 g2) as [-> ->].
    destruct (food_step_bodies _ _ _ S2) as [-> ->].
    destruct (food_step_bodies _ _ _ S1) as [-> ->]. exact L. }
  destruct (settle_returns (set_game gc st) (drawn n w) Lc)
    as (st' & w' & [m2 R2] & P & K & J).
  exists g1, g2, gc, st', w'.
  split; [exact S1 | split; [exact S2 | split; [reflexivity | split; [|split; [|split]]]]].
  - exists (Nat.max m1 m2); intros fuel Lf.
    rewrite update_phases, Run. unfold bind. rewrite R1 by lia. apply R2; lia.
  - exact P.
  - exact K.
  - exact J.
Qed.

(** The food checks and the power-up checks of one tick, for the snake whose
    head stands on the food. *)
Lemma collected_food (p : Player) (g0 g1 g2 : Game) :
  Snake.body (snake1 g0) <> [] -> Snake.body (snake2 g0) <> [] ->
  front (Snake.body (snake_of p g0)) = food g0 ->
  in_grid (food g0) ->
  (p = P2 -> front (Snake.body (snake1 g0)) <> food g0) ->
  food_step P1 g0 g1 -> food_step P2 g1 g2 ->
  let gc := GameOps.checkPowerupCollision P2 (GameOps.checkPowerupCollision P1 g2) in
  score_of p gc =
    (if Vector2Equals (powerup g0) (food g0)
     then int_wrap (int_wrap (score_of p g0 + 1) + 5)
     else int_wrap (score_of p g0 + 1)) /\
  Snake.addSegment (snake_of p gc) = true /\
  in_grid (food gc) /\
  elementInDeque (food gc) (Snake.body (snake1 g0)) = false /\
  elementInDeque (food gc) (Snake.body (snake2 g0)) = false /\
  Snake.body (snake1 gc) = Snake.body (snake1 g0) /\
  Snake.body (snake2 gc) = Snake.body (snake2 g0).
Proof.
  intros N1 N2 Hd G Other S1 S2.
  destruct g0 as [[b1 d1 a1] [b2 d2 a2] fd pw rn sc1 sc2 sh on off gap].
  cbn [snake1 snake2 Snake.body food powerup] in *.
  destruct p; cbn [snake_of score_of snake1 snake2 Snake.body] in Hd |- *.
  - clear Other. unfold food_step in S1. cbn [snake_of snake1 snake2 Snake.body food] in S1.
    rewrite Hd, Vector2Equals_refl in S1.
    destruct S1 as [(_ & v & Gv & Fa & Fb & ->) | (E & _)]; [|discriminate E].
    unfold food_step in S2. cbn in S2.
    rewrite (front_not_free v b2 N2 Fb) in S2.
    destruct S2 as [(E & _) | (_ & ->)]; [discriminate E|].
    subst fd. rewrite (Vector2Equals_sym pw (front b1)).
    unfold GameOps.checkPowerupCollision.
    cbn -[int_wrap Vector2Equals elementInDeque front in_grid].
    destruct (Vector2Equals (front b1) pw) eqn:E1;
      cbn -[int_wrap Vector2Equals elementInDeque front in_grid].
    + destruct (Vector2Equals (front b2) sentinel);
        cbn -[int_wrap Vector2Equals elementInDeque front in_grid]; auto 10.
    + destruct (Vector2Equals (front b2) pw);
        cbn -[int_wrap Vector2Equals elementInDeque front in_grid]; auto 10.
  - specialize (Other eq_refl).
    unfold food_step in S1. cbn [snake_of snake1 snake2 Snake.body food] in S1.
    apply Vector2Equals_false in Other. rewrite Other in S1.
    destruct S1 as [(E & _) | (_ & ->)]; [discriminate E|].
    unfold food_step in S2. cbn [snake_of snake1 snake2 Snake.body food] in S2.
    rewrite Hd, Vector2Equals_refl in S2.
    destruct S2 as [(_ & v & Gv & Fa & Fb & ->) | (E & _)]; [|discriminate E].
    subst fd. rewrite (Vector2Equals_sym pw (front b2)).
    unfold GameOps.checkPowerupCollision.
    cbn -[int_wrap Vector2Equals elementInDeque front in_grid].
    destruct (Vector2Equals (front b1) pw) eqn:E1;
      cbn -[int_wrap Vector2Equals elementInDeque front in_grid].
    + rewrite (sentinel_not_in_grid _ G).
      assert (E2 : Vector2Equals (front b2) pw = false).
      { apply Vector2Equals_false. apply Vector2Equals_true in E1.
        apply Vector2Equals_false in Other. congruence. }
      rewrite E2. cbn -[int_wrap Vector2Equals elementInDeque front in_grid]. auto 10.
    + destruct (Vector2Equals (front b2) pw);
        cbn -[int_wrap Vector2Equals elementInDeque front in_grid]; auto 10.
Qed.

(** The same two steps for the snake whose head stands on the power-up. *)
Lemma collected_powerup (p : Player) (g0 g1 g2 : Game) :
  Snake.body (snake1 g0) <> [] -> Snake.body (snake2 g0) <> [] ->
  front (Snake.body (snake_of p g0)) = powerup g0 ->
  (p = P2 -> front (Snake.body (snake1 g0)) <> powerup g0) ->
  food_step P1 g0 g1 -> food_step P2 g1 g2 ->
  let gc := GameOps.checkPowerupCollision P2 (GameOps.checkPowerupCollision P1 g2) in
  score_of p gc =
    (if Vector2Equals (powerup g0) (food g0)
     then int_wrap (int_wrap (score_of p g0 + 1) + 5)
     else int_wrap (score_of p g0 + 5)) /\
  Snake.addSegment (snake_of p gc) = true /\
  powerup gc = sentinel /\
  showPowerup gc = false /\
  powerupOffTime gc = powerupOffTime g0 /\
  powerupTimeGap gc = powerupTimeGap g0.
Proof.
  intros N1 N2 Hd Other S1 S2.
  destruct g0 as [[b1 d1 a1] [b2 d2 a2] fd pw rn sc1 sc2 sh on off gap].
  cbn [snake1 snake2 Snake.body food powerup powerupOffTime powerupTimeGap] in *.
  destruct p; cbn [snake_of score_of snake1 snake2 Snake.body] in Hd |- *.
  - clear Other. subst pw.
    unfold food_step in S1. cbn [snake_of snake1 snake2 Snake.body food] in S1.
    destruct S1 as [(E & v & Gv & Fa & Fb & ->) | (E & ->)].
    + unfold food_step in S2. cbn in S2.
      rewrite (front_not_free v b2 N2 Fb) in S2.
      destruct S2 as [(E2 & _) | (_ & ->)]; [discriminate E2|].
      rewrite E. unfold GameOps.checkPowerupCollision.
      cbn -[int_wrap Vector2Equals elementInDeque front in_grid].
      rewrite Vector2Equals_refl.
      cbn -[int_wrap Vector2Equals elementInDeque front in_grid].
      destruct (Vector2Equals (front b2) sentinel);
        cbn -[int_wrap Vector2Equals elementInDeque front in_grid]; auto 10.
    + rewrite E.
      unfold food_step in S2. cbn [snake_of snake1 snake2 Snake.body food] in S2.
      destruct S2 as [(_ & v & _ & _ & _ & ->) | (_ & ->)];
        unfold GameOps.checkPowerupCollision;
        cbn -[int_wrap Vector2Equals elementInDeque front in_grid];
        rewrite Vector2Equals_refl;
        cbn -[int_wrap Vector2Equals elementInDeque front in_grid];
        destruct (Vector2Equals (front b2) sentinel);
        cbn -[int_wrap Vector2Equals elementInDeque front in_grid]; auto 10.
  - specialize (Other eq_refl). subst pw.
    apply Vector2Equals_false in Other.
    unfold food_step in S1. cbn [snake_of snake1 snake2 Snake.body food] in S1.
    destruct S1 as [(E & v & Gv & Fa & Fb & ->) | (E & ->)].
    + unfold food_step in S2. cbn in S2.
      rewrite (front_not_free v b2 N2 Fb) in S2.
      destruct S2 as [(E2 & _) | (_ & ->)]; [discriminate E2|].
      assert (D : Vector2Equals (front b2) fd = false).
      { apply Vector2Equals_false. apply Vector2Equals_true in E.
        apply Vector2Equals_false in Other. congruence. }
      rewrite D. unfold GameOps.checkPowerupCollision.
      cbn -[int_wrap Vector2Equals elementInDeque front in_grid].
      rewrite Other.
      cbn -[int_wrap Vector2Equals elementInDeque front in_grid].
      rewrite Vector2Equals_refl.
      cbn -[int_wrap Vector2Equals elementInDeque front in_grid]. auto 10.
    + unfold food_step in S2. cbn [snake_of snake1 snake2 Snake.body food] in S2.
      destruct S2 as [(E2 & v & _ & _ & _ & ->) | (E2 & ->)]; rewrite E2;
        unfold GameOps.checkPowerupCollision;
        cbn -[int_wrap Vector2Equals elementInDeque front in_grid];
        rewrite Other;
        cbn -[int_wrap Vector2Equals elementInDeque front in_grid];
        rewrite Vector2Equals_refl;
        cbn -[int_wrap Vector2Equals elementInDeque front in_grid]; auto 10.
Qed.

(** ** Eating the food (claim C3) *)

(** C3, as the code has it.  In a running game whose food lies one cell ahead
    of a snake's head (for snake 2: provided snake 1 does not reach the food
    on the same tick, since snake 1 is served first), one tick adds exactly 1
    to that snake's score (and the power-up's 5 as well when the power-up
    lies on the same cell), and leaves growth pending on that snake.  The body
    does not grow in that tick: its length changes only by a growth that was
    already pending, and the segment earned now is added by the snake's next
    advance.  The food moves to a cell of the grid that is on neither body. *)
Theorem update_eats_food (st : State) (w : World) (p : Player) :
  running (game st) = true ->
  Snake.body (snake1 (game st)) <> [] ->
  Snake.body (snake2 (game st)) <> [] ->
  food_ahead p (game st) ->
  in_grid (food (game st)) ->
  (p = P2 -> head_after (snake1 (game st)) <> food (game st)) ->
  INT_MIN <= score_of p (game st) ->
  score_of p (game st) + 6 <= INT_MAX ->
  lively (Snake.body (snake1 (advance (game st))))
         (Snake.body (snake2 (advance (game st)))) (rand_src w) ->
  exists st' w',
    returns_with (fun fuel => GameOps.update fuel st) w (st', w') /\
    score_of p (game st') =
      score_of p (game st) + 1 +
      (if Vector2Equals (powerup (game st)) (food (game st)) then 5 else 0) /\
    Snake.addSegment (snake_of p (game st')) = true /\
    length (Snake.body (snake_of p (game st'))) =
      (length (Snake.body (snake_of p (game st)))
       + (if Snake.addSegment (snake_of p (game st)) then 1 else 0))%nat /\
    length (Snake.body (Snake.update (snake_of p (game st')))) =
      S (length (Snake.body (snake_of p (game st')))) /\
    in_grid (food (game st')) /\
    elementInDeque (food (game st')) (Snake.body (snake1 (game st'))) = false /\
    elementInDeque (food (game st')) (Snake.body (snake2 (game st'))) = false.
Proof.
  intros Run N1 N2 Ahead G Other Lo Hi L.
  destruct (Snake_update_facts _ N1) as (F1 & M1 & Len1 & _).
  destruct (Snake_update_facts _ N2) as (F2 & M2 & Len2 & _).
  destruct (update_returns st w Run L)
    as (g1 & g2 & gc & st' & w' & S1 & S2 & -> & R & P & _).
  assert (Hd : front (Snake.body (snake_of p (advance (game st)))) = food (advance (game st))).
  { unfold food_ahead in Ahead. destruct p; cbn [snake_of] in *; symmetry.
    - rewrite <- F1 in Ahead. exact Ahead.
    - rewrite <- F2 in Ahead. exact Ahead. }
  assert (Oth : p = P2 ->
                front (Snake.body (snake1 (advance (game st)))) <> food (advance (game st))).
  { intros E. specialize (Other E). rewrite <- F1 in Other. exact Other. }
  destruct (collected_food p (advance (game st)) g1 g2 M1 M2 Hd G Oth S1 S2)
    as (Sc & Gr & Gf & Fa & Fb & B1 & B2).
  destruct P as (P1' & P2' & Pf & Ps1 & Ps2 & _).
  exists st', w'. split; [exact R|].
  set (gc := GameOps.checkPowerupCollision P2 (GameOps.checkPowerupCollision P1 g2)) in *.
  assert (Sp : snake_of p (game st') = snake_of p gc) by (destruct p; assumption).
  assert (Scp : score_of p (game st') = score_of p gc) by (destruct p; assumption).
  change (powerup (advance (game st))) with (powerup (game st)) in Sc.
  change (food (advance (game st))) with (food (game st)) in Sc.
  change (score_of p (advance (game st))) with (score_of p (game st)) in Sc.
  assert (Bp : Snake.body (snake_of p gc) = Snake.body (Snake.update (snake_of p (game st)))).
  { destruct p; cbn [snake_of]; [exact B1 | exact B2]. }
  assert (Lp : length (Snake.body (snake_of p (game st'))) =
               (length (Snake.body (snake_of p (game st)))
                + (if Snake.addSegment (snake_of p (game st)) then 1 else 0))%nat).
  { rewrite Sp, Bp. destruct p; cbn [snake_of]; assumption. }
  assert (Np : Snake.body (snake_of p (game st')) <> []).
  { rewrite Sp, Bp. destruct p; cbn [snake_of]; assumption. }
  split; [|split; [|split; [|split; [|split; [|split]]]]].
  - rewrite Scp, Sc. unfold INT_MIN, INT_MAX in *.
    destruct (Vector2Equals (powerup (game st)) (food (game st)));
      rewrite !int_wrap_id; unfold INT_MIN, INT_MAX; try lia;
      rewrite !int_wrap_id; unfold INT_MIN, INT_MAX; lia.
  - rewrite Sp. exact Gr.
  - exact Lp.
  - destruct (Snake_update_facts _ Np) as (_ & _ & Len & _).
    rewrite Len. rewrite Sp at 2. rewrite Gr. lia.
  - rewrite Pf. exact Gf.
  - rewrite Pf, P1', B1. exact Fa.
  - rewrite Pf, P2', B2. exact Fb.
Qed.

Lemma update_eats_food_witness :
  (running (game food_in_front) = true /\
   Snake.body (snake1 (game food_in_front)) <> [] /\
   Snake.body (snake2 (game food_in_front)) <> [] /\
   food_ahead P1 (game food_in_front) /\
   in_grid (food (game food_in_front)) /\
   lively (Snake.body (snake1 (advance (game food_in_front))))
          (Snake.body (snake2 (advance (game food_in_front)))) (rand_src calm_world)) /\
  exists st' w',
    returns_with (fun fuel => GameOps.update fuel food_in_front) calm_world (st', w') /\
    score1 (game st') = 1 /\
    Snake.addSegment (snake1 (game st')) = true /\
    length (Snake.body (snake1 (game st'))) = 3%nat.
Proof.
  assert (Run : running (game food_in_front) = true) by reflexivity.
  assert (N1 : Snake.body (snake1 (game food_in_front)) <> []) by discriminate.
  assert (N2 : Snake.body (snake2 (game food_in_front)) <> []) by discriminate.
  assert (Ahead : food_ahead P1 (game food_in_front)) by reflexivity.
  assert (G : in_grid (food (game food_in_front)))
    by (unfold in_grid, cellCount; cbn; lia).
  assert (Other : P1 = P2 ->
                  head_after (snake1 (game food_in_front)) <> food (game food_in_front))
    by (intros E; discriminate E).
  assert (Lo : INT_MIN <= score_of P1 (game food_in_front))
    by (unfold INT_MIN; cbn; lia).
  assert (Hi : score_of P1 (game food_in_front) + 6 <= INT_MAX)
    by (unfold INT_MAX; cbn; lia).
  assert (L : lively (Snake.body (snake1 (advance (game food_in_front))))
                     (Snake.body (snake2 (advance (game food_in_front))))
                     (rand_src calm_world))
    by (apply world_of_lively; reflexivity).
  split; [auto 10|].
  destruct (update_eats_food food_in_front calm_world P1 Run N1 N2 Ahead G Other Lo Hi L)
    as (st' & w' & R & Sc & Gr & Len & _).
  exists st', w'. split; [exact R|]. split; [exact Sc|]. split; [exact Gr | exact Len].
Defined.

(** C3, as the claim states it, fails.  With the food at (7,9), one step
    ahead of snake 1, the first tick gives snake 1 its point but leaves its
    body at three segments.  With a visible power-up on the same cell the
    score rises by 6.  And with the food at (12,9), where both heads arrive
    on the sixth tick, snake 2 had the food one step ahead and receives
    nothing. *)
Lemma food_eaten_body_not_grown :
  match GameOps.update 5 food_in_front calm_world with
  | Done (st', _) =>
      running (game food_in_front) = true /\
      food_ahead P1 (game food_in_front) /\
      score1 (game st') = 1 /\
      length (Snake.body (snake1 (game food_in_front))) = 3%nat /\
      length (Snake.body (snake1 (game st'))) = 3%nat /\
      ~ grows_within_the_tick P1 food_in_front st'
  | Spinning => False
  end /\
  match GameOps.update 5 (opening (mkV 7 9) (mkV 7 9) true) calm_world with
  | Done (st', _) => score1 (game st') = 6
  | Spinning => False
  end /\
  match play 5 [12; 9; 24; 24; 0; 3; 3] steady (repeat no_keys 5) with
  | Done (st, w) =>
      running (game st) = true /\ food_ahead P2 (game st) /\
      match GameOps.update 5 st w with
      | Done (st', _) =>
          score2 (game st') = 0 /\ score1 (game st') = 1 /\
          ~ grows_within_the_tick P2 st st'
      | Spinning => False
      end
  | Spinning => False
  end.
Proof.
  vm_compute. repeat split; try (intros (H & _); discriminate H).
  intros (_ & H & _); discriminate H.
Qed.

(** ** Eating the power-up (claim C8) *)

(** C8, as the code has it.  In a running game whose power-up lies one cell
    ahead of a snake's head (for snake 2: provided snake 1 does not reach the
    power-up on the same tick, since snake 1 is checked first and moves the
    power-up to the sentinel), one tick leaves growth pending on that snake
    and adds exactly 5 to its score (and the food's 1 as well when the food
    lies on the same cell).  The power-up is moved to the sentinel and
    hidden, and it ends the tick so unless the reappearance interval has
    already elapsed at the clock reading of that tick; in that case the timer
    step of the same tick shows it again, on a cell of the grid that is on
    neither snake. *)
Theorem update_eats_powerup (st : State) (w : World) (p : Player) :
  running (game st) = true ->
  Snake.body (snake1 (game st)) <> [] ->
  Snake.body (snake2 (game st)) <> [] ->
  powerup_ahead p (game st) ->
  (p = P2 -> head_after (snake1 (game st)) <> powerup (game st)) ->
  INT_MIN <= score_of p (game st) ->
  score_of p (game st) + 6 <= INT_MAX ->
  lively (Snake.body (snake1 (advance (game st))))
         (Snake.body (snake2 (advance (game st)))) (rand_src w) ->
  exists st' w',
    returns_with (fun fuel => GameOps.update fuel st) w (st', w') /\
    score_of p (game st') =
      score_of p (game st) + 5 +
      (if Vector2Equals (powerup (game st)) (food (game st)) then 1 else 0) /\
    Snake.addSegment (snake_of p (game st')) = true /\
    (~ (powerupTimeGap (game st) <= clock_src w (clock_idx w) - powerupOffTime (game st))%Q ->
     showPowerup (game st') = false /\ powerup (game st') = sentinel) /\
    ((powerupTimeGap (game st) <= clock_src w (clock_idx w) - powerupOffTime (game st))%Q ->
     showPowerup (game st') = true /\ in_grid (powerup (game st')) /\
     elementInDeque (powerup (game st')) (Snake.body (snake1 (game st'))) = false /\
     elementInDeque (powerup (game st')) (Snake.body (snake2 (game st'))) = false).
Proof.
  intros Run N1 N2 Ahead Other Lo Hi L.
  destruct (Snake_update_facts _ N1) as (F1 & M1 & _).
  destruct (Snake_update_facts _ N2) as (F2 & M2 & _).
  destruct (update_returns st w Run L)
    as (g1 & g2 & gc & st' & w' & S1 & S2 & -> & R & P & K & J).
  assert (Hd : front (Snake.body (snake_of p (advance (game st))))
               = powerup (advance (game st))).
  { unfold powerup_ahead in Ahead. destruct p; cbn [snake_of] in *; symmetry.
    - rewrite <- F1 in Ahead. exact Ahead.
    - rewrite <- F2 in Ahead. exact Ahead. }
  assert (Oth : p = P2 ->
                front (Snake.body (snake1 (advance (game st)))) <> powerup (advance (game st))).
  { intros E. specialize (Other E). rewrite <- F1 in Other. exact Other. }
  destruct (collected_powerup p (advance (game st)) g1 g2 M1 M2 Hd Oth S1 S2)
    as (Sc & Gr & Pw & Sh & Off & Gap).
  set (gc := GameOps.checkPowerupCollision P2 (GameOps.checkPowerupCollision P1 g2)) in *.
  destruct P as (P1' & P2' & _ & Ps1 & Ps2 & _).
  assert (Sp : snake_of p (game st') = snake_of p gc) by (destruct p; assumption).
  assert (Scp : score_of p (game st') = score_of p gc) by (destruct p; assumption).
  change (powerup (advance (game st))) with (powerup (game st)) in Sc.
  change (food (advance (game st))) with (food (game st)) in Sc.
  change (score_of p (advance (game st))) with (score_of p (game st)) in Sc.
  change (powerupOffTime (advance (game st))) with (powerupOffTime (game st)) in Off.
  change (powerupTimeGap (advance (game st))) with (powerupTimeGap (game st)) in Gap.
  exists st', w'. split; [exact R|]. split; [|split; [|split]].
  - rewrite Scp, Sc. unfold INT_MIN, INT_MAX in *.
    destruct (Vector2Equals (powerup (game st)) (food (game st)));
      rewrite !int_wrap_id; unfold INT_MIN, INT_MAX; try lia;
      rewrite !int_wrap_id; unfold INT_MIN, INT_MAX; lia.
  - rewrite Sp. exact Gr.
  - intros Early. rewrite Gap, Off in K.
    destruct (Qle_bool (powerupTimeGap (game st))
                       (clock_src w (clock_idx w) - powerupOffTime (game st))) eqn:E.
    + apply Qle_bool_iff in E. contradiction.
    + destruct (K Sh eq_refl) as [A B]. split; [exact A | now rewrite B].
  - intros Late. rewrite Gap, Off in J. apply Qle_bool_iff in Late.
    rewrite P1', P2'. exact (J Sh Late).
Qed.

Lemma update_eats_powerup_witness :
  (running (game powerup_in_front) = true /\
   Snake.body (snake1 (game powerup_in_front)) <> [] /\
   Snake.body (snake2 (game powerup_in_front)) <> [] /\
   powerup_ahead P1 (game powerup_in_front) /\
   lively (Snake.body (snake1 (advance (game powerup_in_front))))
          (Snake.body (snake2 (advance (game powerup_in_front)))) (rand_src calm_world) /\
   ~ (powerupTimeGap (game powerup_in_front)
      <= clock_src calm_world (clock_idx calm_world)
         - powerupOffTime (game powerup_in_front))%Q) /\
  exists st' w',
    returns_with (fun fuel => GameOps.update fuel powerup_in_front) calm_world (st', w') /\
    score1 (game st') = 5 /\
    Snake.addSegment (snake1 (game st')) = true /\
    showPowerup (game st') = false /\ powerup (game st') = sentinel.
Proof.
  assert (Run : running (game powerup_in_front) = true) by reflexivity.
  assert (N1 : Snake.body (snake1 (game powerup_in_front)) <> []) by discriminate.
  assert (N2 : Snake.body (snake2 (game powerup_in_front)) <> []) by discriminate.
  assert (Ahead : powerup_ahead P1 (game powerup_in_front)) by reflexivity.
  assert (Other : P1 = P2 ->
                  head_after (snake1 (game powerup_in_front))
                  <> powerup (game powerup_in_front))
    by (intros E; discriminate E).
  assert (Lo : INT_MIN <= score_of P1 (game powerup_in_front))
    by (unfold INT_MIN; cbn; lia).
  assert (Hi : score_of P1 (game powerup_in_front) + 6 <= INT_MAX)
    by (unfold INT_MAX; cbn; lia).
  assert (L : lively (Snake.body (snake1 (advance (game powerup_in_front))))
                     (Snake.body (snake2 (advance (game powerup_in_front))))
                     (rand_src calm_world))
    by (apply world_of_lively; reflexivity).
  assert (Early : ~ (powerupTimeGap (game powerup_in_front)
                     <= clock_src calm_world (clock_idx calm_world)
                        - powerupOffTime (game powerup_in_front))%Q)
    by (intros H; vm_compute in H; apply H; reflexivity).
  split; [auto 10|].
  destruct (update_eats_powerup powerup_in_front calm_world P1 Run N1 N2 Ahead Other Lo Hi L)
    as (st' & w' & R & Sc & Gr & T & _).
  destruct (T Early) as [Sh Pw].
  exists st', w'. split; [exact R|]. split; [exact Sc|]. split; [exact Gr|].
  split; [exact Sh | exact Pw].
Defined.

(** C8, as the claim states it, fails.  The power-up lies at (12,9), where
    both heads arrive on the sixth tick of a game nobody steers: snake 2 had
    the power-up one step ahead, but snake 1 is checked first and takes it,
    and snake 2 receives neither points nor growth.  The same happens from
    the position [face_to_face], where the power-up at (12,9) is visible. *)
Lemma second_snake_misses_powerup :
  match play 5 [0; 0; 12; 9; 0] steady (repeat no_keys 5) with
  | Done (st, w) =>
      running (game st) = true /\ powerup_ahead P2 (game st) /\
      match GameOps.update 5 st w with
      | Done (st', _) =>
          score1 (game st') = 5 /\ score2 (game st') = 0 /\
          Snake.addSegment (snake2 (game st')) = false /\
          ~ takes_powerup P2 st st'
      | Spinning => False
      end
  | Spinning => False
  end /\
  match GameOps.update 5 face_to_face (world_of [] (readings [86 # 5; 86 # 5]%Q)) with
  | Done (st', _) =>
      running (game face_to_face) = true /\
      showPowerup (game face_to_face) = true /\
      powerup_ahead P2 (game face_to_face) /\
      score1 (game st') = 5 /\ score2 (game st') = 0 /\
      Snake.addSegment (snake2 (game st')) = false /\
      ~ takes_powerup P2 face_to_face st'
  | Spinning => False
  end.
Proof.
  vm_compute. repeat split; intros (H & _); discriminate H.
Qed.

(** ** A tick that returned, taken apart *)

Lemma ret_Done {A : Type} (a b : A) (w w' : World) :
  ret a w = Done (b, w') -> b = a /\ w' = w.
Proof. unfold ret; intros H; injection H as <- <-; auto. Qed.

Lemma collect_inv (fuel : nat) (g : Game) (w : World) (gc : Game) (w' : World) :
  collect fuel g w = Done (gc, w') ->
  exists g1 u1 g2,
    GameOps.checkFoodCollision fuel P1 g w = Done (g1, u1) /\
    GameOps.checkFoodCollision fuel P2 g1 u1 = Done (g2, w') /\
    gc = GameOps.checkPowerupCollision P2 (GameOps.checkPowerupCollision P1 g2).
Proof.
  unfold collect; intros H.
  apply bind_Done in H as (g1 & u1 & C1 & H).
  apply bind_Done in H as (g2 & u2 & C2 & H).
  apply ret_Done in H as [-> ->]. eauto 6.
Qed.

Lemma settle_inv (fuel : nat) (st : State) (w : World) (st' : State) (w' : World) :
  settle fuel st w = Done (st', w') ->
  exists g6 w6 g7,
    GameOps.togglePowerupOff (game (GameOps.checkCollisions st)) w = Done (g6, w6) /\
    GameOps.togglePowerupOn fuel g6 w6 = Done (g7, w') /\
    st' = set_game g7 (GameOps.checkCollisions st).
Proof.
  unfold settle; intros H.
  apply bind_Done in H as (g6 & w6 & T6 & H).
  apply bind_Done in H as (g7 & w7 & T7 & H).
  apply ret_Done in H as [-> ->]. eauto 6.
Qed.

Lemma update_inv (fuel : nat) (st : State) (w : World) (st' : State) (w' : World) :
  GameOps.update fuel st w = Done (st', w') ->
  (running (game st) = false /\ st' = st /\ w' = w) \/
  (running (game st) = true /\
   exists gc w1,
     collect fuel (advance (game st)) w = Done (gc, w1) /\
     settle fuel (set_game gc st) w1 = Done (st', w')).
Proof.
  rewrite update_phases. destruct (running (game st)).
  - intros H. apply bind_Done in H as (gc & w1 & C & S). right; eauto.
  - intros H. apply ret_Done in H as [-> ->]. left; auto.
Qed.

(** ** The power-up timers (claim C5) *)

Lemma togglePowerupOn_inv (fuel : nat) (g : Game) (w : World) (g' : Game) (w' : World) :
  GameOps.togglePowerupOn fuel g w = Done (g', w') ->
  (showPowerup g = true /\ g' = g /\ w' = w) \/
  (showPowerup g = false /\
   Qle_bool (powerupTimeGap g) (clock_src w (clock_idx w) - powerupOffTime g) = false /\
   g' = set_powerupOffTime (powerupOffTime g) g /\ w' = read w) \/
  (showPowerup g = false /\
   Qle_bool (powerupTimeGap g) (clock_src w (clock_idx w) - powerupOffTime g) = true /\
   exists p,
     Food.GenRandPos fuel (Snake.body (snake1 g)) (Snake.body (snake2 g)) (read (read w))
     = Done (p, w') /\
     g' = set_powerup p
            (set_powerupOnTime (clock_src w (S (clock_idx w)))
               (set_showPowerup true
                  (set_powerupOffTime (clock_src w (clock_idx w)) g)))).
Proof.
  unfold GameOps.togglePowerupOn.
  destruct (showPowerup g) eqn:S; cbn [negb].
  - intros H; inversion H; auto.
  - unfold eventTriggered, GetTime, bind; cbn [clock_src clock_idx].
    destruct (Qle_bool (powerupTimeGap g) (clock_src w (clock_idx w) - powerupOffTime g)) eqn:T.
    + unfold ret at 1; cbn [fst snd].
      change (Food.GenRandPos fuel _ _ ?w0) with
        (Food.GenRandPos fuel (Snake.body (snake1 g)) (Snake.body (snake2 g)) w0).
      fold (read w). fold (read (read w)).
      destruct (Food.GenRandPos fuel (Snake.body (snake1 g)) (Snake.body (snake2 g))
                                (read (read w))) as [[p w1]|] eqn:R; [|discriminate].
      intros H; inversion H; subst. right; right. repeat split. exists p. auto.
    + intros H; inversion H; subst. right; left. auto.
Qed.

Lemma checkFoodCollision_gap (fuel : nat) (p : Player) (g : Game) (w : World)
      (g' : Game) (w' : World) :
  GameOps.checkFoodCollision fuel p g w = Done (g', w') ->
  powerupTimeGap g' = powerupTimeGap g.
Proof.
  unfold GameOps.checkFoodCollision.
  destruct (Vector2Equals (front (Snake.body (snake_of p g))) (food g)).
  - intros H. apply bind_Done in H as (v & w1 & _ & H).
    inversion H; subst. destruct p; reflexivity.
  - intros H; inversion H; reflexivity.
Qed.

Lemma checkPowerupCollision_gap (p : Player) (g : Game) :
  powerupTimeGap (GameOps.checkPowerupCollision p g) = powerupTimeGap g.
Proof.
  unfold GameOps.checkPowerupCollision.
  destruct (Vector2Equals (front (Snake.body (snake_of p g))) (powerup g));
    destruct p; reflexivity.
Qed.

Lemma collect_gap (fuel : nat) (g : Game) (w : World) (gc : Game) (w' : World) :
  collect fuel g w = Done (gc, w') -> powerupTimeGap gc = powerupTimeGap g.
Proof.
  intros H. apply collect_inv in H as (g1 & u1 & g2 & C1 & C2 & ->).
  apply checkFoodCollision_gap in C1. apply checkFoodCollision_gap in C2.
  rewrite !checkPowerupCollision_gap. congruence.
Qed.

Lemma checkCollisions_gap (st : State) :
  powerupTimeGap (game (GameOps.checkCollisions st)) = powerupTimeGap (game st).
Proof.
  destruct (checkCollisions_game st) as [-> | ->]; reflexivity.
Qed.

Lemma togglePowerupOn_gap (fuel : nat) (g : Game) (w : World) (g' : Game) (w' : World) :
  GameOps.togglePowerupOn fuel g w = Done (g', w') ->
  powerupTimeGap g' = powerupTimeGap g.
Proof.
  intros H. apply togglePowerupOn_inv in H
    as [(_ & -> & _) | [(_ & _ & -> & _) | (_ & _ & p & _ & ->)]]; reflexivity.
Qed.

Lemma togglePowerupOff_gap (g : Game) (w : World) (g' : Game) (w' : World) :
  GameOps.togglePowerupOff g w = Done (g', w') ->
  powerupTimeGap g' = powerupTimeGap g.
Proof.
  destruct (togglePowerupOff_frame g w) as (h & v & E & (_ & _ & _ & _ & _ & G) & _).
  rewrite E. intros H; injection H as <- _. exact G.
Qed.

Lemma settle_gap (fuel : nat) (st : State) (w : World) (st' : State) (w' : World) :
  settle fuel st w = Done (st', w') ->
  powerupTimeGap (game st') = powerupTimeGap (game st).
Proof.
  intros H. apply settle_inv in H as (g6 & w6 & g7 & T6 & T7 & ->).
  apply togglePowerupOff_gap in T6. apply togglePowerupOn_gap in T7.
  cbn [game set_game]. rewrite T7, T6. apply checkCollisions_gap.
Qed.

Lemma update_gap (fuel : nat) (st : State) (w : World) (st' : State) (w' : World) :
  GameOps.update fuel st w = Done (st', w') ->
  powerupTimeGap (game st') = powerupTimeGap (game st).
Proof.
  intros H. apply update_inv in H as [(_ & -> & _) | (_ & gc & w1 & C & S)]; [reflexivity|].
  apply collect_gap in C. apply settle_gap in S.
  rewrite S. cbn [game set_game]. rewrite C. reflexivity.
Qed.

Lemma reset_gap (fuel : nat) (st : State) (w : World) (st' : State) (w' : World) :
  GameOps.reset fuel st w = Done (st', w') ->
  powerupTimeGap (game st') = powerupTimeGap (game st).
Proof.
  unfold GameOps.reset. intros H.
  apply bind_Done in H as (v & w1 & _ & H). inversion H; reflexivity.
Qed.

Lemma new_gap (fuel : nat) (w : World) (g : Game) (w' : World) :
  GameOps.new fuel w = Done (g, w') ->
  powerupTimeGap g = 15%Q \/ powerupTimeGap g = 16%Q.
Proof.
  unfold GameOps.new. intros H.
  apply bind_Done in H as (f & w1 & _ & H).
  apply bind_Done in H as (q & w2 & _ & H).
  apply bind_Done in H as (gap & w3 & R & H).
  inversion H; subst; clear H. cbn [powerupTimeGap].
  unfold GetRandomValue in R. inversion R; subst; clear R.
  change (16 - 15 + 1) with 2.
  pose proof (Z.mod_pos_bound (rand_src w2 (rand_idx w2)) 2 ltac:(lia)) as B.
  assert (C : rand_src w2 (rand_idx w2) mod 2 = 0 \/ rand_src w2 (rand_idx w2) mod 2 = 1)
    by lia.
  destruct C as [-> | ->]; [left | right]; reflexivity.
Qed.

(** C5 at a failing input.  Both players keep their snakes circling, on a
    clock whose readings are a quarter of a second apart; the interval drawn
    is 15.  The power-up is shown for the first time in the 30th frame, at
    the reading 15, and that reading is what [powerupOffTime] then holds.  It
    is visible after 49 frames.  The 50th frame, which begins at second 25,
    hides it at the reading 25.25 and moves it to the sentinel;
    [powerupOffTime] still holds 15, the time of the showing, since nothing
    assigns it when the power-up is hidden.  The power-up is hidden after 58
    frames, and the 59th frame shows it again on a cell of the grid at the
    reading 30: 4.75 seconds after it was hidden, although the interval is
    15. *)
Theorem powerup_back_before_interval :
  match circling_game 30, circling_game 49, circling_game 50,
        circling_game 58, circling_game 59 with
  | Done (st30, _), Done (st49, w49), Done (st50, _), Done (st58, _), Done (st59, _) =>
      showPowerup (game st30) = true /\
      (powerupOffTime (game st30) == 15)%Q /\
      powerupTimeGap (game st30) = 15%Q /\
      showPowerup (game st49) = true /\
      (clock_src w49 (clock_idx w49) == 25)%Q /\
      showPowerup (game st50) = false /\ powerup (game st50) = sentinel /\
      (powerupOnTime (game st50) == 101 # 4)%Q /\
      (powerupOffTime (game st50) == 15)%Q /\
      showPowerup (game st58) = false /\ gameOver st58 = false /\
      showPowerup (game st59) = true /\ powerup (game st59) = mkV 0 24 /\
      (powerupOffTime (game st59) == 30)%Q /\
      powerupTimeGap (game st59) = 15%Q /\
      ~ waits_for_interval (powerupTimeGap (game st59)) (101 # 4) 30
  | _, _, _, _, _ => False
  end.
Proof.
  vm_compute. repeat split. intros H; apply H; reflexivity.
Qed.

(** ** Game::reset and Snake::reset (claim C4) *)

(** [Game::reset] puts both snakes back on their starting poses, zeroes the
    scores, moves the food to a free cell, hides the power-up at the sentinel,
    clears the message and restarts the game; the pending growth of either
    snake is left as it was. *)
Lemma reset_restores (fuel : nat) (st : State) (w : World) (st' : State) (w' : World) :
  GameOps.reset fuel st w = Done (st', w') ->
  Snake.body (snake1 (game st')) = [mkV 6 9; mkV 5 9; mkV 4 9] /\
  Snake.direction (snake1 (game st')) = mkV 1 0 /\
  Snake.body (snake2 (game st')) = [mkV 18 9; mkV 19 9; mkV 20 9] /\
  Snake.direction (snake2 (game st')) = mkV (-1) 0 /\
  Snake.addSegment (snake1 (game st')) = Snake.addSegment (snake1 (game st)) /\
  Snake.addSegment (snake2 (game st')) = Snake.addSegment (snake2 (game st)) /\
  score1 (game st') = 0 /\ score2 (game st') = 0 /\
  in_grid (food (game st')) /\
  elementInDeque (food (game st')) (Snake.body (snake1 (game st'))) = false /\
  elementInDeque (food (game st')) (Snake.body (snake2 (game st'))) = false /\
  powerup (game st') = sentinel /\ showPowerup (game st') = false /\
  winnerMessage st' = ""%string /\
  running (game st') = true /\ gameOver st' = false.
Proof.
  unfold GameOps.reset. intros H.
  apply bind_Done in H as (v & w1 & R & H). inversion H; subst; clear H.
  apply GenRandPos_sound in R as (G & Fa & Fb & _).
  cbn. auto 20.
Qed.

(** C4 at a failing input.  The food lies at (12,9), where the two heads meet
    on the sixth tick: snake 1 eats it, so its growth is pending when the
    game ends.  After SPACE the game runs again from the starting poses with
    both scores at zero, but the pending growth of snake 1 is still set, and
    on the next tick snake 1 has four segments while snake 2 has three. *)
Theorem reset_keeps_pending_growth :
  match play 5 [12; 9; 24; 24; 0; 3; 3] steady (repeat no_keys 6) with
  | Done (st, _) =>
      gameOver st = true /\ score1 (game st) = 1 /\
      Snake.addSegment (snake1 (game st)) = true
  | Spinning => False
  end /\
  match play 5 [12; 9; 24; 24; 0; 3; 3] steady (repeat no_keys 6 ++ [pressing [KEY_SPACE]]) with
  | Done (st, _) =>
      gameOver st = false /\ running (game st) = true /\
      score1 (game st) = 0 /\ score2 (game st) = 0 /\
      Snake.body (snake1 (game st)) = [mkV 6 9; mkV 5 9; mkV 4 9] /\
      Snake.body (snake2 (game st)) = [mkV 18 9; mkV 19 9; mkV 20 9] /\
      Snake.addSegment (snake1 (game st)) = true
  | Spinning => False
  end /\
  match play 5 [12; 9; 24; 24; 0; 3; 3] steady
             (repeat no_keys 6 ++ [pressing [KEY_SPACE]; no_keys]) with
  | Done (st, _) =>
      length (Snake.body (snake1 (game st))) = 4%nat /\
      length (Snake.body (snake2 (game st))) = 3%nat
  | Spinning => False
  end.
Proof. vm_compute. repeat split. Qed.

(** ** The hidden power-up (claim C9) *)

Lemma checkFoodCollision_powerup (fuel : nat) (p : Player) (g : Game) (w : World)
      (g' : Game) (w' : World) :
  GameOps.checkFoodCollision fuel p g w = Done (g', w') ->
  powerup g' = powerup g /\ showPowerup g' = showPowerup g.
Proof.
  unfold GameOps.checkFoodCollision.
  destruct (Vector2Equals (front (Snake.body (snake_of p g))) (food g)).
  - intros H. apply bind_Done in H as (v & w1 & _ & H).
    inversion H; subst. destruct p; split; reflexivity.
  - intros H; inversion H; split; reflexivity.
Qed.

Lemma checkPowerupCollision_hidden (p : Player) (g : Game) :
  hidden_at_sentinel g -> hidden_at_sentinel (GameOps.checkPowerupCollision p g).
Proof.
  unfold hidden_at_sentinel, GameOps.checkPowerupCollision.
  destruct (Vector2Equals (front (Snake.body (snake_of p g))) (powerup g));
    [intros _ _; destruct p; reflexivity | auto].
Qed.

Lemma togglePowerupOff_keeps_hidden (g : Game) (w : World) (g' : Game) (w' : World) :
  hidden_at_sentinel g ->
  GameOps.togglePowerupOff g w = Done (g', w') ->
  hidden_at_sentinel g'.
Proof.
  intros I. destruct (showPowerup g) eqn:V.
  - rewrite togglePowerupOff_visible by assumption.
    destruct (Qle_bool 10 (clock_src w (clock_idx w) - powerupOnTime g));
      intros H; injection H as <- _; unfold hidden_at_sentinel;
      cbn [showPowerup powerup set_powerup set_showPowerup set_powerupOnTime];
      [reflexivity | congruence].
  - rewrite togglePowerupOff_hidden by assumption.
    intros H; injection H as <- _. exact I.
Qed.

(** Every tick keeps a hidden power-up at the sentinel once it is there, and
    [reset] puts it there ([reset_restores]); only the constructor does not. *)
Lemma collect_keeps_hidden (fuel : nat) (g : Game) (w : World) (gc : Game) (w' : World) :
  hidden_at_sentinel g ->
  collect fuel g w = Done (gc, w') ->
  hidden_at_sentinel gc.
Proof.
  intros I H. apply collect_inv in H as (g1 & u1 & g2 & C1 & C2 & ->).
  apply checkFoodCollision_powerup in C1 as [A1 B1].
  apply checkFoodCollision_powerup in C2 as [A2 B2].
  apply checkPowerupCollision_hidden, checkPowerupCollision_hidden.
  unfold hidden_at_sentinel in *. rewrite A2, A1, B2, B1. exact I.
Qed.

Lemma checkCollisions_keeps_hidden (st : State) :
  hidden_at_sentinel (game st) ->
  hidden_at_sentinel (game (GameOps.checkCollisions st)).
Proof.
  intros I. destruct (checkCollisions_game st) as [-> | ->]; exact I.
Qed.

Lemma togglePowerupOn_keeps_hidden (fuel : nat) (g : Game) (w : World)
      (g' : Game) (w' : World) :
  hidden_at_sentinel g ->
  GameOps.togglePowerupOn fuel g w = Done (g', w') ->
  hidden_at_sentinel g'.
Proof.
  intros I H. apply togglePowerupOn_inv in H
    as [(_ & -> & _) | [(_ & _ & -> & _) | (_ & _ & p & _ & ->)]].
  - exact I.
  - exact I.
  - unfold hidden_at_sentinel; cbn [showPowerup set_powerup set_powerupOnTime set_showPowerup];
      discriminate.
Qed.

Lemma update_keeps_hidden_at_sentinel (fuel : nat) (st : State) (w : World)
      (st' : State) (w' : World) :
  hidden_at_sentinel (game st) ->
  GameOps.update fuel st w = Done (st', w') ->
  hidden_at_sentinel (game st').
Proof.
  intros I H. apply update_inv in H as [(_ & -> & _) | (_ & gc & w1 & C & S)]; [exact I|].
  apply collect_keeps_hidden in C; [|exact I].
  apply settle_inv in S as (g6 & w6 & g7 & T6 & T7 & ->).
  cbn [game set_game].
  eapply togglePowerupOn_keeps_hidden; [|exact T7].
  eapply togglePowerupOff_keeps_hidden; [|exact T6].
  apply checkCollisions_keeps_hidden. exact C.
Qed.

(** C9 at a failing input.  The constructor places the power-up on a cell of
    the grid, here (7,9), while [showPowerup] starts as [false]: the hidden
    power-up is not at the sentinel.  On the first tick snake 1 steps on it
    and is given five points and a pending growth. *)
Theorem hidden_powerup_is_eaten :
  match play 5 [0; 0; 7; 9; 0] steady [] with
  | Done (st, _) =>
      showPowerup (game st) = false /\ powerup (game st) = mkV 7 9 /\
      powerup (game st) <> sentinel /\ score1 (game st) = 0
  | Spinning => False
  end /\
  match play 5 [0; 0; 7; 9; 0] steady [no_keys] with
  | Done (st, _) =>
      front (Snake.body (snake1 (game st))) = mkV 7 9 /\
      score1 (game st) = 5 /\ Snake.addSegment (snake1 (game st)) = true /\
      showPowerup (game st) = false /\ powerup (game st) = sentinel
  | Spinning => False
  end.
Proof. vm_compute. repeat split. discriminate. Qed.


(** ** One tick and one frame, described *)

Lemma checkFoodCollision_step (fuel : nat) (p : Player) (g : Game) (w : World)
      (g' : Game) (w' : World) :
  GameOps.checkFoodCollision fuel p g w = Done (g', w') -> food_step p g g'.
Proof.
  unfold GameOps.checkFoodCollision, food_step.
  destruct (Vector2Equals (front (Snake.body (snake_of p g))) (food g)).
  - intros H. apply bind_Done in H as (v & w1 & R & H).
    apply ret_Done in H as [-> _].
    apply GenRandPos_sound in R as (G & Fa & Fb & _).
    left. split; [reflexivity|]. exists v. auto.
  - intros H. apply ret_Done in H as [-> _]. right; auto.
Qed.

Lemma togglePowerupOff_inv (g : Game) (w : World) (g' : Game) (w' : World) :
  GameOps.togglePowerupOff g w = Done (g', w') ->
  same_players g g' /\ running g' = running g /\
  Snake.body (snake1 g') = Snake.body (snake1 g) /\
  Snake.body (snake2 g') = Snake.body (snake2 g) /\
  ((showPowerup g' = showPowerup g /\ powerup g' = powerup g) \/
   (showPowerup g' = false /\ powerup g' = sentinel)).
Proof.
  destruct (showPowerup g) eqn:V.
  - rewrite togglePowerupOff_visible by assumption.
    destruct (Qle_bool 10 (clock_src w (clock_idx w) - powerupOnTime g));
      intros H; injection H as <- _;
      (split; [repeat split|]); (split; [reflexivity|]);
      (split; [reflexivity|]); (split; [reflexivity|]).
    + right; split; reflexivity.
    + left. cbn [showPowerup powerup set_powerupOnTime]. auto.
  - rewrite togglePowerupOff_hidden by assumption.
    intros H; injection H as <- _.
    split; [repeat split|]. auto 6.
Qed.

Lemma timers_inv (fuel : nat) (g : Game) (w : World) (g6 : Game) (w6 : World)
      (g7 : Game) (w7 : World) :
  GameOps.togglePowerupOff g w = Done (g6, w6) ->
  GameOps.togglePowerupOn fuel g6 w6 = Done (g7, w7) ->
  timers_step g g7.
Proof.
  intros H6 H7.
  apply togglePowerupOff_inv in H6 as (P6 & R6 & B1 & B2 & C6).
  apply togglePowerupOn_inv in H7
    as [(_ & -> & _) | [(_ & _ & -> & _) | (_ & _ & p & R & ->)]].
  - split; [exact P6|]. split; [exact R6|].
    destruct C6 as [C | C]; [left | right; left]; exact C.
  - split; [exact P6|]. split; [exact R6|].
    destruct C6 as [C | C]; [left | right; left]; exact C.
  - apply GenRandPos_sound in R as (G & Fa & Fb & _).
    split; [|split].
    + destruct P6 as (A1 & A2 & A3 & A4 & A5 & A6). repeat split; assumption.
    + exact R6.
    + right; right. rewrite B1 in Fa. rewrite B2 in Fb.
      cbn [showPowerup powerup set_powerup set_powerupOnTime set_showPowerup]. auto.
Qed.

(** A tick of a running game that returned: the snakes advance, the food and
    the power-up are checked for both snakes, the collisions are tested, the
    timers run; the clock of the loop and [allowMove] are not written. *)
Lemma update_describe (fuel : nat) (st : State) (w : World) (st' : State) (w' : World) :
  running (game st) = true ->
  GameOps.update fuel st w = Done (st', w') ->
  exists g1 g2 st5,
    food_step P1 (advance (game st)) g1 /\
    food_step P2 g1 g2 /\
    st5 = GameOps.checkCollisions
            (set_game (GameOps.checkPowerupCollision P2
                         (GameOps.checkPowerupCollision P1 g2)) st) /\
    timers_step (game st5) (game st') /\
    gameUpdateTime st' = gameUpdateTime st5 /\
    gameOver st' = gameOver st5 /\
    allowMove st' = allowMove st5 /\
    winnerMessage st' = winnerMessage st5.
Proof.
  intros Run H.
  apply update_inv in H as [(E & _) | (_ & gc & w1 & C & S)]; [congruence|].
  apply collect_inv in C as (g1 & u1 & g2 & C1 & C2 & ->).
  apply checkFoodCollision_step in C1. apply checkFoodCollision_step in C2.
  apply settle_inv in S as (g6 & w6 & g7 & T6 & T7 & ->).
  set (st5 := GameOps.checkCollisions
                (set_game (GameOps.checkPowerupCollision P2
                             (GameOps.checkPowerupCollision P1 g2)) st)) in *.
  exists g1, g2, st5. split; [exact C1|]. split; [exact C2|].
  split; [reflexivity|].
  generalize dependent st5. intros st5 T6.
  cbn [game set_game gameUpdateTime gameOver allowMove winnerMessage].
  split; [exact (timers_inv _ _ _ _ _ _ _ T6 T7) | auto].
Qed.

(** What the collision tests leave: nothing changed when no test matches, a
    declared winner otherwise. *)
Lemma checkCollisions_cases (st : State) :
  (existsb fst (collision_rules (game st)) = false /\ GameOps.checkCollisions st = st) \/
  (existsb fst (collision_rules (game st)) = true /\
   exists winner, (winner = 1 \/ winner = 2) /\
                  GameOps.checkCollisions st = GameOps.declareWinner winner st).
Proof.
  destruct st as [[s1 s2 fd pw rn sc1 sc2 sh on off gap] t go am msg].
  unfold GameOps.checkCollisions, collision_rules.
  collision_cases s1 s2;
    first [ left; split; reflexivity
          | right; split; [reflexivity|]; exists 1; split; [left|]; reflexivity
          | right; split; [reflexivity|]; exists 2; split; [right|]; reflexivity ].
Qed.

(** One frame that returned, in its three steps: the tick when the clock
    allows it, the restart on SPACE when the game is over, the keys. *)
Lemma frame_inv (fuel : nat) (keys : Key -> bool) (st : State) (w : World)
      (st' : State) (w' : World) :
  frame fuel keys st w = Done (st', w') ->
  exists st1 w1 st2,
    ((gameOver st = true /\ st1 = st /\ w1 = w) \/
     (gameOver st = false /\
      st1 = mkState (game st) (gameUpdateTime st) (gameOver st) (allowMove st)
                    (winnerMessage st) /\
      w1 = read w) \/
     (gameOver st = false /\
      GameOps.update fuel
        (mkState (game st) (clock_src w (clock_idx w)) (gameOver st) true (winnerMessage st))
        (read w) = Done (st1, w1))) /\
    ((gameOver st1 = true /\ keys KEY_SPACE = true /\
      GameOps.reset fuel st1 w1 = Done (st2, w')) \/
     (st2 = st1 /\ w' = w1)) /\
    st' = handleInput keys st2.
Proof.
  unfold frame. intros H.
  apply bind_Done in H as (st1 & w1 & H1 & H).
  apply bind_Done in H as (st2 & w2 & H2 & H).
  apply ret_Done in H as [-> ->].
  exists st1, w1, st2. split; [|split; [|reflexivity]].
  - destruct (gameOver st) eqn:G; cbn [negb] in H1.
    + apply ret_Done in H1 as [-> ->]. left; auto.
    + right. unfold eventTriggered, GetTime, bind in H1.
      destruct (Qle_bool (2 # 10) (clock_src w (clock_idx w) - gameUpdateTime st)).
      * right. split; [reflexivity|]. exact H1.
      * left. split; [reflexivity|]. apply ret_Done in H1 as [-> ->]. split; reflexivity.
  - destruct (gameOver st1 && keys KEY_SPACE) eqn:E.
    + apply andb_true_iff in E as [E1 E2]. left; auto.
    + apply ret_Done in H2 as [-> ->]. right; auto.
Qed.

Lemma steering_refl (st : State) : steering st st.
Proof. unfold steering. repeat split; auto. Qed.

Lemma steering_trans (st1 st2 st3 : State) :
  steering st1 st2 -> steering st2 st3 -> steering st1 st3.
Proof.
  unfold steering.
  intros (A1 & A2 & A3 & A4 & A5 & A6 & A7 & A8 & A9 & A10 & A)
         (B1 & B2 & B3 & B4 & B5 & B6 & B7 & B8 & B9 & B10 & B).
  repeat (split; [congruence|]).
  intros p. destruct (A p) as (Ab & Aa & Ad), (B p) as (Bb & Ba & Bd).
  split; [congruence|]. split; [congruence|].
  destruct Bd as [Bd | Bd]; [|right; exact Bd].
  rewrite Bd. exact Ad.
Qed.

Lemma steer_steering (pressed : bool) (p : Player) (ok : Snake.t -> bool) (h : Heading)
      (st : State) :
  steering st (steer pressed p ok (vec_of h) st).
Proof.
  unfold steer. destruct (pressed && ok (snake_of p (game st))); [|apply steering_refl].
  unfold steering. cbn [gameUpdateTime gameOver winnerMessage game].
  destruct p; cbn; repeat (split; [reflexivity|]); intros q; destruct q; cbn;
    (split; [reflexivity|]); (split; [reflexivity|]);
    first [left; reflexivity | right; exists h; reflexivity].
Qed.

Lemma handleInput_steering (keys : Key -> bool) (st : State) :
  steering st (handleInput keys st).
Proof.
  unfold handleInput. destruct (negb (gameOver st) && allowMove st); [|apply steering_refl].
  cbv zeta.
  change dirUp with (vec_of HeadUp). change dirDown with (vec_of HeadDown).
  change dirRight with (vec_of HeadRight). change dirLeft with (vec_of HeadLeft).
  repeat (eapply steering_trans; [|apply steer_steering]).
  apply steering_refl.
Qed.

(** What the constructor leaves. *)
Lemma start_inv (fuel : nat) (w : World) (st : State) (w' : World) :
  start fuel w = Done (st, w') ->
  snake1 (game st) = Snake.new startPos1 startDir1 /\
  snake2 (game st) = Snake.new startPos2 startDir2 /\
  free_of (game st) (food (game st)) /\
  free_of (game st) (powerup (game st)) /\
  running (game st) = true /\ score1 (game st) = 0 /\ score2 (game st) = 0 /\
  showPowerup (game st) = false /\
  gameOver st = false /\ winnerMessage st = ""%string.
Proof.
  unfold start, GameOps.new. intros H.
  apply bind_Done in H as (g & w1 & H & R). apply ret_Done in R as [-> _].
  apply bind_Done in H as (f & u1 & Rf & H).
  apply bind_Done in H as (q & u2 & Rq & H).
  apply bind_Done in H as (gap & u3 & _ & H).
  apply ret_Done in H as [-> _].
  apply GenRandPos_sound in Rf as (Gf & Fa & Fb & _).
  apply GenRandPos_sound in Rq as (Gq & Qa & Qb & _).
  unfold free_of. cbn. auto 20.
Qed.

(** ** Invariants carried from frame to frame *)

Lemma before_keys_inv (fuel : nat) (keys : Key -> bool) (st : State) (w : World)
      (st2 : State) (w' : World) :
  before_keys fuel keys st w = Done (st2, w') ->
  exists st1 w1,
    ((gameOver st = true /\ st1 = st /\ w1 = w) \/
     (gameOver st = false /\
      st1 = mkState (game st) (gameUpdateTime st) (gameOver st) (allowMove st)
                    (winnerMessage st) /\
      w1 = read w) \/
     (gameOver st = false /\
      GameOps.update fuel
        (mkState (game st) (clock_src w (clock_idx w)) (gameOver st) true (winnerMessage st))
        (read w) = Done (st1, w1))) /\
    ((gameOver st1 = true /\ keys KEY_SPACE = true /\
      GameOps.reset fuel st1 w1 = Done (st2, w')) \/
     (st2 = st1 /\ w' = w1)).
Proof.
  unfold before_keys. intros H.
  apply bind_Done in H as (st1 & w1 & H1 & H2).
  exists st1, w1. split.
  - destruct (gameOver st) eqn:G; cbn [negb] in H1.
    + apply ret_Done in H1 as [-> ->]. left; auto.
    + right. unfold eventTriggered, GetTime, bind in H1.
      destruct (Qle_bool (2 # 10) (clock_src w (clock_idx w) - gameUpdateTime st)).
      * right. split; [reflexivity|]. exact H1.
      * left. split; [reflexivity|]. apply ret_Done in H1 as [-> ->]. split; reflexivity.
  - destruct (gameOver st1 && keys KEY_SPACE) eqn:E.
    + apply andb_true_iff in E as [E1 E2]. left; auto.
    + apply ret_Done in H2 as [-> ->]. right; auto.
Qed.

(** The loop body is what comes before the keys, then the keys. *)
Lemma frame_before_keys (fuel : nat) (keys : Key -> bool) (st : State) (w : World) :
  frame fuel keys st w
  = (st2 <- before_keys fuel keys st ;; ret (handleInput keys st2)) w.
Proof.
  unfold frame, before_keys, bind.
  destruct (if negb (gameOver st) then _ else _) as [[st1 w1]|]; reflexivity.
Qed.

Section Reachable.

Variable Inv : State -> Prop.

Hypothesis Inv_start :
  forall fuel w st w', start fuel w = Done (st, w') -> Inv st.
Hypothesis Inv_clock :
  forall st t am,
    Inv st -> Inv (mkState (game st) t (gameOver st) am (winnerMessage st)).
Hypothesis Inv_update :
  forall fuel st w st' w',
    Inv st -> GameOps.update fuel st w = Done (st', w') -> Inv st'.
Hypothesis Inv_reset :
  forall fuel st w st' w',
    Inv st -> GameOps.reset fuel st w = Done (st', w') -> Inv st'.
Hypothesis Inv_keys :
  forall keys st, Inv st -> Inv (handleInput keys st).

Lemma frame_keeps (fuel : nat) (keys : Key -> bool) (st : State) (w : World)
      (st' : State) (w' : World) :
  Inv st -> frame fuel keys st w = Done (st', w') -> Inv st'.
Proof.
  intros I H.
  apply frame_inv in H as (st1 & w1 & st2 & H1 & H2 & ->).
  apply Inv_keys.
  assert (I1 : Inv st1).
  { destruct H1 as [(_ & -> & _) | [(_ & -> & _) | (_ & U)]].
    - exact I.
    - apply Inv_clock. exact I.
    - eapply Inv_update; [|exact U]. apply Inv_clock. exact I. }
  destruct H2 as [(_ & _ & R) | (-> & _)].
  - eapply Inv_reset; [exact I1 | exact R].
  - exact I1.
Qed.

Lemma frames_keep (fuel : nat) (inputs : list (Key -> bool)) :
  forall st w st' w',
    Inv st -> frames fuel inputs st w = Done (st', w') -> Inv st'.
Proof.
  induction inputs as [|keys rest IH]; intros st w st' w' I H; cbn [frames] in H.
  - apply ret_Done in H as [-> _]. exact I.
  - apply bind_Done in H as (st1 & w1 & F & H).
    eapply IH; [|exact H]. eapply frame_keeps; [exact I | exact F].
Qed.

Lemma reachable_keeps (st : State) : reachable st -> Inv st.
Proof.
  intros (fuel & w & inputs & w' & H).
  apply bind_Done in H as (st0 & w0 & S & H).
  eapply frames_keep; [|exact H]. eapply Inv_start. exact S.
Qed.

Lemma before_keys_keeps (fuel : nat) (keys : Key -> bool) (st : State) (w : World)
      (st2 : State) (w' : World) :
  Inv st -> before_keys fuel keys st w = Done (st2, w') -> Inv st2.
Proof.
  intros I H.
  apply before_keys_inv in H as (st1 & w1 & H1 & H2).
  assert (I1 : Inv st1).
  { destruct H1 as [(_ & -> & _) | [(_ & -> & _) | (_ & U)]].
    - exact I.
    - apply Inv_clock. exact I.
    - eapply Inv_update; [|exact U]. apply Inv_clock. exact I. }
  destruct H2 as [(_ & _ & R) | (-> & _)].
  - eapply Inv_reset; [exact I1 | exact R].
  - exact I1.
Qed.

End Reachable.

Lemma fed_fields (p : Player) (v : Vector2) (g : Game) :
  running (fed p v g) = running g /\ powerup (fed p v g) = powerup g /\
  showPowerup (fed p v g) = showPowerup g /\ food (fed p v g) = v /\
  forall q,
    Snake.body (snake_of q (fed p v g)) = Snake.body (snake_of q g) /\
    Snake.direction (snake_of q (fed p v g)) = Snake.direction (snake_of q g).
Proof.
  destruct p; repeat (split; [reflexivity|]); intros q; destruct q; split; reflexivity.
Qed.

Lemma food_step_fields (p : Player) (g g' : Game) :
  food_step p g g' ->
  running g' = running g /\ powerup g' = powerup g /\ showPowerup g' = showPowerup g /\
  forall q,
    Snake.body (snake_of q g') = Snake.body (snake_of q g) /\
    Snake.direction (snake_of q g') = Snake.direction (snake_of q g).
Proof.
  intros [(_ & v & _ & _ & _ & ->) | (_ & ->)].
  - destruct (fed_fields p v g) as (A & B & C & _ & D). auto.
  - auto.
Qed.

Lemma checkPowerupCollision_fields (p : Player) (g : Game) :
  running (GameOps.checkPowerupCollision p g) = running g /\
  food (GameOps.checkPowerupCollision p g) = food g /\
  forall q,
    Snake.body (snake_of q (GameOps.checkPowerupCollision p g)) = Snake.body (snake_of q g) /\
    Snake.direction (snake_of q (GameOps.checkPowerupCollision p g))
    = Snake.direction (snake_of q g).
Proof.
  unfold GameOps.checkPowerupCollision.
  destruct (Vector2Equals (front (Snake.body (snake_of p g))) (powerup g)).
  - destruct p; repeat (split; [reflexivity|]); intros q; destruct q; split; reflexivity.
  - auto.
Qed.

Lemma advance_fields (g : Game) :
  running (advance g) = running g /\ food (advance g) = food g /\
  powerup (advance g) = powerup g /\ showPowerup (advance g) = showPowerup g /\
  score1 (advance g) = score1 g /\ score2 (advance g) = score2 g /\
  forall q, snake_of q (advance g) = Snake.update (snake_of q g).
Proof.
  repeat (split; [reflexivity|]). intros q; destruct q; reflexivity.
Qed.

(** The state handed to the collision tests in a tick: the snakes are the
    advanced ones, whatever the food and the power-up did. *)
Lemma collected_snakes (g g1 g2 : Game) (q : Player) :
  food_step P1 (advance g) g1 -> food_step P2 g1 g2 ->
  let gc := GameOps.checkPowerupCollision P2 (GameOps.checkPowerupCollision P1 g2) in
  running gc = running g /\
  Snake.body (snake_of q gc) = Snake.body (Snake.update (snake_of q g)) /\
  Snake.direction (snake_of q gc) = Snake.direction (snake_of q g).
Proof.
  intros S1 S2 gc.
  destruct (food_step_fields _ _ _ S1) as (R1 & _ & _ & F1).
  destruct (food_step_fields _ _ _ S2) as (R2 & _ & _ & F2).
  destruct (checkPowerupCollision_fields P1 g2) as (R3 & _ & F3).
  destruct (checkPowerupCollision_fields P2 (GameOps.checkPowerupCollision P1 g2))
    as (R4 & _ & F4).
  destruct (advance_fields g) as (R0 & _ & _ & _ & _ & _ & F0).
  destruct (F1 q) as [B1 D1], (F2 q) as [B2 D2], (F3 q) as [B3 D3], (F4 q) as [B4 D4].
  subst gc. split; [congruence|].
  rewrite B4, B3, B2, B1, D4, D3, D2, D1, (F0 q).
  split; [reflexivity|].
  destruct (snake_of q g) as [b d a]; unfold Snake.update; cbn [Snake.addSegment];
    destruct (negb a); reflexivity.
Qed.

Lemma timers_step_snakes (g g' : Game) (q : Player) :
  timers_step g g' -> snake_of q g' = snake_of q g.
Proof. intros ((A1 & A2 & _) & _). destruct q; assumption. Qed.

Lemma checkCollisions_snakes (st : State) (q : Player) :
  snake_of q (game (GameOps.checkCollisions st)) = snake_of q (game st).
Proof.
  destruct (checkCollisions_game st) as [-> | ->]; destruct q; reflexivity.
Qed.

(** A tick changes the bodies and the directions only by [Snake::update]. *)
Lemma tick_snakes (fuel : nat) (st : State) (w : World) (st' : State) (w' : World)
      (q : Player) :
  running (game st) = true ->
  GameOps.update fuel st w = Done (st', w') ->
  Snake.body (snake_of q (game st')) = Snake.body (Snake.update (snake_of q (game st))) /\
  Snake.direction (snake_of q (game st')) = Snake.direction (snake_of q (game st)).
Proof.
  intros Run H.
  apply update_describe in H as (g1 & g2 & st5 & S1 & S2 & -> & T & _); [|exact Run].
  rewrite (timers_step_snakes _ _ q T), checkCollisions_snakes. cbn [game set_game].
  apply (collected_snakes (game st) g1 g2 q S1 S2).
Qed.

Lemma chain_removelast (b : deque) : chain b -> chain (removelast b).
Proof.
  induction b as [|x [|y [|z r]] IH]; cbn [removelast chain]; auto.
  intros [H C]. split; [exact H|]. apply IH. exact C.
Qed.

Lemma Snake_update_ok (s s' : Snake.t) :
  snake_ok s ->
  Snake.body s' = Snake.body (Snake.update s) ->
  Snake.direction s' = Snake.direction s ->
  snake_ok s'.
Proof.
  intros (L & [h D] & C) B E. unfold snake_ok. rewrite B, E.
  assert (N : Snake.body s <> []) by (destruct (Snake.body s); [cbn in L; lia | discriminate]).
  destruct (Snake_update_facts s N) as (_ & _ & Len & _).
  split; [rewrite Len; lia|]. split; [exists h; exact D|].
  assert (Cp : chain (Vector2Add (front (Snake.body s)) (Snake.direction s) :: Snake.body s)).
  { destruct (Snake.body s) as [|x r]; [congruence|]. cbn [chain front hd].
    split; [exists h; now rewrite D | exact C]. }
  unfold Snake.update. destruct (negb (Snake.addSegment s)); cbn [Snake.body].
  - apply chain_removelast. exact Cp.
  - exact Cp.
Qed.

Lemma snakes_ok_update (fuel : nat) (st : State) (w : World) (st' : State) (w' : World) :
  snakes_ok st -> GameOps.update fuel st w = Done (st', w') -> snakes_ok st'.
Proof.
  intros [O1 O2] H. destruct (running (game st)) eqn:Run.
  - destruct (tick_snakes fuel st w st' w' P1 Run H) as [B1 D1].
    destruct (tick_snakes fuel st w st' w' P2 Run H) as [B2 D2].
    split; [exact (Snake_update_ok _ _ O1 B1 D1) | exact (Snake_update_ok _ _ O2 B2 D2)].
  - apply update_inv in H as [(_ & -> & _) | (E & _)]; [split; assumption | congruence].
Qed.

Lemma snakes_ok_keys (keys : Key -> bool) (st : State) :
  snakes_ok st -> snakes_ok (handleInput keys st).
Proof.
  intros [O1 O2].
  destruct (handleInput_steering keys st) as (_ & _ & _ & _ & _ & _ & _ & _ & _ & _ & S).
  assert (K : forall q, snake_ok (snake_of q (game st)) ->
                        snake_ok (snake_of q (game (handleInput keys st)))).
  { intros q (L & Hd & C). destruct (S q) as (B & _ & D). unfold snake_ok.
    rewrite B. split; [exact L|]. split; [|exact C].
    destruct D as [-> | D]; assumption. }
  split; [exact (K P1 O1) | exact (K P2 O2)].
Qed.

Lemma snakes_ok_reset (fuel : nat) (st : State) (w : World) (st' : State) (w' : World) :
  GameOps.reset fuel st w = Done (st', w') -> snakes_ok st'.
Proof.
  intros H. apply reset_restores in H as (B1 & D1 & B2 & D2 & _).
  split; unfold snake_ok.
  - rewrite B1, D1. split; [cbn; lia|]. split; [exists HeadRight; reflexivity|].
    cbn. repeat split; exists HeadRight; reflexivity.
  - rewrite B2, D2. split; [cbn; lia|]. split; [exists HeadLeft; reflexivity|].
    cbn. repeat split; exists HeadLeft; reflexivity.
Qed.

Lemma snakes_ok_start (fuel : nat) (w : World) (st : State) (w' : World) :
  start fuel w = Done (st, w') -> snakes_ok st.
Proof.
  intros H. apply start_inv in H as (S1 & S2 & _).
  split; unfold snake_ok.
  - rewrite S1. split; [cbn; lia|]. split; [exists HeadRight; reflexivity|].
    cbn. repeat split; exists HeadRight; reflexivity.
  - rewrite S2. split; [cbn; lia|]. split; [exists HeadLeft; reflexivity|].
    cbn. repeat split; exists HeadLeft; reflexivity.
Qed.

(** ** Properties of every reachable state *)

(** X1.  In every state the program can reach, each snake has at least three
    segments, its direction is one of the four unit vectors, and each segment
    lies exactly one grid step from the segment behind it. *)
Theorem reachable_snakes_ok (st : State) : reachable st -> snakes_ok st.
Proof.
  apply reachable_keeps.
  - exact snakes_ok_start.
  - intros s t am I. exact I.
  - exact snakes_ok_update.
  - intros fuel s w s' w' _ H. exact (snakes_ok_reset fuel s w s' w' H).
  - exact snakes_ok_keys.
Qed.

Lemma play_reachable (fuel : nat) (rs : list Z) (ts : nat -> Q)
      (inputs : list (Key -> bool)) (st : State) (w : World) :
  play fuel rs ts inputs = Done (st, w) -> reachable st.
Proof. intros H. exists fuel, (world_of rs ts), inputs, w. exact H. Qed.

Lemma reachable_snakes_ok_witness :
  match play 5 [0; 0; 24; 24; 0] steady (firstn 40 (circling 30)) with
  | Done (st, _) => reachable st /\ snakes_ok st
  | Spinning => False
  end.
Proof.
  destruct (play 5 [0; 0; 24; 24; 0] steady (firstn 40 (circling 30)))
    as [[st w]|] eqn:E.
  - pose proof (play_reachable _ _ _ _ _ _ E) as R.
    split; [exact R | exact (reachable_snakes_ok st R)].
  - vm_compute in E. discriminate E.
Defined.

Lemma flags_ok_update (fuel : nat) (st : State) (w : World) (st' : State) (w' : World) :
  flags_ok st -> GameOps.update fuel st w = Done (st', w') -> flags_ok st'.
Proof.
  intros (F1 & F2 & F3) H. destruct (running (game st)) eqn:Run.
  - cbn [negb] in F1. specialize (F2 F1).
    apply update_describe in H
      as (g1 & g2 & st5 & S1 & S2 & E5 & (_ & R7 & _) & _ & G & _ & M); [|exact Run].
    destruct (collected_snakes (game st) g1 g2 P1 S1 S2) as (Rc & _).
    unfold flags_ok. rewrite G, M, R7.
    destruct (checkCollisions_cases
                (set_game (GameOps.checkPowerupCollision P2
                             (GameOps.checkPowerupCollision P1 g2)) st))
      as [(_ & E) | (_ & winner & Wn & E)]; rewrite E in E5; subst st5.
    + cbn [game set_game gameOver winnerMessage]. rewrite Rc, Run, F1.
      split; [reflexivity|]. split; [intros _; exact F2 | discriminate].
    + cbn. split; [reflexivity|]. split; [discriminate|]. intros _.
      destruct Wn as [-> | ->]; [left | right]; reflexivity.
  - apply update_inv in H as [(_ & -> & _) | (E & _)]; [|congruence].
    unfold flags_ok. rewrite Run. auto.
Qed.

Lemma flags_ok_keys (keys : Key -> bool) (st : State) :
  flags_ok st -> flags_ok (handleInput keys st).
Proof.
  destruct (handleInput_steering keys st) as (_ & G & M & _ & _ & R & _).
  unfold flags_ok. rewrite G, M, R. auto.
Qed.

Lemma flags_ok_reset (fuel : nat) (st : State) (w : World) (st' : State) (w' : World) :
  GameOps.reset fuel st w = Done (st', w') -> flags_ok st'.
Proof.
  intros H. apply reset_restores in H.
  destruct H as (_ & _ & _ & _ & _ & _ & _ & _ & _ & _ & _ & _ & _ & M & R & G).
  unfold flags_ok. rewrite G, R, M. split; [reflexivity|]. split; [auto | discriminate].
Qed.

Lemma flags_ok_start (fuel : nat) (w : World) (st : State) (w' : World) :
  start fuel w = Done (st, w') -> flags_ok st.
Proof.
  intros H. apply start_inv in H as (_ & _ & _ & _ & R & _ & _ & _ & G & M).
  unfold flags_ok. rewrite G, R, M. split; [reflexivity|]. split; [auto | discriminate].
Qed.

(** X2.  In every state the program can reach exactly one of running and game
    over holds: [gameOver] is the negation of [running]; the winner message
    is empty while the game runs and names player 1 or player 2 once it is
    over. *)
Theorem reachable_flags_ok (st : State) : reachable st -> flags_ok st.
Proof.
  apply reachable_keeps.
  - exact flags_ok_start.
  - intros s t am I. exact I.
  - exact flags_ok_update.
  - intros fuel s w s' w' _ H. exact (flags_ok_reset fuel s w s' w' H).
  - exact flags_ok_keys.
Qed.

Lemma reachable_flags_ok_witness :
  match play 5 [0; 0; 24; 24; 0] steady (repeat no_keys 7) with
  | Done (st, _) => reachable st /\ flags_ok st
  | Spinning => False
  end.
Proof.
  destruct (play 5 [0; 0; 24; 24; 0] steady (repeat no_keys 7)) as [[st w]|] eqn:E.
  - pose proof (play_reachable _ _ _ _ _ _ E) as R.
    split; [exact R | exact (reachable_flags_ok st R)].
  - vm_compute in E. discriminate E.
Defined.

Lemma elementInDeque_removelast (c : Vector2) (b : deque) :
  elementInDeque c (removelast b) = true -> elementInDeque c b = true.
Proof.
  rewrite !elementInDeque_In.
  induction b as [|x [|y r] IH]; cbn [removelast]; [auto | intros [] |].
  intros [-> | H]; [left; reflexivity | right; apply IH; exact H].
Qed.

(** A cell on the advanced body is the new head or was on the body before. *)
Lemma Snake_update_member (s : Snake.t) (c : Vector2) :
  elementInDeque c (Snake.body (Snake.update s)) = true ->
  Vector2Equals (front (Snake.body (Snake.update s))) c = true \/
  elementInDeque c (Snake.body s) = true.
Proof.
  destruct s as [b d a]. unfold Snake.update; cbn [Snake.body Snake.direction Snake.addSegment].
  destruct a; cbn [negb Snake.body].
  - cbn [elementInDeque front hd].
    destruct (Vector2Equals (Vector2Add (front b) d) c); auto.
  - destruct b as [|h r]; [cbn; discriminate|].
    change (removelast (Vector2Add (front (h :: r)) d :: h :: r))
      with (Vector2Add (front (h :: r)) d :: removelast (h :: r)).
    cbn [elementInDeque front hd].
    destruct (Vector2Equals (Vector2Add h d) c); [auto|].
    intros H. right. apply elementInDeque_removelast in H. exact H.
Qed.

Lemma free_of_bodies (g g' : Game) (c : Vector2) :
  Snake.body (snake1 g') = Snake.body (snake1 g) ->
  Snake.body (snake2 g') = Snake.body (snake2 g) ->
  free_of g c -> free_of g' c.
Proof. unfold free_of; intros -> ->; auto. Qed.

(** A free cell stays free over the advance of both snakes unless a head
    steps on it. *)
Lemma free_of_advance (g : Game) (c : Vector2) :
  free_of g c ->
  Vector2Equals (front (Snake.body (snake1 (advance g)))) c = false ->
  Vector2Equals (front (Snake.body (snake2 (advance g)))) c = false ->
  free_of (advance g) c.
Proof.
  intros (G & A & B) H1 H2. split; [exact G|].
  change (snake1 (advance g)) with (Snake.update (snake1 g)) in *.
  change (snake2 (advance g)) with (Snake.update (snake2 g)) in *.
  split.
  - destruct (elementInDeque c (Snake.body (Snake.update (snake1 g)))) eqn:E; [|reflexivity].
    apply Snake_update_member in E as [E | E]; congruence.
  - destruct (elementInDeque c (Snake.body (Snake.update (snake2 g)))) eqn:E; [|reflexivity].
    apply Snake_update_member in E as [E | E]; congruence.
Qed.

Lemma checkPowerupCollision_cases (p : Player) (g : Game) :
  (Vector2Equals (front (Snake.body (snake_of p g))) (powerup g) = true /\
   powerup (GameOps.checkPowerupCollision p g) = sentinel /\
   showPowerup (GameOps.checkPowerupCollision p g) = false) \/
  (Vector2Equals (front (Snake.body (snake_of p g))) (powerup g) = false /\
   GameOps.checkPowerupCollision p g = g).
Proof.
  unfold GameOps.checkPowerupCollision.
  destruct (Vector2Equals (front (Snake.body (snake_of p g))) (powerup g));
    [left | right]; destruct p; auto.
Qed.

Lemma collected_bodies (g g1 g2 : Game) :
  food_step P1 (advance g) g1 -> food_step P2 g1 g2 ->
  Snake.body (snake1 (GameOps.checkPowerupCollision P2 (GameOps.checkPowerupCollision P1 g2)))
  = Snake.body (snake1 (advance g)) /\
  Snake.body (snake2 (GameOps.checkPowerupCollision P2 (GameOps.checkPowerupCollision P1 g2)))
  = Snake.body (snake2 (advance g)).
Proof.
  intros S1 S2.
  destruct (checkPowerupCollision_bodies P2 (GameOps.checkPowerupCollision P1 g2)) as [-> ->].
  destruct (checkPowerupCollision_bodies P1 g2) as [-> ->].
  destruct (food_step_bodies _ _ _ S2) as [-> ->].
  destruct (food_step_bodies _ _ _ S1) as [-> ->]. auto.
Qed.

(** After the food checks of a tick the food is again on a free cell. *)
Lemma collected_food_free (g g1 g2 : Game) :
  free_of g (food g) ->
  food_step P1 (advance g) g1 -> food_step P2 g1 g2 ->
  free_of (advance g) (food g2).
Proof.
  intros F S1 S2.
  destruct (food_step_bodies _ _ _ S1) as [B1 B2].
  destruct S2 as [(_ & v & Gv & Fa & Fb & ->) | (E2 & ->)].
  - destruct (fed_fields P2 v g1) as (_ & _ & _ & -> & _).
    rewrite B1 in Fa. rewrite B2 in Fb. split; auto.
  - destruct S1 as [(_ & v & Gv & Fa & Fb & ->) | (E1 & ->)].
    + destruct (fed_fields P1 v (advance g)) as (_ & _ & _ & -> & _). split; auto.
    + cbn [snake_of] in E1, E2. apply free_of_advance; assumption.
Qed.

(** After the power-up checks of a tick the power-up is at the sentinel or
    still on a free cell, and a power-up still shown is on a free cell. *)
Lemma collected_powerup_free (g g1 g2 : Game) :
  (powerup g = sentinel \/ free_of g (powerup g)) ->
  (showPowerup g = true -> free_of g (powerup g)) ->
  food_step P1 (advance g) g1 -> food_step P2 g1 g2 ->
  let gc := GameOps.checkPowerupCollision P2 (GameOps.checkPowerupCollision P1 g2) in
  (powerup gc = sentinel \/ free_of (advance g) (powerup gc)) /\
  (showPowerup gc = true -> free_of (advance g) (powerup gc)).
Proof.
  intros I1 I2 S1 S2 gc.
  destruct (food_step_fields _ _ _ S1) as (_ & W1 & V1 & F1).
  destruct (food_step_fields _ _ _ S2) as (_ & W2 & V2 & F2).
  assert (W : powerup g2 = powerup g) by (rewrite W2, W1; reflexivity).
  assert (V : showPowerup g2 = showPowerup g) by (rewrite V2, V1; reflexivity).
  assert (H1 : Snake.body (snake1 g2) = Snake.body (snake1 (advance g))).
  { destruct (F2 P1) as [A _], (F1 P1) as [B _]. cbn [snake_of] in A, B. congruence. }
  assert (H2 : Snake.body (snake2 g2) = Snake.body (snake2 (advance g))).
  { destruct (F2 P2) as [A _], (F1 P2) as [B _]. cbn [snake_of] in A, B. congruence. }
  subst gc.
  destruct (checkPowerupCollision_cases P1 g2) as [(_ & A & B) | (E1 & K1)].
  - destruct (checkPowerupCollision_cases P2 (GameOps.checkPowerupCollision P1 g2))
      as [(_ & A' & B') | (_ & ->)].
    + rewrite A', B'. split; [left; reflexivity | discriminate].
    + rewrite A, B. split; [left; reflexivity | discriminate].
  - rewrite K1.
    destruct (checkPowerupCollision_cases P2 g2) as [(_ & A' & B') | (E2 & ->)].
    + rewrite A', B'. split; [left; reflexivity | discriminate].
    + cbn [snake_of] in E1, E2. rewrite W, H1 in E1. rewrite W, H2 in E2.
      rewrite W, V.
      assert (K : free_of g (powerup g) -> free_of (advance g) (powerup g))
        by (intros Fr; apply free_of_advance; assumption).
      split; [destruct I1 as [I1 | I1]; [left | right]; auto | auto].
Qed.

Lemma checkCollisions_collectibles (st : State) :
  food (game (GameOps.checkCollisions st)) = food (game st) /\
  powerup (game (GameOps.checkCollisions st)) = powerup (game st) /\
  showPowerup (game (GameOps.checkCollisions st)) = showPowerup (game st) /\
  Snake.body (snake1 (game (GameOps.checkCollisions st))) = Snake.body (snake1 (game st)) /\
  Snake.body (snake2 (game (GameOps.checkCollisions st))) = Snake.body (snake2 (game st)).
Proof.
  destruct (checkCollisions_game st) as [-> | ->]; repeat split.
Qed.

Lemma collectibles_ok_update (fuel : nat) (st : State) (w : World) (st' : State) (w' : World) :
  collectibles_ok st -> GameOps.update fuel st w = Done (st', w') -> collectibles_ok st'.
Proof.
  intros (If & Ip & Is) H. destruct (running (game st)) eqn:Run.
  - apply update_describe in H
      as (g1 & g2 & st5 & S1 & S2 & E5 & T & _); [|exact Run].
    pose proof (collected_food_free _ _ _ If S1 S2) as Ff.
    destruct (collected_powerup_free _ _ _ Ip Is S1 S2) as [Fp Fs].
    destruct (collected_bodies _ _ _ S1 S2) as [Bc1 Bc2].
    set (gc := GameOps.checkPowerupCollision P2 (GameOps.checkPowerupCollision P1 g2)) in *.
    assert (Fc : food gc = food g2).
    { subst gc.
      destruct (checkPowerupCollision_fields P2 (GameOps.checkPowerupCollision P1 g2))
        as (_ & -> & _).
      destruct (checkPowerupCollision_fields P1 g2) as (_ & -> & _). reflexivity. }
    destruct (checkCollisions_collectibles (set_game gc st)) as (C1 & C2 & C3 & C4 & C5).
    rewrite <- E5 in C1, C2, C3, C4, C5. cbn [game set_game] in C1, C2, C3, C4, C5.
    destruct T as ((T1 & T2 & T3 & _) & _ & T).
    assert (B1 : Snake.body (snake1 (game st')) = Snake.body (snake1 (advance (game st))))
      by (rewrite T1, C4; exact Bc1).
    assert (B2 : Snake.body (snake2 (game st')) = Snake.body (snake2 (advance (game st))))
      by (rewrite T2, C5; exact Bc2).
    assert (K : forall c, free_of (advance (game st)) c -> free_of (game st') c).
    { intros c. apply free_of_bodies; assumption. }
    unfold collectibles_ok. rewrite T3, C1, Fc.
    split; [apply K; exact Ff|].
    destruct T as [(Ts & Tp) | [(Ts & Tp) | (Ts & G & Fa & Fb)]].
    + rewrite Tp, Ts, C2, C3.
      split; [destruct Fp as [Fp | Fp]; [left | right]; auto | auto].
    + rewrite Tp, Ts. split; [left; reflexivity | discriminate].
    + rewrite C4 in Fa. rewrite C5 in Fb. rewrite Bc1 in Fa. rewrite Bc2 in Fb.
      assert (Fr : free_of (game st') (powerup (game st'))).
      { apply K. split; auto. }
      split; [right; exact Fr | intros _; exact Fr].
  - apply update_inv in H as [(_ & -> & _) | (E & _)]; [|congruence].
    split; auto.
Qed.

Lemma collectibles_ok_keys (keys : Key -> bool) (st : State) :
  collectibles_ok st -> collectibles_ok (handleInput keys st).
Proof.
  destruct (handleInput_steering keys st)
    as (_ & _ & _ & F & W & _ & _ & _ & V & _ & S).
  destruct (S P1) as (B1 & _), (S P2) as (B2 & _). cbn [snake_of] in B1, B2.
  assert (K : forall c, free_of (game st) c -> free_of (game (handleInput keys st)) c).
  { intros c. apply free_of_bodies; assumption. }
  intros (If & Ip & Is). unfold collectibles_ok. rewrite F, W, V.
  split; [auto|]. split; [destruct Ip as [Ip | Ip]; [left | right]; auto | auto].
Qed.

Lemma collectibles_ok_reset (fuel : nat) (st : State) (w : World) (st' : State) (w' : World) :
  GameOps.reset fuel st w = Done (st', w') -> collectibles_ok st'.
Proof.
  intros H. apply reset_restores in H.
  destruct H as (_ & _ & _ & _ & _ & _ & _ & _ & G & Fa & Fb & W & V & _).
  unfold collectibles_ok, free_of. rewrite W, V.
  split; [auto|]. split; [left; reflexivity | discriminate].
Qed.

Lemma collectibles_ok_start (fuel : nat) (w : World) (st : State) (w' : World) :
  start fuel w = Done (st, w') -> collectibles_ok st.
Proof.
  intros H. apply start_inv in H as (_ & _ & Ff & Fp & _).
  split; [exact Ff|]. split; [right; exact Fp | intros _; exact Fp].
Qed.

(** X3.  In every state the program can reach the food lies on a cell of the
    grid that is on neither snake, the power-up is at the sentinel or on such
    a cell, and a power-up that is shown is on such a cell. *)
Theorem reachable_collectibles_ok (st : State) : reachable st -> collectibles_ok st.
Proof.
  apply reachable_keeps.
  - exact collectibles_ok_start.
  - intros s t am I. exact I.
  - exact collectibles_ok_update.
  - intros fuel s w s' w' _ H. exact (collectibles_ok_reset fuel s w s' w' H).
  - exact collectibles_ok_keys.
Qed.

Lemma reachable_collectibles_ok_witness :
  match play 5 [0; 0; 24; 24; 0] steady (firstn 40 (circling 30)) with
  | Done (st, _) => reachable st /\ collectibles_ok st
  | Spinning => False
  end.
Proof.
  destruct (play 5 [0; 0; 24; 24; 0] steady (firstn 40 (circling 30)))
    as [[st w]|] eqn:E.
  - pose proof (play_reachable _ _ _ _ _ _ E) as R.
    split; [exact R | exact (reachable_collectibles_ok st R)].
  - vm_compute in E. discriminate E.
Defined.

Lemma isOutOfBounds_false (s : Snake.t) :
  GameOps.isOutOfBounds s = false <-> in_grid (front (Snake.body s)).
Proof.
  unfold GameOps.isOutOfBounds, in_grid.
  rewrite !orb_false_iff, !Z.ltb_ge, !Z.geb_leb, !Z.leb_gt. lia.
Qed.

Lemma NoDup_app_inv {A : Type} (a b : list A) :
  NoDup (a ++ b) -> NoDup a /\ NoDup b /\ forall x, In x a -> ~ In x b.
Proof.
  intros N. split; [exact (NoDup_app_remove_r _ _ N)|].
  split; [exact (NoDup_app_remove_l _ _ N)|].
  induction a as [|y a IH]; [intros x []|].
  cbn in N. apply NoDup_cons_iff in N as [Ny N].
  intros x [-> | H].
  - intros Hb. apply Ny. apply in_or_app. right; exact Hb.
  - apply IH; assumption.
Qed.

Lemma NoDup_removelast {A : Type} (l : list A) : NoDup l -> NoDup (removelast l).
Proof.
  destruct l as [|x r] eqn:E; [auto|]. rewrite <- E. intros N.
  rewrite (app_removelast_last x) in N by (rewrite E; discriminate).
  exact (NoDup_app_remove_r _ _ N).
Qed.

Lemma In_removelast {A : Type} (x : A) (l : list A) : In x (removelast l) -> In x l.
Proof.
  induction l as [|y [|z r] IH]; cbn [removelast]; [auto | intros [] |].
  intros [-> | H]; [left; reflexivity | right; apply IH; exact H].
Qed.

(** The advanced body: the new head in front of the old body, whole or
    without its last segment. *)
Lemma Snake_update_shape (s : Snake.t) :
  Snake.body s <> [] ->
  exists t,
    Snake.body (Snake.update s) = head_after s :: t /\
    incl t (Snake.body s) /\
    (NoDup (Snake.body s) -> NoDup t) /\
    (length t <= length (Snake.body s))%nat.
Proof.
  destruct s as [[|h r] d a]; [cbn; congruence|]; intros _.
  unfold Snake.update, head_after;
    cbn [Snake.body Snake.direction Snake.addSegment front hd].
  destruct a; cbn [negb Snake.body].
  - exists (h :: r). split; [reflexivity|]. split; [apply incl_refl|]. auto.
  - change (removelast (Vector2Add h d :: h :: r))
      with (Vector2Add h d :: removelast (h :: r)).
    exists (removelast (h :: r)). split; [reflexivity|].
    split; [intros x; apply In_removelast|].
    split; [apply NoDup_removelast|].
    rewrite removelast_length_cons. cbn [length]. lia.
Qed.

Lemma advanced_bodies_NoDup (n1 n2 : Vector2) (t1 t2 o1 o2 : deque) :
  incl t1 o1 -> incl t2 o2 -> NoDup t1 -> NoDup t2 ->
  (forall x, In x o1 -> ~ In x o2) ->
  ~ In n1 t1 -> ~ In n2 t2 -> ~ In n1 (n2 :: t2) -> ~ In n2 (n1 :: t1) ->
  NoDup ((n1 :: t1) ++ (n2 :: t2)).
Proof.
  intros I1 I2 N1 N2 D S1 S2 C1 C2.
  apply NoDup_app.
  - constructor; assumption.
  - constructor; assumption.
  - intros x [<- | H]; [exact C1|].
    intros [<- | H2].
    + apply C2. right; exact H.
    + apply (D x); auto.
Qed.

Lemma start_bodies_ok :
  (forall c, In c ([mkV 6 9; mkV 5 9; mkV 4 9] ++ [mkV 18 9; mkV 19 9; mkV 20 9]) ->
             in_grid c) /\
  NoDup ([mkV 6 9; mkV 5 9; mkV 4 9] ++ [mkV 18 9; mkV 19 9; mkV 20 9]).
Proof.
  split.
  - intros c H. cbn in H.
    repeat (destruct H as [<- | H]; [unfold in_grid, cellCount; cbn; lia|]). destruct H.
  - cbn.
    repeat (constructor;
            [cbn; intros H;
             repeat (destruct H as [H | H]; [discriminate H|]); exact H|]).
    constructor.
Qed.

Lemma not_elementInDeque (c : Vector2) (b : deque) :
  elementInDeque c b = false -> ~ In c b.
Proof. intros H I. apply elementInDeque_In in I. congruence. Qed.

Lemma bodies_ok_update (fuel : nat) (st : State) (w : World) (st' : State) (w' : World) :
  snakes_ok st -> bodies_ok st ->
  GameOps.update fuel st w = Done (st', w') -> bodies_ok st'.
Proof.
  intros [O1 O2] I H Run'. destruct (running (game st)) eqn:Run.
  - destruct (I Run) as [Ig Nd].
    apply update_describe in H
      as (g1 & g2 & st5 & S1 & S2 & E5 & ((T1 & T2 & _) & R7 & _) & _); [|exact Run].
    destruct (collected_bodies _ _ _ S1 S2) as [Bc1 Bc2].
    set (gc := GameOps.checkPowerupCollision P2 (GameOps.checkPowerupCollision P1 g2)) in *.
    destruct (checkCollisions_collectibles (set_game gc st)) as (_ & _ & _ & C4 & C5).
    rewrite <- E5 in C4, C5. cbn [game set_game] in C4, C5.
    rewrite T1, T2, C4, C5, Bc1, Bc2.
    change (snake1 (advance (game st))) with (Snake.update (snake1 (game st))) in *.
    change (snake2 (advance (game st))) with (Snake.update (snake2 (game st))) in *.
    destruct (checkCollisions_cases (set_game gc st))
      as [(Q & _) | (_ & winner & _ & E)];
      [|rewrite E in E5; subst st5; cbn in R7; congruence].
    unfold collision_rules in Q. cbn [existsb fst game set_game] in Q.
    rewrite !orb_false_iff in Q. destruct Q as (Q1 & Q2 & Q3 & Q4 & Q5 & Q6 & _).
    apply isOutOfBounds_false in Q1, Q2.
    unfold GameOps.selfCollision in Q3, Q4.
    rewrite Bc1 in Q1, Q3, Q5, Q6. rewrite Bc2 in Q2, Q4, Q5, Q6.
    assert (N1 : Snake.body (snake1 (game st)) <> []).
    { destruct O1 as (L & _). destruct (Snake.body (snake1 (game st)));
        [cbn in L; lia | discriminate]. }
    assert (N2 : Snake.body (snake2 (game st)) <> []).
    { destruct O2 as (L & _). destruct (Snake.body (snake2 (game st)));
        [cbn in L; lia | discriminate]. }
    destruct (Snake_update_shape _ N1) as (t1 & E1 & I1 & K1 & _).
    destruct (Snake_update_shape _ N2) as (t2 & E2 & I2 & K2 & _).
    rewrite E1 in *. rewrite E2 in *. cbn [front hd tl] in Q1, Q2, Q3, Q4, Q5, Q6.
    apply NoDup_app_inv in Nd as (Nd1 & Nd2 & Dj).
    split.
    + intros c Hc. apply in_app_or in Hc as [[<- | Hc] | [<- | Hc]];
        [exact Q1 | apply Ig, in_or_app; left; apply I1; exact Hc
         | exact Q2 | apply Ig, in_or_app; right; apply I2; exact Hc].
    + apply (advanced_bodies_NoDup _ _ _ _ _ _ I1 I2 (K1 Nd1) (K2 Nd2) Dj);
        apply not_elementInDeque; assumption.
  - apply update_inv in H as [(_ & -> & _) | (E & _)]; congruence.
Qed.

Lemma bodies_ok_keys (keys : Key -> bool) (st : State) :
  bodies_ok st -> bodies_ok (handleInput keys st).
Proof.
  destruct (handleInput_steering keys st)
    as (_ & _ & _ & _ & _ & R & _ & _ & _ & _ & S).
  destruct (S P1) as (B1 & _), (S P2) as (B2 & _). cbn [snake_of] in B1, B2.
  unfold bodies_ok. rewrite R, B1, B2. auto.
Qed.

Lemma bodies_ok_reset (fuel : nat) (st : State) (w : World) (st' : State) (w' : World) :
  GameOps.reset fuel st w = Done (st', w') -> bodies_ok st'.
Proof.
  intros H. apply reset_restores in H. destruct H as (B1 & _ & B2 & _).
  unfold bodies_ok. rewrite B1, B2. intros _. exact start_bodies_ok.
Qed.

Lemma bodies_ok_start (fuel : nat) (w : World) (st : State) (w' : World) :
  start fuel w = Done (st, w') -> bodies_ok st.
Proof.
  intros H. apply start_inv in H as (S1 & S2 & _).
  unfold bodies_ok. rewrite S1, S2. intros _. exact start_bodies_ok.
Qed.

(** X4.  In every state the program can reach in which the game is still
    running, every segment of both snakes lies inside the grid and no cell is
    occupied by two segments, of the same snake or of different snakes. *)
Theorem reachable_bodies_ok (st : State) : reachable st -> bodies_ok st.
Proof.
  intros R.
  apply (reachable_keeps (fun s => snakes_ok s /\ bodies_ok s)); [| | | | |exact R].
  - intros fuel w s w' H. split; [eapply snakes_ok_start | eapply bodies_ok_start]; exact H.
  - intros s t am I. exact I.
  - intros fuel s w s' w' [O I] H.
    split; [eapply snakes_ok_update | eapply bodies_ok_update]; eassumption.
  - intros fuel s w s' w' _ H.
    split; [eapply snakes_ok_reset | eapply bodies_ok_reset]; exact H.
  - intros keys s [O I]. split; [apply snakes_ok_keys | apply bodies_ok_keys]; assumption.
Qed.

Lemma reachable_bodies_ok_witness :
  match play 5 [0; 0; 24; 24; 0] steady (firstn 40 (circling 30)) with
  | Done (st, _) => reachable st /\ running (game st) = true /\ bodies_ok st
  | Spinning => False
  end.
Proof.
  destruct (play 5 [0; 0; 24; 24; 0] steady (firstn 40 (circling 30)))
    as [[st w]|] eqn:E.
  - pose proof (play_reachable _ _ _ _ _ _ E) as R.
    split; [exact R|]. split; [|exact (reachable_bodies_ok st R)].
    vm_compute in E. injection E as <- _. reflexivity.
  - vm_compute in E. discriminate E.
Defined.

Lemma in_grid_all_cells (c : Vector2) : in_grid c -> In c all_cells.
Proof.
  intros G. pose proof (all_cells_covering [] c G) as H.
  unfold occupied in H. cbn [elementInDeque] in H. rewrite orb_false_r in H.
  apply elementInDeque_In. exact H.
Qed.

(** Segments on distinct cells of the grid are at most 625. *)
Lemma grid_holds (l : deque) :
  (forall c, In c l -> in_grid c) -> NoDup l -> (length l <= 625)%nat.
Proof.
  intros G N.
  change 625%nat with (length all_cells).
  apply NoDup_incl_length; [exact N|]. intros c H. apply in_grid_all_cells, G, H.
Qed.

(** The food and power-up checks of a tick on one snake's score: nothing, or
    growth pending and one, five or six points more. *)
Lemma collected_scores (g0 g1 g2 : Game) (p : Player) :
  food_step P1 g0 g1 -> food_step P2 g1 g2 ->
  let gc := GameOps.checkPowerupCollision P2 (GameOps.checkPowerupCollision P1 g2) in
  (score_of p gc = score_of p g0 /\
   Snake.addSegment (snake_of p gc) = Snake.addSegment (snake_of p g0)) \/
  (Snake.addSegment (snake_of p gc) = true /\
   (score_of p gc = int_wrap (score_of p g0 + 1) \/
    score_of p gc = int_wrap (score_of p g0 + 5) \/
    score_of p gc = int_wrap (int_wrap (score_of p g0 + 1) + 5))).
Proof.
  intros S1 S2.
  destruct g0 as [[b1 d1 a1] [b2 d2 a2] fd pw rn sc1 sc2 sh on off gap].
  destruct S1 as [(_ & v & _ & _ & _ & ->) | (_ & ->)];
    destruct S2 as [(_ & v' & _ & _ & _ & ->) | (_ & ->)];
    unfold GameOps.checkPowerupCollision;
    cbn -[int_wrap Vector2Equals front];
    repeat match goal with
           | |- context [if ?c then _ else _] =>
               destruct c; cbn -[int_wrap Vector2Equals front]
           end;
    destruct p; cbn -[int_wrap]; auto 10.
Qed.

Lemma checkCollisions_scores (st : State) (p : Player) :
  score_of p (game (GameOps.checkCollisions st)) = score_of p (game st).
Proof.
  destruct (checkCollisions_game st) as [-> | ->]; destruct p; reflexivity.
Qed.

Lemma timers_step_scores (g g' : Game) (p : Player) :
  timers_step g g' -> score_of p g' = score_of p g.
Proof. intros ((_ & _ & _ & A & B & _) & _). destruct p; assumption. Qed.

Lemma snake_ok_nonempty (s : Snake.t) : snake_ok s -> Snake.body s <> [].
Proof.
  intros (L & _). destruct (Snake.body s); [cbn in L; lia | discriminate].
Qed.

Lemma lengths_ok_update (fuel : nat) (st : State) (w : World) (st' : State) (w' : World) :
  snakes_ok st -> bodies_ok st -> lengths_ok st ->
  GameOps.update fuel st w = Done (st', w') -> lengths_ok st'.
Proof.
  intros [O1 O2] I L H. destruct (running (game st)) eqn:Run.
  - destruct (I Run) as [Ig Nd].
    pose proof (grid_holds _ Ig Nd) as Le. rewrite length_app in Le.
    destruct (tick_snakes fuel st w st' w' P1 Run H) as [B1 _].
    destruct (tick_snakes fuel st w st' w' P2 Run H) as [B2 _].
    cbn [snake_of] in B1, B2. unfold lengths_ok. rewrite B1, B2.
    destruct (Snake_update_facts _ (snake_ok_nonempty _ O1)) as (_ & _ & -> & _).
    destruct (Snake_update_facts _ (snake_ok_nonempty _ O2)) as (_ & _ & -> & _).
    destruct (Snake.addSegment (snake1 (game st))), (Snake.addSegment (snake2 (game st)));
      lia.
  - apply update_inv in H as [(_ & -> & _) | (E & _)]; [exact L | congruence].
Qed.

Lemma scores_ok_update (fuel : nat) (st : State) (w : World) (st' : State) (w' : World) :
  snakes_ok st -> bodies_ok st -> scores_ok st ->
  GameOps.update fuel st w = Done (st', w') -> scores_ok st'.
Proof.
  intros O I Sc H. destruct (running (game st)) eqn:Run.
  - destruct (I Run) as [Ig Nd].
    pose proof (grid_holds _ Ig Nd) as Le. rewrite length_app in Le.
    intros p. specialize (Sc p).
    assert (Op : snake_ok (snake_of p (game st))) by (destruct O, p; assumption).
    assert (Lp : (length (Snake.body (snake_of p (game st))) <= 625)%nat)
      by (destruct p; cbn [snake_of]; lia).
    destruct (tick_snakes fuel st w st' w' p Run H) as [Bp _].
    apply update_describe in H
      as (g1 & g2 & st5 & S1 & S2 & E5 & T & _); [|exact Run].
    pose proof (collected_scores _ _ _ p S1 S2) as C. cbv zeta in C.
    set (gc := GameOps.checkPowerupCollision P2 (GameOps.checkPowerupCollision P1 g2)) in *.
    assert (Es : score_of p (game st') = score_of p gc).
    { rewrite (timers_step_scores _ _ p T), E5, checkCollisions_scores. reflexivity. }
    assert (Ea : snake_of p (game st') = snake_of p gc).
    { rewrite (timers_step_snakes _ _ p T), E5, checkCollisions_snakes. reflexivity. }
    destruct (advance_fields (game st)) as (_ & _ & _ & _ & A1 & A2 & A).
    assert (As : score_of p (advance (game st)) = score_of p (game st))
      by (destruct p; assumption).
    rewrite As, (A p) in C.
    destruct (Snake_update_facts _ (snake_ok_nonempty _ Op)) as (_ & _ & Len & Ad).
    rewrite Es. unfold pending in *. rewrite Ea at 2. rewrite Bp, Len.
    destruct (Snake.addSegment (snake_of p (game st)));
      destruct C as [(-> & ->) | (-> & [-> | [-> | ->]])]; rewrite ?Ad;
      rewrite ?int_wrap_id; unfold INT_MIN, INT_MAX; try lia;
      rewrite ?int_wrap_id; unfold INT_MIN, INT_MAX; lia.
  - apply update_inv in H as [(_ & -> & _) | (E & _)]; [exact Sc | congruence].
Qed.

Lemma scores_lengths_keys (keys : Key -> bool) (st : State) :
  lengths_ok st /\ scores_ok st ->
  lengths_ok (handleInput keys st) /\ scores_ok (handleInput keys st).
Proof.
  destruct (handleInput_steering keys st)
    as (_ & _ & _ & _ & _ & _ & C1 & C2 & _ & _ & S).
  intros [L Sc]. split.
  - destruct (S P1) as (B1 & _), (S P2) as (B2 & _). cbn [snake_of] in B1, B2.
    unfold lengths_ok. rewrite B1, B2. exact L.
  - intros p. destruct (S p) as (B & A & _). unfold pending. rewrite B, A.
    replace (score_of p (game (handleInput keys st))) with (score_of p (game st))
      by (destruct p; cbn [score_of]; congruence).
    exact (Sc p).
Qed.

Lemma scores_lengths_reset (fuel : nat) (st : State) (w : World) (st' : State) (w' : World) :
  GameOps.reset fuel st w = Done (st', w') -> lengths_ok st' /\ scores_ok st'.
Proof.
  intros H. apply reset_restores in H.
  destruct H as (B1 & _ & B2 & _ & _ & _ & C1 & C2 & _).
  split.
  - unfold lengths_ok. rewrite B1, B2. cbn. lia.
  - intros p. unfold pending.
    destruct p; cbn [snake_of score_of]; rewrite ?B1, ?B2, ?C1, ?C2; cbn [length];
      match goal with |- context [Snake.addSegment ?s] => destruct (Snake.addSegment s) end;
      lia.
Qed.

Lemma scores_lengths_start (fuel : nat) (w : World) (st : State) (w' : World) :
  start fuel w = Done (st, w') -> lengths_ok st /\ scores_ok st.
Proof.
  intros H. apply start_inv in H as (S1 & S2 & _ & _ & _ & C1 & C2 & _).
  split.
  - unfold lengths_ok. rewrite S1, S2. cbn. lia.
  - intros p. unfold pending.
    destruct p; cbn [snake_of score_of]; rewrite ?S1, ?S2, ?C1, ?C2; cbn; lia.
Qed.

Lemma all_ok_start (fuel : nat) (w : World) (st : State) (w' : World) :
  start fuel w = Done (st, w') -> all_ok st.
Proof.
  intros H. destruct (scores_lengths_start _ _ _ _ H).
  split; [eapply snakes_ok_start; exact H|].
  split; [eapply bodies_ok_start; exact H|].
  split; [assumption|]. split; [assumption|].
  split; [eapply collectibles_ok_start | eapply flags_ok_start]; exact H.
Qed.

Lemma all_ok_clock (st : State) (t : Q) (am : bool) :
  all_ok st -> all_ok (mkState (game st) t (gameOver st) am (winnerMessage st)).
Proof. intros I. exact I. Qed.

Lemma all_ok_update (fuel : nat) (st : State) (w : World) (st' : State) (w' : World) :
  all_ok st -> GameOps.update fuel st w = Done (st', w') -> all_ok st'.
Proof.
  intros (O & B & L & Sc & C & F) H.
  split; [eapply snakes_ok_update; eassumption|].
  split; [eapply bodies_ok_update; eassumption|].
  split; [eapply lengths_ok_update; eassumption|].
  split; [eapply scores_ok_update; eassumption|].
  split; [eapply collectibles_ok_update | eapply flags_ok_update]; eassumption.
Qed.

Lemma all_ok_reset (fuel : nat) (st : State) (w : World) (st' : State) (w' : World) :
  all_ok st -> GameOps.reset fuel st w = Done (st', w') -> all_ok st'.
Proof.
  intros _ H. destruct (scores_lengths_reset _ _ _ _ _ H).
  split; [eapply snakes_ok_reset; exact H|].
  split; [eapply bodies_ok_reset; exact H|].
  split; [assumption|]. split; [assumption|].
  split; [eapply collectibles_ok_reset | eapply flags_ok_reset]; exact H.
Qed.

Lemma all_ok_keys (keys : Key -> bool) (st : State) :
  all_ok st -> all_ok (handleInput keys st).
Proof.
  intros (O & B & L & Sc & C & F).
  destruct (scores_lengths_keys keys st (conj L Sc)).
  split; [apply snakes_ok_keys; exact O|].
  split; [apply bodies_ok_keys; exact B|].
  split; [assumption|]. split; [assumption|].
  split; [apply collectibles_ok_keys; exact C | apply flags_ok_keys; exact F].
Qed.

(** Every invariant of the reachable states at once. *)
Lemma reachable_all (st : State) :
  reachable st ->
  snakes_ok st /\ bodies_ok st /\ lengths_ok st /\ scores_ok st /\
  collectibles_ok st /\ flags_ok st.
Proof.
  intros R.
  apply (reachable_keeps all_ok all_ok_start all_ok_clock all_ok_update all_ok_reset
                         all_ok_keys st R).
Qed.

(** X5.  In every state the program can reach, each score is at least 0 and at
    most six times the number of segments its snake has gained or is about to
    gain (body length minus three, plus one when growth is pending); the two
    bodies together have at most 627 segments, so a score never exceeds 3732
    and the [int] that holds it never overflows. *)
Theorem reachable_scores_bounded (st : State) :
  reachable st ->
  scores_ok st /\ lengths_ok st /\
  forall p, 0 <= score_of p (game st) <= 3732 /\
            int_wrap (score_of p (game st) + 6) = score_of p (game st) + 6.
Proof.
  intros R. destruct (reachable_all st R) as ([O1 O2] & _ & L & Sc & _).
  split; [exact Sc|]. split; [exact L|].
  intros p. pose proof (Sc p) as B. unfold lengths_ok in L.
  destruct O1 as (L1 & _), O2 as (L2 & _).
  assert (K : 0 <= score_of p (game st) <= 3732).
  { unfold pending in B.
    destruct p; cbn [snake_of] in B;
      match type of B with context [Snake.addSegment ?s] =>
        destruct (Snake.addSegment s) end; lia. }
  split; [exact K|]. apply int_wrap_id. unfold INT_MIN, INT_MAX. lia.
Qed.

Lemma reachable_scores_bounded_witness :
  match play 5 [12; 9; 24; 24; 0; 3; 3] steady (repeat no_keys 6) with
  | Done (st, _) => reachable st /\ 0 <= score_of P1 (game st) <= 3732
  | Spinning => False
  end.
Proof.
  destruct (play 5 [12; 9; 24; 24; 0; 3; 3] steady (repeat no_keys 6))
    as [[st w]|] eqn:E.
  - pose proof (play_reachable _ _ _ _ _ _ E) as R.
    split; [exact R|].
    destruct (reachable_scores_bounded st R) as (_ & _ & K). exact (proj1 (K P1)).
  - vm_compute in E. discriminate E.
Defined.

(** ** The loop while the game is over *)

Lemma frame_game_over (fuel : nat) (keys : Key -> bool) (st : State) (w : World) :
  gameOver st = true -> keys KEY_SPACE = false ->
  frame fuel keys st w = Done (st, w).
Proof.
  intros G K. unfold frame, bind. rewrite G. cbn [negb]. unfold ret at 1.
  rewrite G, K. cbn [andb]. unfold ret at 1. unfold ret, handleInput.
  rewrite G. reflexivity.
Qed.

(** X6.  Once the game is over, frames in which SPACE is not pressed change
    nothing at all, whatever other keys are pressed and however long it
    lasts: the state stays as it is, and neither the clock nor the random
    generator is read. *)
Theorem game_over_is_frozen (fuel : nat) (inputs : list (Key -> bool))
        (st : State) (w : World) :
  gameOver st = true ->
  (forall keys, In keys inputs -> keys KEY_SPACE = false) ->
  frames fuel inputs st w = Done (st, w).
Proof.
  intros G. induction inputs as [|keys rest IH]; intros K; cbn [frames].
  - reflexivity.
  - unfold bind. rewrite frame_game_over; [|exact G|apply K; left; reflexivity].
    apply IH. intros k H. apply K. right; exact H.
Qed.

Lemma game_over_is_frozen_witness :
  (gameOver (GameOps.declareWinner 1 food_in_front) = true /\
   (forall keys, In keys [pressing [KEY_UP; KEY_A]; no_keys] -> keys KEY_SPACE = false)) /\
  frames 5 [pressing [KEY_UP; KEY_A]; no_keys] (GameOps.declareWinner 1 food_in_front)
         calm_world
  = Done (GameOps.declareWinner 1 food_in_front, calm_world).
Proof.
  assert (G : gameOver (GameOps.declareWinner 1 food_in_front) = true) by reflexivity.
  assert (K : forall keys, In keys [pressing [KEY_UP; KEY_A]; no_keys] ->
                           keys KEY_SPACE = false).
  { intros keys [<- | [<- | []]]; reflexivity. }
  split; [split; assumption|].
  exact (game_over_is_frozen 5 _ _ calm_world G K).
Defined.

(** ** Turning back onto the neck *)

Lemma reversed_self_collision (s : Snake.t) :
  (3 <= length (Snake.body s))%nat ->
  head_after s = nth 1 (Snake.body s) (mkV 0 0) ->
  GameOps.selfCollision (Snake.update s) = true.
Proof.
  destruct s as [[|h [|n [|x r]]] d a]; cbn [Snake.body length]; intros L; try lia;
    clear L.
  unfold head_after; cbn [Snake.body Snake.direction front hd nth]. intros E.
  unfold GameOps.selfCollision, Snake.update;
    cbn [Snake.body Snake.direction Snake.addSegment front hd].
  rewrite E. destruct a; cbn [negb Snake.body].
  - cbn [front hd tl elementInDeque]. rewrite Vector2Equals_refl.
    destruct (Vector2Equals h n); reflexivity.
  - change (removelast (n :: h :: n :: x :: r)) with (n :: h :: n :: removelast (x :: r)).
    cbn [front hd tl elementInDeque]. rewrite Vector2Equals_refl.
    destruct (Vector2Equals h n); reflexivity.
Qed.

Lemma selfCollision_body (s s' : Snake.t) :
  Snake.body s' = Snake.body s -> GameOps.selfCollision s' = GameOps.selfCollision s.
Proof. unfold GameOps.selfCollision. intros ->. reflexivity. Qed.

(** Whatever a tick returns after such a turn, the game is over. *)
Lemma reversed_tick (fuel : nat) (st : State) (w : World) (st' : State) (w' : World)
      (p : Player) :
  running (game st) = true ->
  (3 <= length (Snake.body (snake_of p (game st))))%nat ->
  head_after (snake_of p (game st)) = nth 1 (Snake.body (snake_of p (game st))) (mkV 0 0) ->
  GameOps.update fuel st w = Done (st', w') ->
  gameOver st' = true /\ running (game st') = false.
Proof.
  intros Run L Rev H.
  apply update_describe in H
    as (g1 & g2 & st5 & S1 & S2 & E5 & (_ & R7 & _) & _ & G & _); [|exact Run].
  destruct (collected_snakes (game st) g1 g2 p S1 S2) as (_ & Bp & _).
  set (gc := GameOps.checkPowerupCollision P2 (GameOps.checkPowerupCollision P1 g2)) in *.
  assert (Sc : GameOps.selfCollision (snake_of p gc) = true).
  { rewrite (selfCollision_body _ _ Bp). apply reversed_self_collision; assumption. }
  rewrite G, R7.
  destruct (checkCollisions_cases (set_game gc st))
    as [(Q & _) | (_ & winner & _ & E)].
  - exfalso. unfold collision_rules in Q. cbn [existsb fst game set_game] in Q.
    rewrite !orb_false_iff in Q. destruct Q as (_ & _ & Q3 & Q4 & _).
    destruct p; cbn [snake_of] in Sc; congruence.
  - rewrite E in E5. subst st5. split; reflexivity.
Qed.

(** X7.  A snake of at least three segments whose direction points from its
    head to its neck collides with itself on the next tick.  The tick returns
    as soon as its loops have enough rounds, provided the random generator
    keeps delivering a cell that is on neither body, and the game is over
    after it, whatever else happens in that tick; no tick from such a state
    returns with the game still running. *)
Theorem reversing_ends_the_game (st : State) (w : World) (p : Player) :
  running (game st) = true ->
  (3 <= length (Snake.body (snake_of p (game st))))%nat ->
  head_after (snake_of p (game st)) = nth 1 (Snake.body (snake_of p (game st))) (mkV 0 0) ->
  lively (Snake.body (snake1 (advance (game st))))
         (Snake.body (snake2 (advance (game st)))) (rand_src w) ->
  (exists st' w',
      returns_with (fun fuel => GameOps.update fuel st) w (st', w') /\
      gameOver st' = true /\ running (game st') = false) /\
  (forall fuel st' w',
      GameOps.update fuel st w = Done (st', w') ->
      gameOver st' = true /\ running (game st') = false).
Proof.
  intros Run L Rev Lv. split.
  - destruct (update_returns st w Run Lv)
      as (g1 & g2 & gc & st' & w' & _ & _ & _ & [n R] & _).
    exists st', w'. split; [exists n; exact R|].
    exact (reversed_tick n st w st' w' p Run L Rev (R n (le_n n))).
  - intros fuel st' w'. apply (reversed_tick fuel st w st' w' p); assumption.
Qed.

Lemma reversing_ends_the_game_witness :
  (running (game (steered P1 dirLeft food_in_front)) = true /\
   (3 <= length (Snake.body (snake_of P1 (game (steered P1 dirLeft food_in_front)))))%nat /\
   head_after (snake_of P1 (game (steered P1 dirLeft food_in_front)))
   = nth 1 (Snake.body (snake_of P1 (game (steered P1 dirLeft food_in_front)))) (mkV 0 0) /\
   lively (Snake.body (snake1 (advance (game (steered P1 dirLeft food_in_front)))))
          (Snake.body (snake2 (advance (game (steered P1 dirLeft food_in_front)))))
          (rand_src calm_world)) /\
  exists st' w',
    returns_with (fun fuel => GameOps.update fuel (steered P1 dirLeft food_in_front))
                 calm_world (st', w') /\
    gameOver st' = true /\ running (game st') = false.
Proof.
  assert (Run : running (game (steered P1 dirLeft food_in_front)) = true) by reflexivity.
  assert (L : (3 <= length (Snake.body
                              (snake_of P1 (game (steered P1 dirLeft food_in_front)))))%nat)
    by (cbn; lia).
  assert (Rev : head_after (snake_of P1 (game (steered P1 dirLeft food_in_front)))
                = nth 1 (Snake.body
                           (snake_of P1 (game (steered P1 dirLeft food_in_front))))
                      (mkV 0 0)) by reflexivity.
  assert (Lv : lively (Snake.body (snake1 (advance (game (steered P1 dirLeft food_in_front)))))
                      (Snake.body (snake2 (advance (game (steered P1 dirLeft food_in_front)))))
                      (rand_src calm_world))
    by (apply world_of_lively; reflexivity).
  split; [auto|].
  exact (proj1 (reversing_ends_the_game (steered P1 dirLeft food_in_front) calm_world P1
                                        Run L Rev Lv)).
Defined.

(** ** The sampling loop answers the first free sample *)

Lemma GenRandPos_while_first_free (a b : deque) (k : nat) :
  forall w fuel p,
    occupied a b p = true ->
    (forall j, (j < k)%nat -> occupied a b (sample w j) = true) ->
    occupied a b (sample w k) = false ->
    (k < fuel)%nat ->
    Food.GenRandPos_while fuel a b p w = Done (sample w k, drawn (2 * S k) w).
Proof.
  induction k as [|k IH]; intros w fuel p O Occ F Lt.
  - destruct fuel as [|fuel]; [lia|].
    rewrite GenRandPos_while_step by assumption.
    rewrite GenRandPos_while_free by assumption. reflexivity.
  - destruct fuel as [|fuel]; [lia|].
    rewrite GenRandPos_while_step by assumption.
    rewrite (IH (drawn 2 w) fuel (sample w 0)).
    + rewrite sample_drawn, drawn_drawn. do 2 f_equal. f_equal. lia.
    + apply Occ. lia.
    + intros j Hj. rewrite sample_drawn. apply Occ. lia.
    + rewrite sample_drawn. exact F.
    + lia.
Qed.

(** X8.  [GenRandPos] answers the first cell of the random stream that is on
    neither body: when the first [k] samples are occupied and the next one is
    free, it returns that sample for every number of rounds from [k] on, and
    it has consumed exactly the [2 * (k + 1)] random numbers of the samples it
    looked at and no clock reading. *)
Theorem GenRandPos_first_free (a b : deque) (w : World) (k fuel : nat) :
  (forall j, (j < k)%nat -> occupied a b (sample w j) = true) ->
  occupied a b (sample w k) = false ->
  (k <= fuel)%nat ->
  Food.GenRandPos fuel a b w = Done (sample w k, drawn (2 * S k) w).
Proof.
  intros Occ F Le. rewrite GenRandPos_eq.
  destruct k as [|k].
  - rewrite GenRandPos_while_free by assumption. reflexivity.
  - rewrite (GenRandPos_while_first_free a b k (drawn 2 w) fuel (sample w 0)).
    + rewrite sample_drawn, drawn_drawn. do 2 f_equal. f_equal. lia.
    + apply Occ. lia.
    + intros j Hj. rewrite sample_drawn. apply Occ. lia.
    + rewrite sample_drawn. exact F.
    + lia.
Qed.

Lemma GenRandPos_first_free_witness :
  ((forall j, (j < 2)%nat ->
              occupied start_body1 start_body2
                       (sample (world_of [6; 9; 19; 9; 12; 9] steady) j) = true) /\
   occupied start_body1 start_body2 (sample (world_of [6; 9; 19; 9; 12; 9] steady) 2)
   = false) /\
  Food.GenRandPos 7 start_body1 start_body2 (world_of [6; 9; 19; 9; 12; 9] steady)
  = Done (mkV 12 9, drawn 6 (world_of [6; 9; 19; 9; 12; 9] steady)).
Proof.
  assert (Occ : forall j, (j < 2)%nat ->
                  occupied start_body1 start_body2
                           (sample (world_of [6; 9; 19; 9; 12; 9] steady) j) = true).
  { intros [|[|j]] Hj; [reflexivity | reflexivity | lia]. }
  assert (F : occupied start_body1 start_body2
                       (sample (world_of [6; 9; 19; 9; 12; 9] steady) 2) = false)
    by reflexivity.
  split; [split; assumption|].
  exact (GenRandPos_first_free start_body1 start_body2 _ 2 7 Occ F ltac:(lia)).
Defined.

(** ** Several keys in one frame *)

Lemma steer_other (b : bool) (p q : Player) (ok : Snake.t -> bool) (d : Vector2)
      (st : State) :
  p <> q -> snake_of p (game (steer b q ok d st)) = snake_of p (game st).
Proof.
  intros N. unfold steer. destruct (b && ok _); [|reflexivity].
  destruct p, q; try congruence; reflexivity.
Qed.

Lemma steer_same (b : bool) (p : Player) (ok : Snake.t -> bool) (d : Vector2) (st : State) :
  Snake.direction (snake_of p (game (steer b p ok d st)))
  = if b && ok (snake_of p (game st)) then d
    else Snake.direction (snake_of p (game st)).
Proof. unfold steer. destruct (b && ok _); [destruct p|]; reflexivity. Qed.

Lemma handleInput_direction (keys : Key -> bool) (st : State) (p : Player) :
  gameOver st = false -> allowMove st = true ->
  Snake.direction (snake_of p (game (handleInput keys st)))
  = turned keys p (Snake.direction (snake_of p (game st))).
Proof.
  intros G A. unfold handleInput. rewrite G, A. cbn [negb andb]. destruct p.
  - rewrite !(steer_other _ P1 P2) by discriminate.
    repeat (rewrite steer_same; cbv beta). reflexivity.
  - repeat (rewrite steer_same; cbv beta).
    rewrite !(steer_other _ P2 P1) by discriminate. reflexivity.
Qed.

Lemma handleInput_idle (keys : Key -> bool) (st : State) :
  gameOver st = true \/ allowMove st = false -> handleInput keys st = st.
Proof.
  intros [G | A]; unfold handleInput; [rewrite G | rewrite A].
  - reflexivity.
  - rewrite andb_false_r. reflexivity.
Qed.

(** X9.  Keys pressed together in one frame are all handled, in the order up,
    down, right, left, each against the direction the one before has left.
    Whatever is pressed, a snake heading up or down is never turned back on
    itself; a snake heading right or left is turned back when its own key is
    not pressed, the opposite key is, and one of its up and down keys is
    pressed with it. *)
Theorem handleInput_key_combinations (keys : Key -> bool) (st : State) (p : Player)
        (h0 : Heading) :
  Snake.direction (snake_of p (game st)) = vec_of h0 ->
  let d' := Snake.direction (snake_of p (game (handleInput keys st))) in
  (vx (vec_of h0) = 0 -> d' <> opposite (vec_of h0)) /\
  (vy (vec_of h0) = 0 -> gameOver st = false -> allowMove st = true ->
   keys (key_of p HeadUp) = true \/ keys (key_of p HeadDown) = true ->
   keys (key_of p h0) = false ->
   (forall h, vec_of h = opposite (vec_of h0) -> keys (key_of p h) = true) ->
   d' = opposite (vec_of h0)).
Proof.
  intros H d'. subst d'.
  destruct (gameOver st) eqn:G; [|destruct (allowMove st) eqn:A].
  - rewrite handleInput_idle by (left; exact G). rewrite H.
    split; [destruct h0; cbn; intros _; discriminate | discriminate].
  - rewrite handleInput_direction by assumption. rewrite H. unfold turned.
    split.
    + destruct h0; cbn [vec_of dirUp dirDown dirRight dirLeft vx vy]; intros V;
        try discriminate V;
        destruct (keys (key_of p HeadUp)), (keys (key_of p HeadDown)),
                 (keys (key_of p HeadRight)), (keys (key_of p HeadLeft));
        cbn; discriminate.
    + intros V _ _ K Own Opp.
      destruct h0; cbn [vec_of dirUp dirDown dirRight dirLeft vx vy] in V;
        try discriminate V.
      * specialize (Opp HeadLeft eq_refl). rewrite Own, Opp.
        destruct K as [K | K]; rewrite K;
          destruct (keys (key_of p HeadUp)), (keys (key_of p HeadDown)); reflexivity.
      * specialize (Opp HeadRight eq_refl). rewrite Own, Opp.
        destruct K as [K | K]; rewrite K;
          destruct (keys (key_of p HeadUp)), (keys (key_of p HeadDown)); reflexivity.
  - rewrite handleInput_idle by (right; exact A). rewrite H.
    split; [destruct h0; cbn; intros _; discriminate | discriminate].
Qed.

Lemma handleInput_key_combinations_witness :
  Snake.direction (snake_of P1 (game (freed food_in_front))) = vec_of HeadRight /\
  Snake.direction
    (snake_of P1 (game (handleInput (pressing [KEY_UP; KEY_LEFT]) (freed food_in_front))))
  = dirLeft.
Proof.
  assert (H : Snake.direction (snake_of P1 (game (freed food_in_front))) = vec_of HeadRight)
    by reflexivity.
  split; [exact H|].
  refine (proj2 (handleInput_key_combinations (pressing [KEY_UP; KEY_LEFT])
                   (freed food_in_front) P1 HeadRight H)
                eq_refl eq_refl eq_refl (or_introl eq_refl) eq_refl _).
  intros [| | |] E; first [reflexivity | discriminate E].
Defined.

(** ** Frames between two ticks *)

Lemma before_tick_Qle_bool (st : State) (w : World) :
  before_tick st w 0 ->
  Qle_bool (2 # 10) (clock_src w (clock_idx w) - gameUpdateTime st) = false.
Proof.
  unfold before_tick. cbn [Nat.add]. intros Lt.
  destruct (Qle_bool (2 # 10) (clock_src w (clock_idx w) - gameUpdateTime st)) eqn:E;
    [|reflexivity].
  apply Qle_bool_iff in E. exfalso. exact (Qlt_not_le _ _ Lt E).
Qed.

Lemma frame_before_tick (fuel : nat) (keys : Key -> bool) (st : State) (w : World) :
  gameOver st = false -> before_tick st w 0 ->
  frame fuel keys st w = Done (handleInput keys st, read w).
Proof.
  intros G Lt. apply before_tick_Qle_bool in Lt.
  destruct st as [g t go am msg]. cbn [gameOver gameUpdateTime] in G, Lt. subst go.
  unfold frame, eventTriggered, GetTime, bind. cbn [negb gameOver gameUpdateTime].
  rewrite Lt. reflexivity.
Qed.

Lemma clocked_read (n : nat) (w : World) : clocked n (read w) = clocked (S n) w.
Proof. unfold clocked, read; cbn. f_equal. lia. Qed.

(** X10.  Frames that come less than a fifth of a second after the last tick
    move nothing: they read the clock once each, draw no random number, and
    change the state only through the key handling.  Once a change of
    direction has been accepted ([allowMove] is cleared) they leave the state
    as it is, whatever keys are pressed. *)
Theorem frames_between_ticks (fuel : nat) (inputs : list (Key -> bool)) (st : State)
        (w : World) :
  gameOver st = false ->
  (forall j, (j < length inputs)%nat -> before_tick st w j) ->
  frames fuel inputs st w
  = Done (fold_left (fun s keys => handleInput keys s) inputs st,
          clocked (length inputs) w) /\
  (allowMove st = false ->
   frames fuel inputs st w = Done (st, clocked (length inputs) w)).
Proof.
  revert st w. induction inputs as [|keys rest IH]; intros st w G B.
  - split; [|intros _]; destruct w; reflexivity.
  - assert (B0 : before_tick st w 0) by (apply B; cbn; lia).
    destruct (handleInput_steering keys st) as (T & G' & _).
    destruct (IH (handleInput keys st) (read w)) as [E1 E2].
    + rewrite G'. exact G.
    + intros j Hj. unfold before_tick. rewrite T.
      specialize (B (S j)). unfold before_tick in B. cbn [read clock_src clock_idx].
      replace (j + S (clock_idx w))%nat with (S j + clock_idx w)%nat by lia.
      apply B. cbn [length]. lia.
    + cbn [frames fold_left length]. unfold bind.
      rewrite (frame_before_tick fuel keys st w G B0).
      rewrite <- clocked_read. split; [exact E1|].
      intros A. rewrite (handleInput_idle keys st) in * by (right; exact A).
      apply E2. exact A.
Qed.

Lemma frames_between_ticks_witness :
  (gameOver food_in_front = false /\
   forall j, (j < length [pressing [KEY_UP]; pressing [KEY_S; KEY_LEFT]; no_keys])%nat ->
             before_tick food_in_front
                         (world_of [] (readings [(1 # 20)%Q; (1 # 10)%Q; (3 # 20)%Q])) j) /\
  frames 5 [pressing [KEY_UP]; pressing [KEY_S; KEY_LEFT]; no_keys] food_in_front
         (world_of [] (readings [(1 # 20)%Q; (1 # 10)%Q; (3 # 20)%Q]))
  = Done (food_in_front,
          clocked 3 (world_of [] (readings [(1 # 20)%Q; (1 # 10)%Q; (3 # 20)%Q]))).
Proof.
  assert (G : gameOver food_in_front = false) by reflexivity.
  assert (B : forall j,
             (j < length [pressing [KEY_UP]; pressing [KEY_S; KEY_LEFT]; no_keys])%nat ->
             before_tick food_in_front
                         (world_of [] (readings [(1 # 20)%Q; (1 # 10)%Q; (3 # 20)%Q])) j).
  { intros [|[|[|j]]] Hj; [reflexivity | reflexivity | reflexivity | cbn in Hj; lia]. }
  split; [split; assumption|].
  exact (proj2 (frames_between_ticks 5 _ food_in_front _ G B) eq_refl).
Defined.

(** ** What a tick does to a score *)

Lemma Snake_update_addSegment (s : Snake.t) : Snake.addSegment (Snake.update s) = false.
Proof.
  unfold Snake.update. destruct (Snake.addSegment s); reflexivity.
Qed.

(** X11.  In one tick of a running game a score goes up by 0, 1, 5 or 6 and
    never down (1 for the food, 5 for the power-up, 6 for both), as long as
    the [int] has room for six more points; and the tick leaves growth
    pending on a snake exactly when its score went up. *)
Theorem tick_score_step (fuel : nat) (st : State) (w : World) (st' : State) (w' : World)
        (p : Player) :
  running (game st) = true ->
  INT_MIN <= score_of p (game st) <= INT_MAX - 6 ->
  GameOps.update fuel st w = Done (st', w') ->
  let gain := score_of p (game st') - score_of p (game st) in
  (gain = 0 \/ gain = 1 \/ gain = 5 \/ gain = 6) /\
  (Snake.addSegment (snake_of p (game st')) = true <-> gain <> 0).
Proof.
  intros Run Room H gain. subst gain.
  apply update_describe in H
    as (g1 & g2 & st5 & S1 & S2 & E5 & T & _); [|exact Run].
  pose proof (timers_step_scores _ _ p T) as Sc.
  destruct T as ((T1 & T2 & _) & _).
  assert (Ad : Snake.addSegment (snake_of p (game st'))
               = Snake.addSegment (snake_of p (game st5))).
  { destruct p; cbn [snake_of]; [rewrite T1 | rewrite T2]; reflexivity. }
  rewrite Sc, Ad, E5, checkCollisions_scores, checkCollisions_snakes.
  cbn [game set_game].
  assert (A0 : Snake.addSegment (snake_of p (advance (game st))) = false).
  { destruct p; apply Snake_update_addSegment. }
  assert (S0 : score_of p (advance (game st)) = score_of p (game st)).
  { destruct p; reflexivity. }
  unfold INT_MIN, INT_MAX in Room.
  destruct (collected_scores (advance (game st)) g1 g2 p S1 S2)
    as [(E & A) | (A & [E | [E | E]])]; rewrite A, E, ?A0, S0.
  - split; [left; lia|]. split; [discriminate | lia].
  - rewrite int_wrap_id by (unfold INT_MIN, INT_MAX; lia).
    split; [right; left; lia|]. split; [lia | reflexivity].
  - rewrite int_wrap_id by (unfold INT_MIN, INT_MAX; lia).
    split; [right; right; left; lia|]. split; [lia | reflexivity].
  - rewrite (int_wrap_id (score_of p (game st) + 1)) by (unfold INT_MIN, INT_MAX; lia).
    rewrite int_wrap_id by (unfold INT_MIN, INT_MAX; lia).
    split; [right; right; right; lia|]. split; [lia | reflexivity].
Qed.

Lemma tick_score_step_witness :
  (running (game food_in_front) = true /\
   INT_MIN <= score_of P1 (game food_in_front) <= INT_MAX - 6) /\
  match GameOps.update 5 food_in_front calm_world with
  | Done (st', _) =>
      let gain := score_of P1 (game st') - score_of P1 (game food_in_front) in
      (gain = 0 \/ gain = 1 \/ gain = 5 \/ gain = 6) /\
      (Snake.addSegment (snake_of P1 (game st')) = true <-> gain <> 0)
  | Spinning => False
  end.
Proof.
  assert (Run : running (game food_in_front) = true) by reflexivity.
  assert (Room : INT_MIN <= score_of P1 (game food_in_front) <= INT_MAX - 6)
    by (vm_compute; split; discriminate).
  split; [split; assumption|].
  destruct (GameOps.update 5 food_in_front calm_world) as [[st' w']|] eqn:E.
  - exact (tick_score_step 5 food_in_front calm_world st' w' P1 Run Room E).
  - vm_compute in E. discriminate E.
Defined.

(** ** Drawing *)

(** The window position of the corner of a cell. *)
Lemma Snake_Draw_anchors (color : Color) (s : Snake.t) :
  map anchor (Snake_Draw color s)
  = map (fun c => (offset + vx c * cellSize, offset + vy c * cellSize)) (Snake.body s).
Proof. unfold Snake_Draw. rewrite map_map. reflexivity. Qed.

Lemma corner_injective (a b : Vector2) :
  (offset + vx a * cellSize, offset + vy a * cellSize)
  = (offset + vx b * cellSize, offset + vy b * cellSize) -> a = b.
Proof.
  destruct a as [xa ya], b as [xb yb]. cbn [vx vy]. intros E.
  pose proof (f_equal fst E) as Ex. pose proof (f_equal snd E) as Ey.
  cbn [fst snd] in Ex, Ey. unfold offset, cellSize in Ex, Ey. f_equal; lia.
Qed.

Lemma NoDup_map_corner (l : deque) :
  NoDup l ->
  NoDup (map (fun c => (offset + vx c * cellSize, offset + vy c * cellSize)) l).
Proof.
  induction 1 as [|x l N _ IH]; cbn [map]; constructor; [|exact IH].
  intros I. apply in_map_iff in I as (y & E & I).
  apply corner_injective in E. subst y. exact (N I).
Qed.

Lemma NoDup_snoc {A : Type} (l : list A) (x : A) :
  NoDup l -> ~ In x l -> NoDup (l ++ [x]).
Proof.
  induction 1 as [|y l N _ IH]; intros Nx; cbn [app].
  - constructor; [intros [] | constructor].
  - constructor.
    + intros I. apply in_app_iff in I as [I | [I | []]]; [exact (N I)|].
      apply Nx. left. symmetry. exact I.
    + apply IH. intros I. apply Nx. right. exact I.
Qed.

Lemma Snake_Draw_on_playfield (color : Color) (s : Snake.t) :
  (forall c, In c (Snake.body s) -> in_grid c) ->
  Forall on_playfield (Snake_Draw color s).
Proof.
  intros G. unfold Snake_Draw. apply Forall_forall. intros sh I.
  apply in_map_iff in I as (c & <- & I). specialize (G c I).
  unfold in_grid, cellCount in G.
  unfold on_playfield, playfield_side, offset, cellSize, cellCount. lia.
Qed.

Lemma Food_draw_on_playfield (texture : Picture) (pos : Vector2) :
  in_grid pos -> Forall on_playfield (Food_draw texture pos).
Proof.
  intros G. unfold Food_draw. constructor; [|constructor].
  exists pos. auto.
Qed.

(** X12.  Whatever a frame of a run draws of the game lies on the playfield:
    every segment is a cell-sized rectangle inside the 750 by 750 square
    behind the border, and the food and a visible power-up are put on the
    corner of a cell of the grid.  No two segments are drawn in the same
    place, the food is on no segment, and neither is the power-up.  When the
    game is over the two lines of text start inside the square. *)
Theorem drawing_on_playfield (fuel : nat) (keys : Key -> bool) (st : State) (w : World)
        (st1 : State) (w1 : World) :
  reachable st ->
  before_keys fuel keys st w = Done (st1, w1) ->
  Forall on_playfield (main_draw st1) /\
  (gameOver st1 = false ->
   NoDup (map anchor (Snake_Draw DARKGREEN (snake1 (game st1)) ++
                      Snake_Draw DARKBLUE (snake2 (game st1)) ++
                      Food_draw FoodPicture (food (game st1)))) /\
   (showPowerup (game st1) = true ->
    forall sh, In sh (Food_draw PowerupPicture (powerup (game st1))) ->
               ~ In (anchor sh)
                    (map anchor (Snake_Draw DARKGREEN (snake1 (game st1)) ++
                                 Snake_Draw DARKBLUE (snake2 (game st1)))))).
Proof.
  intros R H.
  assert (I : all_ok st1).
  { apply (before_keys_keeps all_ok all_ok_clock all_ok_update all_ok_reset
                             fuel keys st w st1 w1); [|exact H].
    exact (reachable_all st R). }
  destruct I as (_ & B & _ & _ & (Cf & _ & Cs) & (F & _)).
  unfold main_draw. destruct (gameOver st1) eqn:G.
  - split; [|discriminate].
    repeat constructor; vm_compute; discriminate.
  - assert (Run : running (game st1) = true) by (destruct (running (game st1)); auto).
    destruct (B Run) as [Ig Nd]. destruct Cf as (Gf & Ff1 & Ff2).
    split; [|intros _; split].
    + unfold Game_draw. repeat (apply Forall_app; split).
      * apply Snake_Draw_on_playfield. intros c Hc. apply Ig, in_app_iff. left; exact Hc.
      * apply Snake_Draw_on_playfield. intros c Hc. apply Ig, in_app_iff. right; exact Hc.
      * apply Food_draw_on_playfield. exact Gf.
      * destruct (showPowerup (game st1)); [|constructor].
        apply Food_draw_on_playfield. apply (Cs eq_refl).
    + rewrite !map_app, !Snake_Draw_anchors. unfold Food_draw. cbn [map anchor].
      rewrite app_assoc, <- map_app.
      change [(offset + vx (food (game st1)) * cellSize,
               offset + vy (food (game st1)) * cellSize)]
        with (map (fun c => (offset + vx c * cellSize, offset + vy c * cellSize))
                  [food (game st1)]).
      rewrite <- map_app. apply NoDup_map_corner. apply NoDup_snoc; [exact Nd|].
      intros Hf. apply in_app_iff in Hf as [Hf | Hf];
        [exact (not_elementInDeque _ _ Ff1 Hf) | exact (not_elementInDeque _ _ Ff2 Hf)].
    + intros Sh sh [<- | []]. destruct (Cs Sh) as (_ & Fp1 & Fp2).
      rewrite map_app, !Snake_Draw_anchors, <- map_app. cbn [anchor].
      intros Hp. apply in_map_iff in Hp as (c & E & Hc).
      apply corner_injective in E. subst c.
      apply in_app_iff in Hc as [Hc | Hc];
        [exact (not_elementInDeque _ _ Fp1 Hc) | exact (not_elementInDeque _ _ Fp2 Hc)].
Qed.

Lemma drawing_on_playfield_witness :
  match (st0 <- start 5 ;;
         st <- frames 5 (firstn 9 (circling 30)) st0 ;;
         before_keys 5 no_keys st) (world_of [0; 0; 24; 24; 0] steady) with
  | Done (st1, _) =>
      gameOver st1 = false /\
      Forall on_playfield (main_draw st1) /\
      NoDup (map anchor (Snake_Draw DARKGREEN (snake1 (game st1)) ++
                         Snake_Draw DARKBLUE (snake2 (game st1)) ++
                         Food_draw FoodPicture (food (game st1))))
  | Spinning => False
  end.
Proof.
  destruct ((st0 <- start 5 ;;
             st <- frames 5 (firstn 9 (circling 30)) st0 ;;
             before_keys 5 no_keys st) (world_of [0; 0; 24; 24; 0] steady))
    as [[st1 w1]|] eqn:E.
  - assert (G : gameOver st1 = false).
    { vm_compute in E. injection E as <- _. reflexivity. }
    apply bind_Done in E as (st0 & w0 & S & E).
    apply bind_Done in E as (st & w & Fr & B).
    assert (R : reachable st).
    { exists 5%nat, (world_of [0; 0; 24; 24; 0] steady), (firstn 9 (circling 30)), w.
      apply bind_Done. exists st0, w0. split; assumption. }
    destruct (drawing_on_playfield 5 no_keys st w st1 w1 R B) as [D N].
    split; [exact G|]. split; [exact D | exact (proj1 (N G))].
  - vm_compute in E. discriminate E.
Defined.
